(** * Calculadora Comercial: the lead-capture and funnel-projection handlers of [app.py]

    A shallow embedding of [src/app.py].  Python floats are IEEE-754 binary64
    values ([spec_float] at precision 53, maximal exponent 1024), Python ints
    are [Z], a [str] is a [string] read as a sequence of code points below
    256, a raised exception is the [Raise] branch of [result], and the
    database session and the flashed messages are threaded explicitly. *)

From Stdlib Require Import ZArith QArith Qround Qabs Qpower Lia Lqa Bool Ascii String
  DecimalString.
From Stdlib Require Import Floats.SpecFloat.
From Stdlib Require DecimalN.
From stdpp Require Import base option list gmap strings.

Local Open Scope Z_scope.

(** ** Exceptions and the error monad *)

Inductive exn : Set :=
| ValueError
| OverflowError
| ZeroDivisionError
| TypeError
| SQLAlchemyError.

Inductive result (A : Type) : Type :=
| Ok (a : A)
| Raise (e : exn).
Arguments Ok {A} a.
Arguments Raise {A} e.

Definition bind {A B : Type} (c : result A) (k : A -> result B) : result B :=
  match c with
  | Ok a => k a
  | Raise e => Raise e
  end.

Notation "'let*' x ':=' c 'in' k" := (bind c (fun x => k))
  (at level 10, x name, c at level 100, k at level 200).

Definition returns {A : Type} (c : result A) : bool :=
  match c with Ok _ => true | Raise _ => false end.

Definition to_option {A : Type} (c : result A) : option A :=
  match c with Ok a => Some a | Raise _ => None end.

(** ** Binary64 arithmetic *)

Module F64.

Definition prec : Z := 53.
Definition emax : Z := 1024.

Abbreviation float := spec_float.

Definition valid (x : float) : bool := valid_binary prec emax x.

Definition is_finite (x : float) : bool :=
  match x with
  | S754_zero _ | S754_finite _ _ _ => true
  | S754_infinity _ | S754_nan => false
  end.

Definition is_zero (x : float) : bool :=
  match x with
  | S754_zero _ => true
  | _ => false
  end.

Definition sign (x : float) : bool :=
  match x with
  | S754_zero s | S754_infinity s | S754_finite s _ _ => s
  | S754_nan => false
  end.

Definition mul : float -> float -> float := SFmul prec emax.
Definition sub : float -> float -> float := SFsub prec emax.
Definition div : float -> float -> float := SFdiv prec emax.
Definition ltb : float -> float -> bool := SFltb.

(** The binary64 value nearest to an integer (ties to even). *)
Definition of_Z (n : Z) : float := binary_normalize prec emax n 0 false.

(** The binary64 value nearest to the fraction [n / d], with sign [s]. *)
Definition of_ratio (s : bool) (n d : positive) : float :=
  let '(q, e, l) := SFdiv_core_binary prec emax (Zpos n) 0 (Zpos d) 0 in
  binary_round_aux prec emax s q e l.

(** The binary64 value nearest to [n * 10 ^ e10], with sign [s]:
    what [strtod] returns for the digits [n] and the decimal exponent
    [e10]. *)
Definition of_decimal (s : bool) (n : Z) (e10 : Z) : float :=
  match n with
  | Zpos p =>
      if 0 <=? e10
      then binary_round prec emax s (p * Z.to_pos (10 ^ e10))%positive 0
      else of_ratio s p (Z.to_pos (10 ^ (- e10)))
  | _ => S754_zero s
  end.

(** The exact value of a finite float, as a rational. *)
Definition to_Q (x : float) : option Q :=
  match x with
  | S754_zero _ => Some 0%Q
  | S754_finite s m e =>
      Some (if 0 <=? e
            then inject_Z (cond_Zopp s (Zpos m) * 2 ^ e)
            else Qmake (cond_Zopp s (Zpos m)) (Z.to_pos (2 ^ (- e))))
  | S754_infinity _ | S754_nan => None
  end.

(** Nearest integer to [n / d] for [0 <= n], [0 < d], ties to even. *)
Definition div_half_even (n d : Z) : Z :=
  let q := n / d in
  let r := n mod d in
  match 2 * r ?= d with
  | Lt => q
  | Gt => q + 1
  | Eq => if Z.even q then q else q + 1
  end.

(** [|x| * 100] rounded to the nearest integer, ties to even: the digits
    that the correctly rounded two-decimal conversion of [x] produces. *)
Definition cents (x : float) : Z :=
  match x with
  | S754_finite _ m e =>
      if 0 <=? e
      then Zpos m * 2 ^ e * 100
      else div_half_even (Zpos m * 100) (2 ^ (- e))
  | _ => 0
  end.

(** The exponent of the last place of a number of magnitude [2 ^ x]. *)
Definition fexp (x : Z) : Z := SpecFloat.fexp prec emax x.

(** By how much the rounding raises the exponent of [m * 2 ^ e]. *)
Definition shift_of (m e : Z) : Z := fexp (Zdigits2 m + e) - e.

(** The exponent at which the quotient of [n] by [d] is taken. *)
Definition ratio_exp (n d : positive) : Z :=
  Z.min (fexp (Zdigits2 (Zpos n) - Zdigits2 (Zpos d))) 0.

(** The shape of every result of a rounding: never a NaN, the sign it was
    given, at most 53 digits and an exponent of at most 971. *)
Definition shaped (s : bool) (x : float) : Prop :=
  match x with
  | S754_nan => False
  | S754_zero s' | S754_infinity s' => s' = s
  | S754_finite s' m e => s' = s /\ Zpos (digits2_pos m) <= 53 /\ e <= 971
  end.

(** A float whose mantissa and exponent are within the binary64 range;
    every float the interpreter builds is. *)
Definition bounded (x : float) : bool :=
  match x with
  | S754_finite _ m e => (Zpos (digits2_pos m) <=? 53) && (e <=? 971)
  | _ => true
  end.

(** The integers that a float holds exactly. *)
Definition representable (n : Z) : Prop :=
  n = 0
  \/ exists a j, Z.abs n = a * 2 ^ j /\ 0 < a /\ Zdigits2 a <= 53
                 /\ 0 <= j /\ Zdigits2 a + j <= 1024.

End F64.

Abbreviation float := spec_float.

(** ** Python's numeric built-ins on [int] and [float] *)

Module Py.

(** [int(x)] for a float [x]. *)
Definition int_of_float (x : float) : result Z :=
  match x with
  | S754_nan => Raise ValueError
  | S754_infinity _ => Raise OverflowError
  | S754_zero _ => Ok 0
  | S754_finite s m e => Ok (cond_Zopp s (Z.shiftl (Zpos m) e))
  end.

(** [math.ceil(x)] for a float [x]. *)
Definition ceil (x : float) : result Z :=
  match x with
  | S754_nan => Raise ValueError
  | S754_infinity _ => Raise OverflowError
  | S754_zero _ => Ok 0
  | S754_finite s m e => Ok (- Z.shiftl (cond_Zopp (negb s) (Zpos m)) e)
  end.

(** The conversion of an int operand in mixed arithmetic. *)
Definition float_of_int (n : Z) : result float :=
  match F64.of_Z n with
  | S754_infinity _ => Raise OverflowError
  | x => Ok x
  end.

(** [x / y] on floats. *)
Definition float_truediv (x y : float) : result float :=
  if F64.is_zero y then Raise ZeroDivisionError else Ok (F64.div x y).

(** [x / n] for a float [x] and an int [n]. *)
Definition float_truediv_int (x : float) (n : Z) : result float :=
  let* y := float_of_int n in float_truediv x y.

(** [n * x] and [x * n] for an int [n] and a float [x]. *)
Definition int_mul_float (n : Z) (x : float) : result float :=
  let* y := float_of_int n in Ok (F64.mul y x).

Definition float_mul_int (x : float) (n : Z) : result float :=
  let* y := float_of_int n in Ok (F64.mul x y).

(** [a / b] on ints: the correctly rounded quotient. *)
Definition int_truediv (a b : Z) : result float :=
  match b with
  | Z0 => Raise ZeroDivisionError
  | _ =>
      let neg := xorb (a <? 0) (b <? 0) in
      match a with
      | Z0 => Ok (S754_zero neg)
      | _ =>
          match F64.of_ratio neg (Z.to_pos (Z.abs a)) (Z.to_pos (Z.abs b)) with
          | S754_infinity _ => Raise OverflowError
          | x => Ok x
          end
      end
  end.

(** [x > 0] for a float [x] and the int literal [0]. *)
Definition float_gt_0 (x : float) : bool := F64.ltb (S754_zero false) x.

(** [round(x, 2)] for a float [x]: the decimal rounding of [x] to two
    places, converted back to the nearest float. *)
Definition round2 (x : float) : result float :=
  match x with
  | S754_finite s _ _ =>
      match F64.of_decimal s (F64.cents x) (-2) with
      | S754_infinity _ => Raise OverflowError
      | y => Ok y
      end
  | _ => Ok x
  end.

End Py.

(** ** Python's [str] methods

    A [string] stands for a [str] whose code points are all below 256. *)

Module PyStr.

Local Open Scope N_scope.

(** [str.isspace] on one code point: the set that [str.strip()] removes. *)
Definition is_space (c : ascii) : bool :=
  let n := N_of_ascii c in
  ((9 <=? n) && (n <=? 13)) || ((28 <=? n) && (n <=? 32))
  || (n =? 133) || (n =? 160).

(** The C locale's [isspace], used inside [float()]. *)
Definition is_c_space (c : ascii) : bool :=
  let n := N_of_ascii c in
  ((9 <=? n) && (n <=? 13)) || (n =? 32).

Definition is_digit (c : ascii) : bool :=
  let n := N_of_ascii c in (48 <=? n) && (n <=? 57).

Definition digit_value (c : ascii) : Z := (Z.of_N (N_of_ascii c) - 48)%Z.

Definition lower (c : ascii) : ascii :=
  let n := N_of_ascii c in
  if (65 <=? n) && (n <=? 90) then ascii_of_N (n + 32) else c.

Fixpoint map (f : ascii -> ascii) (s : string) : string :=
  match s with
  | EmptyString => EmptyString
  | String c r => String (f c) (map f r)
  end.

Fixpoint lstrip_with (sp : ascii -> bool) (s : string) : string :=
  match s with
  | EmptyString => EmptyString
  | String c r => if sp c then lstrip_with sp r else s
  end.

Fixpoint rstrip_with (sp : ascii -> bool) (s : string) : string :=
  match s with
  | EmptyString => EmptyString
  | String c r =>
      match rstrip_with sp r with
      | EmptyString => if sp c then EmptyString else String c EmptyString
      | r' => String c r'
      end
  end.

(** [s.strip()] *)
Definition strip (s : string) : string :=
  rstrip_with is_space (lstrip_with is_space s).

(** [s.replace(old, new)] for a non-empty [old]: scan from the left,
    [skip] counts the characters of a match still to be dropped. *)
Fixpoint replace_from (old new : string) (skip : nat) (s : string) : string :=
  match s with
  | EmptyString => EmptyString
  | String c r =>
      match skip with
      | S k => replace_from old new k r
      | O =>
          if String.prefix old s
          then new +:+ replace_from old new (Nat.pred (String.length old)) r
          else String c (replace_from old new 0 r)
      end
  end.

(** [s.replace("", new)]: [new] before every character and at the end. *)
Fixpoint intersperse (new s : string) : string :=
  match s with
  | EmptyString => new
  | String c r => new +:+ String c (intersperse new r)
  end.

(** [s.replace(old, new)] *)
Definition replace (old new s : string) : string :=
  match old with
  | EmptyString => intersperse new s
  | _ => replace_from old new 0 s
  end.

End PyStr.

(** ** [float(s)] for a [str] *)

Module PyFloat.

Import PyStr.

(** Code points above ASCII that are spaces become a blank before the
    text is scanned. *)
Definition to_ascii_space (c : ascii) : ascii :=
  if (127 <=? N_of_ascii c)%N && is_space c then " "%char else c.

(** Underscores may only stand between two digits; they are dropped.
    [prev] is the character before [s]. *)
Fixpoint drop_underscores (prev : ascii) (s : string) : option string :=
  match s with
  | EmptyString => if Ascii.eqb prev "_" then None else Some EmptyString
  | String c r =>
      if Ascii.eqb c "_"
      then (if is_digit prev then drop_underscores c r else None)
      else if Ascii.eqb prev "_" && negb (is_digit c) then None
           else option_map (String c) (drop_underscores c r)
  end.

Definition parse_sign (s : string) : bool * string :=
  match s with
  | String "-" r => (true, r)
  | String "+" r => (false, r)
  | _ => (false, s)
  end.

(** The leading digits of [s]: their value added to [acc] as further
    decimal places, their number added to [cnt], and what follows. *)
Fixpoint take_digits (acc cnt : Z) (s : string) : Z * Z * string :=
  match s with
  | String c r =>
      if is_digit c
      then take_digits (10 * acc + digit_value c) (cnt + 1) r
      else (acc, cnt, s)
  | EmptyString => (acc, cnt, s)
  end.

Definition parse_exponent (s : string) : option Z :=
  let '(neg, r) := parse_sign s in
  let '(v, n, rest) := take_digits 0 0 r in
  if (n =? 0) || negb (String.eqb rest "") then None
  else Some (cond_Zopp neg v).

(** A decimal literal that spans the whole of [s]:
    sign, digits with an optional point, optional exponent. *)
Definition parse_decimal (s : string) : option float :=
  let '(neg, r) := parse_sign s in
  let '(ip, n1, r) := take_digits 0 0 r in
  let '(m, n2, r) :=
    match r with
    | String "." r' => take_digits ip 0 r'
    | _ => (ip, 0, r)
    end in
  if n1 + n2 =? 0 then None
  else
    match r with
    | EmptyString => Some (F64.of_decimal neg m (- n2))
    | String c r' =>
        if Ascii.eqb (lower c) "e"
        then match parse_exponent r' with
             | Some e => Some (F64.of_decimal neg m (e - n2))
             | None => None
             end
        else None
    end.

(** [inf], [infinity] and [nan], in any case, with an optional sign. *)
Definition parse_inf_or_nan (s : string) : option float :=
  let '(neg, r) := parse_sign s in
  let r := map lower r in
  if String.eqb r "inf" || String.eqb r "infinity" then Some (S754_infinity neg)
  else if String.eqb r "nan" then Some S754_nan
  else None.

(** [float(s)] *)
Definition of_str (s : string) : result float :=
  match drop_underscores "000" (map to_ascii_space s) with
  | None => Raise ValueError
  | Some s1 =>
      let s2 := rstrip_with is_c_space (lstrip_with is_c_space s1) in
      match parse_decimal s2 with
      | Some x => Ok x
      | None =>
          match parse_inf_or_nan s2 with
          | Some x => Ok x
          | None => Raise ValueError
          end
      end
  end.

End PyFloat.

(** ** [format(v, ",.2f")] *)

Module PyFormat.

(** The values a template can hand to [br_money]. *)
Inductive value : Type :=
| VNone
| VInt (n : Z)
| VFloat (x : float)
| VStr (s : string).

Definition decimal (n : Z) : string :=
  NilZero.string_of_uint (N.to_uint (Z.to_N n)).

Definition digit_char (d : Z) : ascii := ascii_of_N (Z.to_N (48 + d)).

Definition two_digits (n : Z) : string :=
  String (digit_char (n / 10)) (String (digit_char (n mod 10)) EmptyString).

(** Digits in groups of three counted from the right, [sep] between. *)
Fixpoint group (sep : string) (s : string) : string :=
  match s with
  | EmptyString => EmptyString
  | String c r =>
      String c
        (if (0 <? String.length r)%nat && (String.length r mod 3 =? 0)%nat
         then sep +:+ group sep r
         else group sep r)
  end.

(** A sign, the grouped integer digits of [c / 100], a point and the
    two digits of [c mod 100]. *)
Definition fixed2 (neg : bool) (c : Z) : string :=
  (if neg then "-" else "") +:+ group "," (decimal (c / 100))
  +:+ "." +:+ two_digits (c mod 100).

Definition float_comma_2f (x : float) : string :=
  match x with
  | S754_nan => "nan"
  | S754_infinity s => if s then "-inf" else "inf"
  | S754_zero s => fixed2 s 0
  | S754_finite s _ _ => fixed2 s (F64.cents x)
  end.

Definition format_comma_2f (v : value) : result string :=
  match v with
  | VFloat x => Ok (float_comma_2f x)
  | VInt n => let* x := Py.float_of_int n in Ok (float_comma_2f x)
  | VNone => Raise TypeError
  | VStr _ => Raise ValueError
  end.

End PyFormat.

(** [try: c  except E: h] where [catches] tells the exceptions of [E]. *)
Definition try_except {A : Type} (c : result A) (catches : exn -> bool)
    (h : result A) : result A :=
  match c with
  | Ok a => Ok a
  | Raise e => if catches e then h else Raise e
  end.

Definition any_exception (e : exn) : bool := true.

Definition is_ValueError (e : exn) : bool :=
  match e with ValueError => true | _ => false end.

(** ** Helpers ([app.py], lines 50-73) *)

Definition br_money (v : PyFormat.value) : result string :=
  try_except
    (let* body := PyFormat.format_comma_2f v in
     Ok (PyStr.replace "X" "."
           (PyStr.replace "." ","
              (PyStr.replace "," "X" ("R$ " +:+ body)))))
    any_exception
    (Ok "R$ 0,00").

Definition parse_num (raw : option string) : result float :=
  match raw with
  | None => Ok (S754_zero false)
  | Some r =>
      let s := PyStr.strip r in
      if String.eqb s "" then Ok (S754_zero false)
      else
        let s := PyStr.replace "," "." (PyStr.replace "." "" s) in
        try_except (PyFloat.of_str s) is_ValueError (Ok (S754_zero false))
  end.

(** ** The funnel projection ([dashboard], lines 151-187)

    The dictionary [resultados] that the template receives. *)

Record resultados : Type := {
  leads : Z;
  agendamentos : Z;
  comparecimentos : Z;
  vendas : Z;
  receita : float;
  roas : float;
  cac : float;
  custo_por_call : float;
  sdrs : Z;
  closers : Z;
  taxa_total_funil : float;
  retorno_por_lead : float;
  lucro : float
}.

Definition f0 : float := S754_zero false.
Definition f100 : float := F64.of_Z 100.

(** [int(n * taxa)] for an int [n] and a float [taxa]. *)
Definition stage (n : Z) (taxa : float) : result Z :=
  let* p := Py.int_mul_float n taxa in Py.int_of_float p.

(** [max(1, ceil(n / cap))] *)
Definition headcount (n cap : Z) : result Z :=
  let* q := Py.int_truediv n cap in
  let* c := Py.ceil q in
  Ok (Z.max 1 c).

(** The count stages (lines 151-153 and 156-159): the three rates are
    still percentages here and are divided by [100.0] first. *)
Definition funnel_counts
    (investimento custo_lead pct_agendamento pct_comparecimento
     pct_conversao : float) : result (Z * Z * Z * Z) :=
  let* taxa_agendamento := Py.float_truediv pct_agendamento f100 in
  let* taxa_comparecimento := Py.float_truediv pct_comparecimento f100 in
  let* taxa_conversao := Py.float_truediv pct_conversao f100 in
  let* leads :=
    if Py.float_gt_0 custo_lead
    then (let* q := Py.float_truediv investimento custo_lead in
          Py.int_of_float q)
    else Ok 0 in
  let* agendamentos := stage leads taxa_agendamento in
  let* comparecimentos := stage agendamentos taxa_comparecimento in
  let* vendas := stage comparecimentos taxa_conversao in
  Ok (leads, agendamentos, comparecimentos, vendas).

(** The body of the [POST] branch of [dashboard] after the six fields are
    parsed (lines 151-187). *)
Definition project_funnel
    (investimento custo_lead pct_agendamento pct_comparecimento
     pct_conversao ticket_medio : float) : result resultados :=
  let* counts := funnel_counts investimento custo_lead pct_agendamento
                   pct_comparecimento pct_conversao in
  let '(leads, agendamentos, comparecimentos, vendas) := counts in
  let* receita := Py.int_mul_float vendas ticket_medio in
  let* cac :=
    if 0 <? vendas then Py.float_truediv_int investimento vendas else Ok f0 in
  let* roas :=
    if Py.float_gt_0 investimento
    then Py.float_truediv receita investimento else Ok f0 in
  let* custo_por_call :=
    if 0 <? comparecimentos
    then Py.float_truediv_int investimento comparecimentos else Ok f0 in
  let* sdrs := headcount comparecimentos 180 in
  let* closers := headcount vendas 120 in
  let* taxa_total_funil :=
    if 0 <? leads
    then (let* q := Py.int_truediv vendas leads in
          let* p := Py.float_mul_int q 100 in
          Py.round2 p)
    else Ok f0 in
  let* retorno_por_lead :=
    if 0 <? leads
    then (let* q := Py.float_truediv_int receita leads in Py.round2 q)
    else Ok f0 in
  let lucro := F64.sub receita investimento in
  let* receita2 := Py.round2 receita in
  let* roas2 := Py.round2 roas in
  let* cac2 := Py.round2 cac in
  let* custo_por_call2 := Py.round2 custo_por_call in
  let* retorno_por_lead2 := Py.round2 retorno_por_lead in
  let* lucro2 := Py.round2 lucro in
  Ok {| leads := leads;
        agendamentos := agendamentos;
        comparecimentos := comparecimentos;
        vendas := vendas;
        receita := receita2;
        roas := roas2;
        cac := cac2;
        custo_por_call := custo_por_call2;
        sdrs := sdrs;
        closers := closers;
        taxa_total_funil := taxa_total_funil;
        retorno_por_lead := retorno_por_lead2;
        lucro := lucro2 |}.

(** ** The store, the request and the handler monad *)

Module Lead.
(** A row of the table [leads]. *)
Record t : Type := {
  id : Z;
  name : string;
  phone : string;
  email : string;
  company : string;
  created_at : Z
}.
End Lead.

(** A [Lead(...)] object that the session has not flushed yet. *)
Record transient : Type := {
  t_name : string;
  t_phone : string;
  t_email : string;
  t_company : string
}.

Inductive http_method : Set := GET | POST.

Record request : Type := {
  method : http_method;
  form : gmap string string;
  (** [request.args.get("lead_id", type=int)] *)
  arg_lead_id : option Z
}.

(** What a request finds around it: the clock, and whether the database
    accepts the next commit. *)
Record env : Type := {
  utcnow : Z;
  year : Z;
  commit_succeeds : bool
}.

(** The table [leads], the objects of the session with the primary key
    each one got when it was flushed, and the flashed messages. *)
Record world : Type := {
  db_leads : gmap Z Lead.t;
  db_session : list (transient * option Z);
  flashes : list (string * string)
}.

(** [url_for("capture")] and [url_for("dashboard", lead_id=i)] *)
Inductive route : Type :=
| url_capture
| url_dashboard (lead_id : option Z).

Record context : Type := {
  ctx_lead : option Lead.t;
  ctx_resultados : option resultados;
  ctx_year : option Z
}.

Definition no_context : context :=
  {| ctx_lead := None; ctx_resultados := None; ctx_year := None |}.

Inductive response : Type :=
| Render (template : string) (ctx : context)
| Redirect (location : route) (code : Z).

Definition M (A : Type) : Type := world -> result A * world.

Definition retM {A : Type} (a : A) : M A := fun w => (Ok a, w).

Definition bindM {A B : Type} (c : M A) (k : A -> M B) : M B :=
  fun w =>
    match c w with
    | (Ok a, w') => k a w'
    | (Raise e, w') => (Raise e, w')
    end.

Notation "x <- c ;; k" := (bindM c (fun x => k))
  (at level 100, c at next level, right associativity).
Notation "c ;; k" := (bindM c (fun _ => k))
  (at level 100, right associativity).

Definition lift {A : Type} (c : result A) : M A := fun w => (c, w).

(** [try: c  except Exception: h] *)
Definition try_m {A : Type} (c : M A) (h : M A) : M A :=
  fun w =>
    match c w with
    | (Ok a, w') => (Ok a, w')
    | (Raise _, w') => h w'
    end.

(** [flash(message, category)] *)
Definition flash (message category : string) : M unit :=
  fun w =>
    (Ok tt, {| db_leads := db_leads w;
               db_session := db_session w;
               flashes := flashes w ++ [(category, message)] |}).

Fixpoint flash_all (messages : list string) (category : string) : M unit :=
  match messages with
  | [] => retM tt
  | m :: rest => flash m category ;; flash_all rest category
  end.

(** [Lead.query.get(i)] where the [SELECT] goes through: the row under
    the key [i], if the table has one. *)
Definition query_get (i : Z) : M (option Lead.t) :=
  fun w => (Ok (db_leads w !! i), w).

(** [db.session.add(lead)]; the result is the place of the object in the
    session, by which [lead] is referred to afterwards. *)
Definition session_add (l : transient) : M nat :=
  fun w =>
    (Ok (length (db_session w)),
     {| db_leads := db_leads w;
        db_session := db_session w ++ [(l, None)];
        flashes := flashes w |}).

(** The primary key the table gives its next row. *)
Definition next_id (table : gmap Z Lead.t) : Z :=
  1 + map_fold (fun k _ acc => Z.max k acc) 0 table.

(** The [INSERT] of one object of the session that has no key yet. *)
Definition flush_one (now : Z)
    (acc : gmap Z Lead.t * list (transient * option Z))
    (o : transient * option Z) : gmap Z Lead.t * list (transient * option Z) :=
  match o.2 with
  | Some _ => (acc.1, acc.2 ++ [o])
  | None =>
      let i := next_id acc.1 in
      (<[ i := {| Lead.id := i;
                  Lead.name := t_name o.1;
                  Lead.phone := t_phone o.1;
                  Lead.email := t_email o.1;
                  Lead.company := t_company o.1;
                  Lead.created_at := now |} ]> acc.1,
       acc.2 ++ [(o.1, Some i)])
  end.

(** [db.session.commit()] *)
Definition session_commit (e : env) : M unit :=
  fun w =>
    if commit_succeeds e
    then
      let r := foldl (flush_one (utcnow e)) (db_leads w, []) (db_session w) in
      (Ok tt, {| db_leads := r.1; db_session := r.2; flashes := flashes w |})
    else (Raise SQLAlchemyError, w).

(** [db.session.rollback()] *)
Definition session_rollback : M unit :=
  fun w =>
    (Ok tt, {| db_leads := db_leads w;
               db_session := filter (fun o => is_Some o.2) (db_session w);
               flashes := flashes w |}).

(** [lead.id] for the object at place [h] of the session. *)
Definition lead_id_of (h : nat) : M (option Z) :=
  fun w => (Ok (o ← db_session w !! h; o.2), w).

(** [(request.form.get(key) or "").strip()] *)
Definition form_field (rq : request) (key : string) : string :=
  PyStr.strip (default "" (form rq !! key)).

Definition is_empty (s : string) : bool := String.eqb s "".

(** ** Routes ([app.py], lines 85-189) *)

Definition old_login : M response := retM (Redirect url_capture 301).

Definition logout : M response := retM (Redirect url_capture 302).

(** The two messages of [capture] with accented letters, each letter one
    code point: 225, 227 and 237 are a-acute, a-tilde and i-acute. *)
Definition msg_received : string :=
  "Dados recebidos com sucesso. Vamos iniciar sua an"
  +:+ String "225"%char "lise comercial!".

Definition msg_not_saved : string :=
  String "N"%char (String "227"%char "o foi poss")
  +:+ String "237"%char
        "vel salvar seus dados agora. Tente novamente em instantes.".

Definition capture (e : env) (rq : request) : M response :=
  match method rq with
  | POST =>
      let name := form_field rq "name" in
      let phone := form_field rq "phone" in
      let email := form_field rq "email" in
      let company := form_field rq "company" in
      let errors :=
        (if is_empty name then ["Informe o seu nome."] else [])
        ++ (if is_empty phone then ["Informe o seu telefone."] else [])
        ++ (if is_empty email then ["Informe o seu e-mail."] else []) in
      match errors with
      | _ :: _ =>
          flash_all errors "danger" ;;
          retM (Render "lead_capture.html" no_context)
      | [] =>
          try_m
            (let lead := {| t_name := name; t_phone := phone;
                            t_email := email; t_company := company |} in
             h <- session_add lead ;;
             session_commit e ;;
             flash msg_received "success" ;;
             i <- lead_id_of h ;;
             retM (Redirect (url_dashboard i) 302))
            (session_rollback ;;
             flash msg_not_saved "danger" ;;
             retM (Render "lead_capture.html" no_context))
      end
  | GET => retM (Render "lead_capture.html" no_context)
  end.

Definition dashboard (e : env) (rq : request) : M response :=
  lead <- match arg_lead_id rq with
          | Some i => if i =? 0 then retM None else query_get i
          | None => retM None
          end ;;
  resultados <-
    match method rq with
    | POST =>
        r <- lift
               (let* investimento := parse_num (form rq !! "investimento") in
                let* custo_lead := parse_num (form rq !! "custo_lead") in
                let* pct_agendamento := parse_num (form rq !! "taxa_agendamento") in
                let* pct_comparecimento := parse_num (form rq !! "taxa_comparecimento") in
                let* pct_conversao := parse_num (form rq !! "taxa_conversao") in
                let* ticket_medio := parse_num (form rq !! "ticket_medio") in
                project_funnel investimento custo_lead pct_agendamento
                  pct_comparecimento pct_conversao ticket_medio) ;;
        retM (Some r)
    | GET => retM None
    end ;;
  retM (Render "dashboard.html"
         {| ctx_lead := lead; ctx_resultados := resultados;
            ctx_year := Some (year e) |}).

(** ** The derivation chain in the words of the specification *)

Module Spec.

(** Truncation toward zero: the floor of a non-negative rational, the
    ceiling of a negative one. *)
Definition Qtrunc (q : Q) : Z :=
  if Qle_bool 0 q then Qfloor q else Qceiling q.

(** The integer part of a float; there is none for an infinity or a NaN. *)
Definition trunc (x : float) : option Z := Qtrunc <$> F64.to_Q x.

(** The least integer not below a float. *)
Definition ceiling (x : float) : option Z := Qceiling <$> F64.to_Q x.

(** The ceiling of the quotient of two integers. *)
Definition ceil_div (n d : Z) : Z := - ((- n) / d).

(** The count stages as the specification writes them, on exact
    rationals: a rate is the percentage divided by 100, nothing is rounded
    and each count is truncated toward zero. *)
Definition leads (investment costPerLead : Q) : Z :=
  if Qle_bool costPerLead 0 then 0 else Qtrunc (investment / costPerLead).

Definition next_stage (count : Z) (pct : Q) : Z :=
  Qtrunc (inject_Z count * (pct / inject_Z 100)).

Definition stages
    (investment costPerLead schedulingRate attendanceRate conversionRate : Q)
    : Z * Z * Z * Z :=
  let l := leads investment costPerLead in
  let a := next_stage l schedulingRate in
  let c := next_stage a attendanceRate in
  let s := next_stage c conversionRate in
  (l, a, c, s).

End Spec.

(** ** The derivation chain in binary64 arithmetic

    The same chain with every quotient and product rounded to the nearest
    float before it is truncated; there is no count where a quotient or a
    product is an infinity or a NaN. *)

Module Rounded.

(** A percentage as a rate. *)
Definition rate (pct : float) : float := F64.div pct f100.

(** The product of a count and a rate. *)
Definition times (n : Z) (r : float) : float := F64.mul (F64.of_Z n) r.

Definition leads (investment costPerLead : float) : option Z :=
  if F64.ltb f0 costPerLead
  then Spec.trunc (F64.div investment costPerLead)
  else Some 0.

Definition next_stage (count : Z) (pct : float) : option Z :=
  Spec.trunc (times count (rate pct)).

Definition stages
    (investment costPerLead schedulingRate attendanceRate conversionRate : float)
    : option (Z * Z * Z * Z) :=
  l ← leads investment costPerLead;
  a ← next_stage l schedulingRate;
  c ← next_stage a attendanceRate;
  s ← next_stage c conversionRate;
  Some (l, a, c, s).

End Rounded.

(** The chain of the specification at the exact values of five finite
    floats. *)
Definition exact_stages
    (investimento custo_lead pct_agendamento pct_comparecimento
     pct_conversao : float) : option (Z * Z * Z * Z) :=
  i ← F64.to_Q investimento;
  c ← F64.to_Q custo_lead;
  pa ← F64.to_Q pct_agendamento;
  pc ← F64.to_Q pct_comparecimento;
  pv ← F64.to_Q pct_conversao;
  Some (Spec.stages i c pa pc pv).

(** ** Exact values and roundings *)

Module Exact.

(** The rational [m * 2 ^ e] with the sign [s]. *)
Definition value (s : bool) (m e : Z) : Q :=
  (inject_Z (cond_Zopp s m) * 2 ^ e)%Q.

(** [V] and [T] lie in one cell [lo, lo + w] of a grid on one side of
    zero, and the grid is as fine as binary64 has it: [w] is at most
    [2 ^ -1074], or at most [2 ^ -52] times the lower end of the cell. *)
Definition cell (V T : Q) : Prop :=
  exists lo w : Q,
    (0 <= lo /\ 0 <= w
     /\ (w <= 2 ^ (-1074) \/ 2 ^ 52 * w <= lo)
     /\ ((lo <= V <= lo + w /\ lo <= T <= lo + w)
         \/ (- (lo + w) <= V <= - lo /\ - (lo + w) <= T <= - lo)))%Q.

End Exact.

(** ** Character-wise readings of the string operations *)

Module Chars.

Fixpoint flat_map (f : ascii -> string) (s : string) : string :=
  match s with
  | EmptyString => EmptyString
  | String c r => f c +:+ flat_map f r
  end.

Fixpoint all (p : ascii -> bool) (s : string) : bool :=
  match s with
  | EmptyString => true
  | String c r => p c && all p r
  end.

Definition first (s : string) : option ascii :=
  match s with
  | EmptyString => None
  | String c _ => Some c
  end.

Fixpoint last (s : string) : option ascii :=
  match s with
  | EmptyString => None
  | String c EmptyString => Some c
  | String _ r => last r
  end.

(** Blank: nothing but white space. *)
Definition blank (s : string) : bool := all PyStr.is_space s.

(** What [parse_num] does to one character of a pt-BR numeral: the
    thousands separator goes, the decimal comma becomes a point. *)
Definition separator (c : ascii) : string :=
  if Ascii.eqb c "." then ""
  else if Ascii.eqb c "," then "."
  else String c EmptyString.

(** What [br_money] does to one character of the formatted number. *)
Definition swap (c : ascii) : ascii :=
  if Ascii.eqb c "," then "."%char
  else if Ascii.eqb c "." then ","%char
  else c.

End Chars.

(** The float, or the fallback [0.0] where the conversion raised. *)
Definition float_or_zero (c : result float) : float :=
  match c with
  | Ok x => x
  | Raise _ => f0
  end.

(** The binary64 value [0x1.34a3d70a3d70ap+10], the nearest to 1234.56. *)
Definition f_1234_56 : float := S754_finite false 5429652300748554 (-42).

(** The lead a dashboard request asks for, as the table has it. *)
Definition requested_lead (rq : request) (w : world) : option Lead.t :=
  match arg_lead_id rq with
  | Some i => if i =? 0 then None else db_leads w !! i
  | None => None
  end.

(** The float of a form field, as [parse_num] reads it. *)
Definition field_value (rq : request) (key : string) : float :=
  float_or_zero (parse_num (form rq !! key)).

(** ** Concrete requests *)

Definition form_of (fields : list (string * string)) : gmap string string :=
  list_to_map fields.

Definition funnel_request (investimento custo_lead ticket_medio : string) : request :=
  {| method := POST;
     form := form_of [("investimento", investimento); ("custo_lead", custo_lead);
                      ("taxa_agendamento", "20"); ("taxa_comparecimento", "80");
                      ("taxa_conversao", "25"); ("ticket_medio", ticket_medio)];
     arg_lead_id := None |}.

Definition filled_request : request :=
  {| method := POST;
     form := form_of [("name", "Ana"); ("phone", "11 5555-0100");
                      ("email", "ana@example.com")];
     arg_lead_id := None |}.

Definition empty_world : world :=
  {| db_leads := ∅; db_session := []; flashes := [] |}.

Definition env_up : env := {| utcnow := 0; year := 2024; commit_succeeds := true |}.
Definition env_down : env := {| utcnow := 0; year := 2024; commit_succeeds := false |}.

(** The resultados of a rendered dashboard. *)
Definition rendered_resultados (r : result response) : option resultados :=
  match r with
  | Ok (Render _ ctx) => ctx_resultados ctx
  | _ => None
  end.

(** The pt-BR rendering of [c] hundredths: the prefix, a sign, the integer
    digits in groups of three with points between, a comma and two
    decimal digits. *)
Definition currency (neg : bool) (c : Z) : string :=
  "R$ " +:+ (if neg then "-" else "")
  +:+ PyFormat.group "." (PyFormat.decimal (c / 100))
  +:+ "," +:+ PyFormat.two_digits (c mod 100).

(** The messages [capture] flashes for the required fields that are blank. *)
Definition field_errors (rq : request) : list (string * string) :=
  (if is_empty (form_field rq "name")
   then [("danger", "Informe o seu nome.")] else [])
  ++ (if is_empty (form_field rq "phone")
      then [("danger", "Informe o seu telefone.")] else [])
  ++ (if is_empty (form_field rq "email")
      then [("danger", "Informe o seu e-mail.")] else []).

(** Whether one of the three required fields is blank. *)
Definition required_blank (rq : request) : bool :=
  is_empty (form_field rq "name") || is_empty (form_field rq "phone")
  || is_empty (form_field rq "email").

(** The row a successful capture inserts under the key [i]. *)
Definition new_row (e : env) (rq : request) (i : Z) : Lead.t :=
  {| Lead.id := i;
     Lead.name := form_field rq "name";
     Lead.phone := form_field rq "phone";
     Lead.email := form_field rq "email";
     Lead.company := form_field rq "company";
     Lead.created_at := utcnow e |}.

(** The projection of the worked example of the specification. *)
Definition example_result : resultados :=
  {| leads := 200; agendamentos := 40; comparecimentos := 32; vendas := 8;
     receita := F64.of_Z 4000;
     roas := F64.of_decimal false 4 (-1);
     cac := F64.of_Z 1250;
     custo_por_call := F64.of_decimal false 3125 (-1);
     sdrs := 1; closers := 1;
     taxa_total_funil := F64.of_Z 4;
     retorno_por_lead := F64.of_Z 20;
     lucro := F64.of_Z (-6000) |}.

(** The projection of an empty funnel. *)
Definition empty_result : resultados :=
  {| leads := 0; agendamentos := 0; comparecimentos := 0; vendas := 0;
     receita := f0; roas := f0; cac := f0; custo_por_call := f0;
     sdrs := 1; closers := 1;
     taxa_total_funil := f0; retorno_por_lead := f0; lucro := f0 |}.

Definition not_X (c : ascii) : bool := negb (Ascii.eqb c "X").

(** ** Configuration and [Lead.__repr__] ([app.py], lines 12-25 and 41-42) *)

Module Os.

(** [os.getenv(key)] *)
Definition getenv (environ : gmap string string) (key : string)
    : option string :=
  environ !! key.

(** [os.getenv(key, fallback)] *)
Definition getenv_or (environ : gmap string string) (key fallback : string)
    : string :=
  default fallback (environ !! key).

Definition starts_with_sep (s : string) : bool :=
  match s with
  | String "/" _ => true
  | _ => false
  end.

Fixpoint ends_with_sep (s : string) : bool :=
  match s with
  | EmptyString => false
  | String c EmptyString => Ascii.eqb c "/"
  | String _ r => ends_with_sep r
  end.

(** [os.path.join(a, b)] of [posixpath]. *)
Definition path_join (a b : string) : string :=
  if starts_with_sep b then b
  else if is_empty a || ends_with_sep a then a +:+ b
  else a +:+ "/" +:+ b.

End Os.

(** The truth value of [None] or a [str]. *)
Definition truthy (v : option string) : bool :=
  match v with
  | Some s => negb (is_empty s)
  | None => false
  end.

(** [x or y] *)
Definition py_or (x y : option string) : option string :=
  if truthy x then x else y.

Record config : Type := {
  secret_key : string;
  sqlalchemy_database_uri : string;
  sqlalchemy_track_modifications : bool
}.

Definition configure (environ : gmap string string) : config :=
  let secret := Os.getenv_or environ "SECRET_KEY" "change-me-in-production" in
  let vercel_env :=
    py_or (Os.getenv environ "VERCEL_ENV") (Os.getenv environ "VERCEL") in
  let db_url := Os.getenv environ "DATABASE_URL" in
  let db_url :=
    if negb (truthy db_url)
    then
      if truthy vercel_env
      then
        let db_path := Os.path_join "/tmp" "local.db" in
        "sqlite:///" +:+ db_path
      else "sqlite:///local.db"
    else default "" db_url in
  {| secret_key := secret;
     sqlalchemy_database_uri := db_url;
     sqlalchemy_track_modifications := false |}.

(** [str(n)] for an int. *)
Definition str_int (n : Z) : string :=
  (if n <? 0 then "-" else "") +:+ PyFormat.decimal (Z.abs n).

(** The text of [{self.id}]: the key, or [None] before the flush. *)
Definition str_id (i : option Z) : string :=
  match i with
  | Some n => str_int n
  | None => "None"
  end.

Definition lead_repr (i : option Z) (name : string) : string :=
  "<Lead " +:+ str_id i +:+ " - " +:+ name +:+ ">".

(** Whether [VERCEL_ENV] or [VERCEL] is set to something. *)
Definition on_vercel (environ : gmap string string) : bool :=
  truthy (environ !! "VERCEL_ENV") || truthy (environ !! "VERCEL").

Definition no_blank (c : ascii) : bool := negb (Ascii.eqb c " ").

(** ** Numerals and amounts *)

Module Numeral.

(** The number a string of decimal digits writes, after the digits [acc]. *)
Fixpoint number_from (acc : Z) (s : string) : Z :=
  match s with
  | EmptyString => acc
  | String c r => number_from (10 * acc + PyStr.digit_value c) r
  end.

Definition number (s : string) : Z := number_from 0 s.

(** A digit or a thousands separator. *)
Definition grouped_digit (c : ascii) : bool :=
  PyStr.is_digit c || Ascii.eqb c ".".

(** The digits of a grouped integer part. *)
Definition digits (s : string) : string := Chars.flat_map Chars.separator s.

Definition minus_sign (neg : bool) : string := if neg then "-" else "".

(** A character that none of the scanners of [float] or [strip] treats
    specially: a digit, a point or a minus sign. *)
Definition plain (c : ascii) : bool :=
  PyStr.is_digit c || Ascii.eqb c "." || Ascii.eqb c "-".

(** A character of a pt-BR numeral. *)
Definition numeral_char (c : ascii) : bool := plain c || Ascii.eqb c ",".

End Numeral.

(** The text of [br_money] after its prefix. *)
Definition amount (neg : bool) (c : Z) : string :=
  Numeral.minus_sign neg +:+ PyFormat.group "." (PyFormat.decimal (c / 100))
  +:+ "," +:+ PyFormat.two_digits (c mod 100).

(** ** Bounds on floats and counts *)

Module Bound.

(** [m * 2 ^ e <= b] on integers, whatever the sign of [e]. *)
Definition le_scaled (m e b : Z) : bool :=
  m * 2 ^ Z.max e 0 <=? b * 2 ^ Z.max (- e) 0.

(** A float that is a zero, or finite with a magnitude of at most the
    integer [b]. *)
Definition magnitude_le (b : Z) (x : float) : bool :=
  match x with
  | S754_zero _ => true
  | S754_finite _ m e => le_scaled (Zpos m) e b
  | S754_infinity _ | S754_nan => false
  end.

(** Neither negative nor a NaN; a zero of either sign counts. *)
Definition nonneg (x : float) : bool :=
  match x with
  | S754_zero _ => true
  | S754_finite s _ _ | S754_infinity s => negb s
  | S754_nan => false
  end.

(** The exact value of the float lies between two integers. *)
Definition within (lo hi : Z) (x : float) : bool :=
  match F64.to_Q x with
  | Some q => Qle_bool (inject_Z lo) q && Qle_bool q (inject_Z hi)
  | None => false
  end.

(** [x] lies between 0 and [y], on whichever side of 0 [y] is. *)
Definition toward_zero (x y : Z) : Prop := 0 <= x <= y \/ y <= x <= 0.

End Bound.

Definition is_nan (x : float) : bool :=
  match x with
  | S754_nan => true
  | _ => false
  end.

(** The seven amounts of a projection. *)
Definition amounts (r : resultados) : list float :=
  [receita r; roas r; cac r; custo_por_call r; taxa_total_funil r;
   retorno_por_lead r; lucro r].

(** A dashboard request that names no lead: [lead_id] is absent, is no
    int or is 0, so that [if lead_id:] (line 142) skips the lookup. *)
Definition no_lead_requested (rq : request) : bool :=
  match arg_lead_id rq with
  | Some i => i =? 0
  | None => true
  end.

(** The six parsed fields of a dashboard form, in the order of the source. *)
Definition parsed_counts (rq : request) : result (Z * Z * Z * Z) :=
  funnel_counts (field_value rq "investimento") (field_value rq "custo_lead")
    (field_value rq "taxa_agendamento") (field_value rq "taxa_comparecimento")
    (field_value rq "taxa_conversao").

(** ** The store as [capture] leaves it *)

(** An object of the session that has its primary key. *)
Definition flushed (o : transient * option Z) : bool :=
  match o.2 with Some _ => true | None => false end.

(** What [strip] leaves alone. *)
Definition stripped (s : string) : bool := String.eqb (PyStr.strip s) s.

(** A row as [capture] writes it: filed under its own positive key, the
    three required columns neither empty nor padded. *)
Definition row_ok (k : Z) (l : Lead.t) : bool :=
  (Lead.id l =? k) && (0 <? k)
  && negb (is_empty (Lead.name l)) && stripped (Lead.name l)
  && negb (is_empty (Lead.phone l)) && stripped (Lead.phone l)
  && negb (is_empty (Lead.email l)) && stripped (Lead.email l)
  && stripped (Lead.company l).

Definition world_ok (w : world) : Prop :=
  map_Forall (fun k l => row_ok k l = true) (db_leads w)
  /\ Forall (fun o => flushed o = true) (db_session w).

(** The page of the dashboard for a lead, before any projection. *)
Definition lead_page (e : env) (l : option Lead.t) : response :=
  Render "dashboard.html"
    {| ctx_lead := l; ctx_resultados := None; ctx_year := Some (year e) |}.

(** The transient object that [capture] builds from the form. *)
Definition lead_of_form (rq : request) : transient :=
  {| t_name := form_field rq "name"; t_phone := form_field rq "phone";
     t_email := form_field rq "email"; t_company := form_field rq "company" |}.

(** Whether a message of the category was flashed. *)
Definition has_category (c : string) (fs : list (string * string)) : bool :=
  existsb (fun f => String.eqb f.1 c) fs.

(** The request that the redirect of a capture leads to. *)
Definition lead_request (i : Z) : request :=
  {| method := GET; form := ∅; arg_lead_id := Some i |}.

(** The store after one lead was captured. *)
Definition one_lead_world : world :=
  (capture env_up filled_request empty_world).2.

(** * Properties *)

Local Arguments String.append : simpl nomatch.

(** ** The error monad *)

Lemma to_option_bind {A B : Type} (c : result A) (k : A -> result B) :
  to_option (bind c k) = to_option c ≫= (fun a => to_option (k a)).
Proof. destruct c; reflexivity. Qed.

(** Case analysis on the first computation of a chain of [let*]. *)
Ltac step_bind :=
  match goal with
  | |- context [bind ?c _] => destruct c eqn:?; cbn [bind]
  end.

(** ** [int] and [math.ceil] against the exact value of a float *)

Section Rounding.

Lemma cond_Zopp_mul (s : bool) (a b : Z) :
  cond_Zopp s a * b = cond_Zopp s (a * b).
Proof. destruct s; simpl; lia. Qed.

Lemma cond_Zopp_negb (s : bool) (a : Z) :
  cond_Zopp (negb s) a = - cond_Zopp s a.
Proof. destruct s; simpl; lia. Qed.

Lemma Qtrunc_make_nonneg (n : Z) (d : positive) :
  0 <= n -> Spec.Qtrunc (n # d) = n / Zpos d.
Proof.
  intros Hn. unfold Spec.Qtrunc.
  destruct (Qle_bool 0 (n # d)) eqn:E; [reflexivity|].
  exfalso. assert (H : Qle_bool 0 (n # d) = true).
  { apply Qle_bool_iff. unfold Qle. simpl. lia. }
  congruence.
Qed.

Lemma Qtrunc_make_neg (n : Z) (d : positive) :
  n < 0 -> Spec.Qtrunc (n # d) = - (- n / Zpos d).
Proof.
  intros Hn. unfold Spec.Qtrunc.
  destruct (Qle_bool 0 (n # d)) eqn:E; [|reflexivity].
  apply Qle_bool_iff in E. unfold Qle in E. simpl in E. lia.
Qed.

(** [Qtrunc] drops the fractional part: the result is the integer next to
    [q] on the side of zero. *)
Lemma Qtrunc_toward_zero (q : Q) :
  ((0 <= q)%Q ->
   (inject_Z (Spec.Qtrunc q) <= q)%Q /\ (q < inject_Z (Spec.Qtrunc q + 1))%Q)
  /\ ((q < 0)%Q ->
      (inject_Z (Spec.Qtrunc q - 1) < q)%Q /\ (q <= inject_Z (Spec.Qtrunc q))%Q).
Proof.
  unfold Spec.Qtrunc. split; intros H.
  - apply Qle_bool_iff in H. rewrite H.
    split; [apply Qfloor_le|apply Qlt_floor].
  - destruct (Qle_bool 0 q) eqn:E.
    + apply Qle_bool_iff in E. exfalso. exact (Qlt_not_le _ _ H E).
    + split; [apply Qceiling_lt|apply Qle_ceiling].
Qed.

Lemma Qtrunc_cond_Zopp (s : bool) (m d : positive) :
  Spec.Qtrunc (cond_Zopp s (Zpos m) # d) = cond_Zopp s (Zpos m / Zpos d).
Proof.
  destruct s; simpl.
  - rewrite Qtrunc_make_neg by lia. reflexivity.
  - rewrite Qtrunc_make_nonneg by lia. reflexivity.
Qed.

Lemma to_Q_finite (s : bool) (m : positive) (e : Z) :
  F64.to_Q (S754_finite s m e)
  = Some (if 0 <=? e then inject_Z (cond_Zopp s (Zpos m) * 2 ^ e)
          else cond_Zopp s (Zpos m) # Z.to_pos (2 ^ (- e))).
Proof. reflexivity. Qed.

(** [int(x)] is the truncation toward zero of the exact value of [x], and
    raises exactly where [x] has none. *)
Lemma int_of_float_trunc (x : float) :
  to_option (Py.int_of_float x) = Spec.trunc x.
Proof.
  destruct x as [s | s | | s m e]; try reflexivity.
  unfold Spec.trunc. rewrite to_Q_finite. simpl.
  f_equal. destruct (Z.leb_spec 0 e) as [He | He].
  - rewrite Z.shiftl_mul_pow2 by lia.
    rewrite cond_Zopp_mul.
    assert (Hp : 0 < Zpos m * 2 ^ e)
      by (apply Z.mul_pos_pos; [lia | apply Z.pow_pos_nonneg; lia]).
    unfold inject_Z.
    destruct (Zpos m * 2 ^ e) as [|p|p] eqn:Ep; try lia.
    rewrite Qtrunc_cond_Zopp. rewrite Z.div_1_r. reflexivity.
  - rewrite Z.shiftl_div_pow2 by lia.
    rewrite Qtrunc_cond_Zopp.
    rewrite Z2Pos.id by (apply Z.pow_pos_nonneg; lia).
    reflexivity.
Qed.

(** [math.ceil(x)] is the least integer not below the exact value of [x]. *)
Lemma ceil_ceiling (x : float) : to_option (Py.ceil x) = Spec.ceiling x.
Proof.
  destruct x as [s | s | | s m e]; try reflexivity.
  unfold Spec.ceiling. rewrite to_Q_finite. simpl. f_equal.
  rewrite cond_Zopp_negb.
  destruct (Z.leb_spec 0 e) as [He | He].
  - rewrite Z.shiftl_mul_pow2 by lia. rewrite Qceiling_Z. lia.
  - rewrite Z.shiftl_div_pow2 by lia.
    unfold Qceiling, Qfloor, Qopp. simpl.
    rewrite Z2Pos.id by (apply Z.pow_pos_nonneg; lia).
    reflexivity.
Qed.

End Rounding.

(** ** Rounding to binary64

    What follows is about [binary_round_aux], the rounding to nearest even
    behind every arithmetic operation: the number of binary digits of the
    mantissa, the right shift that brings it down to 53 digits, and from
    these the shape of the result, when it cannot overflow and when it is
    exact. *)

(** *** Binary digits *)

Lemma digits2_size (p : positive) : digits2_pos p = Pos.size p.
Proof. induction p; simpl; congruence. Qed.

Lemma digits_bounds (p : positive) :
  2 ^ (Zpos (digits2_pos p) - 1) <= Zpos p < 2 ^ Zpos (digits2_pos p).
Proof.
  rewrite digits2_size. split.
  - pose proof (Pos.size_le p) as H.
    assert (H' : 2 ^ Zpos (Pos.size p) <= 2 * Zpos p).
    { change (2 * Zpos p) with (Zpos p~0). rewrite <- Pos2Z.inj_pow. apply Pos2Z.pos_le_pos. exact H. }
    replace (Zpos (Pos.size p)) with (Z.succ (Zpos (Pos.size p) - 1)) in H' by lia.
    rewrite Z.pow_succ_r in H' by lia. lia.
  - pose proof (Pos.size_gt p) as H.
    rewrite <- Pos2Z.inj_pow. apply Pos2Z.pos_lt_pos. exact H.
Qed.

Lemma digits_unique (p : positive) (d : Z) :
  2 ^ (d - 1) <= Zpos p < 2 ^ d -> Zpos (digits2_pos p) = d.
Proof.
  intros [Hl Hu]. pose proof (digits_bounds p) as [Bl Bu].
  set (D := Zpos (digits2_pos p)) in *.
  assert (HD : 0 < D) by (unfold D; lia).
  destruct (Z.lt_trichotomy D d) as [H|[H|H]]; [|exact H|].
  - exfalso. assert (2 ^ D <= 2 ^ (d - 1)) by (apply Z.pow_le_mono_r; lia). lia.
  - exfalso. destruct (Z.le_gt_cases d 0) as [Hd|Hd].
    + assert (2 ^ d <= 2 ^ 0) by (apply Z.pow_le_mono_r_iff; lia). simpl in *. lia.
    + assert (2 ^ d <= 2 ^ (D - 1)) by (apply Z.pow_le_mono_r; lia). lia.
Qed.

Lemma Zdigits2_nonneg (m : Z) : 0 <= Zdigits2 m.
Proof. destruct m; simpl; lia. Qed.

Lemma Zdigits2_pos (m : Z) : 0 < m -> 0 < Zdigits2 m.
Proof. destruct m; simpl; lia. Qed.

Lemma Zdigits2_bounds (m : Z) :
  0 < m -> 2 ^ (Zdigits2 m - 1) <= m < 2 ^ Zdigits2 m.
Proof. destruct m as [|p|p]; try lia. intros _. apply digits_bounds. Qed.

Lemma Zdigits2_unique (m d : Z) :
  2 ^ (d - 1) <= m < 2 ^ d -> 0 < m -> Zdigits2 m = d.
Proof. destruct m as [|p|p]; try lia. intros H _. apply digits_unique, H. Qed.

Lemma Zdigits2_shift (m j : Z) :
  0 < m -> 0 <= j -> Zdigits2 (m * 2 ^ j) = Zdigits2 m + j.
Proof.
  intros Hm Hj. pose proof (Zdigits2_bounds m Hm) as [Hl Hu].
  pose proof (Zdigits2_pos m Hm) as Hd.
  assert (Hp : 0 < 2 ^ j) by (apply Z.pow_pos_nonneg; lia).
  apply Zdigits2_unique; [|nia].
  replace (Zdigits2 m + j - 1) with ((Zdigits2 m - 1) + j) by lia.
  rewrite !Z.pow_add_r by lia. nia.
Qed.

Lemma Zdigits2_le (m d : Z) : 0 <= d -> 0 <= m < 2 ^ d -> Zdigits2 m <= d.
Proof.
  intros Hd [Hm Hu]. destruct (Z.eq_dec m 0) as [->|Hne]; [simpl; lia|].
  pose proof (Zdigits2_bounds m ltac:(lia)) as [Hl _].
  destruct (Z.le_gt_cases (Zdigits2 m) d) as [H|H]; [exact H|].
  assert (2 ^ d <= 2 ^ (Zdigits2 m - 1)) by (apply Z.pow_le_mono_r; lia). lia.
Qed.

Lemma Zdigits2_div (m k : Z) :
  0 < m -> 0 <= k ->
  Zdigits2 (m / 2 ^ k) = Z.max 0 (Zdigits2 m - k).
Proof.
  intros Hm Hk. pose proof (Zdigits2_bounds m Hm) as [Hl Hu].
  pose proof (Zdigits2_pos m Hm) as Hd.
  assert (Hp : 0 < 2 ^ k) by (apply Z.pow_pos_nonneg; lia).
  destruct (Z.le_gt_cases (Zdigits2 m) k) as [H|H].
  - rewrite Z.div_small; [simpl; lia|]. split; [lia|].
    assert (2 ^ Zdigits2 m <= 2 ^ k) by (apply Z.pow_le_mono_r; lia). lia.
  - rewrite Z.max_r by lia.
    assert (E1 : 2 ^ (Zdigits2 m - 1) = 2 ^ (Zdigits2 m - k - 1) * 2 ^ k).
    { rewrite <- Z.pow_add_r by lia. f_equal. lia. }
    assert (E2 : 2 ^ (Zdigits2 m) = 2 ^ (Zdigits2 m - k) * 2 ^ k).
    { rewrite <- Z.pow_add_r by lia. f_equal. lia. }
    assert (Hq1 : 2 ^ (Zdigits2 m - k - 1) <= m / 2 ^ k).
    { apply Z.div_le_lower_bound; [lia|]. rewrite Z.mul_comm, <- E1. lia. }
    assert (Hq2 : m / 2 ^ k < 2 ^ (Zdigits2 m - k)).
    { apply Z.div_lt_upper_bound; [lia|]. rewrite Z.mul_comm, <- E2. lia. }
    assert (0 < 2 ^ (Zdigits2 m - k - 1)) by (apply Z.pow_pos_nonneg; lia).
    apply Zdigits2_unique; lia.
Qed.

Lemma Zdigits2_mono (a b : Z) : 0 <= a <= b -> Zdigits2 a <= Zdigits2 b.
Proof.
  intros [Ha Hab]. destruct (Z.eq_dec a 0) as [->|Hne].
  - apply Zdigits2_nonneg.
  - pose proof (Zdigits2_bounds b ltac:(lia)) as [_ Hu].
    apply Zdigits2_le; [apply Zdigits2_nonneg|lia].
Qed.

Lemma Zdigits2_succ (a : Z) : 0 <= a -> Zdigits2 (a + 1) <= Zdigits2 a + 1.
Proof.
  intros Ha. destruct (Z.eq_dec a 0) as [->|Hne]; [simpl; lia|].
  pose proof (Zdigits2_bounds a ltac:(lia)) as [_ Hu].
  pose proof (Zdigits2_nonneg a).
  apply Zdigits2_le; [lia|]. rewrite Z.pow_add_r by lia. lia.
Qed.

(** *** Right shifts *)

Lemma iter_pos_nat {A : Type} (f : A -> A) (p : positive) (x : A) :
  SpecFloat.iter_pos f p x = Nat.iter (Pos.to_nat p) f x.
Proof.
  revert x. induction p as [p IH|p IH|]; intros x; cbn [SpecFloat.iter_pos].
  - rewrite !IH, Pos2Nat.inj_xI. rewrite <- Nat.iter_add.
    replace (S (2 * Pos.to_nat p)) with (S (Pos.to_nat p + Pos.to_nat p)) by lia.
    rewrite Nat.iter_succ_r. reflexivity.
  - rewrite !IH, Pos2Nat.inj_xO. rewrite <- Nat.iter_add.
    f_equal. lia.
  - reflexivity.
Qed.

Lemma shr_1_m (mrs : shr_record) :
  0 <= shr_m mrs -> shr_m (shr_1 mrs) = shr_m mrs / 2.
Proof.
  destruct mrs as [m r s]. cbn [shr_m]. intros Hm.
  destruct m as [|[p|p|]|p]; try lia; cbn [shr_1 shr_m].
  - reflexivity.
  - rewrite Pos2Z.inj_xI. apply Z.div_unique with 1; lia.
  - rewrite Pos2Z.inj_xO. apply Z.div_unique with 0; lia.
  - reflexivity.
Qed.

Lemma shr_iter_m (n : nat) (mrs : shr_record) :
  0 <= shr_m mrs ->
  shr_m (Nat.iter n shr_1 mrs) = shr_m mrs / 2 ^ Z.of_nat n.
Proof.
  intros Hm. induction n as [|n IH].
  - simpl. rewrite Z.div_1_r. reflexivity.
  - rewrite Nat.iter_succ, shr_1_m.
    + rewrite IH, Nat2Z.inj_succ, Z.pow_succ_r by lia.
      rewrite Z.div_div by (try apply Z.pow_pos_nonneg; lia).
      f_equal. lia.
    + rewrite IH. apply Z.div_pos; [lia|apply Z.pow_pos_nonneg; lia].
Qed.

Lemma shr_1_even (b : Z) :
  0 <= b ->
  shr_1 (Build_shr_record (2 * b) false false) = Build_shr_record b false false.
Proof. destruct b as [|p|p]; try lia; reflexivity. Qed.

Lemma shr_iter_exact (n : nat) (a : Z) :
  0 <= a ->
  Nat.iter n shr_1 (Build_shr_record (a * 2 ^ Z.of_nat n) false false)
  = Build_shr_record a false false.
Proof.
  intros Ha. induction n as [|n IH].
  - simpl. f_equal. lia.
  - rewrite Nat.iter_succ_r, Nat2Z.inj_succ, Z.pow_succ_r by lia.
    replace (a * (2 * 2 ^ Z.of_nat n)) with (2 * (a * 2 ^ Z.of_nat n)) by lia.
    rewrite shr_1_even; [exact IH|].
    apply Z.mul_nonneg_nonneg; [lia|apply Z.pow_nonneg; lia].
Qed.


Lemma fexp_eq (x : Z) : F64.fexp x = Z.max (x - 53) (-1074).
Proof. reflexivity. Qed.


Lemma shr_m_record (m : Z) (l : location) : shr_m (shr_record_of_loc m l) = m.
Proof. destruct l as [|[]]; reflexivity. Qed.

Lemma shr_m_spec (mrs : shr_record) (e k : Z) :
  0 <= shr_m mrs ->
  shr_m (fst (shr mrs e k)) = (if 0 <? k then shr_m mrs / 2 ^ k else shr_m mrs)
  /\ snd (shr mrs e k) = (if 0 <? k then e + k else e).
Proof.
  intros Hm. destruct k as [|p|p]; cbn [shr fst snd]; try (split; reflexivity).
  replace (0 <? Zpos p) with true by (symmetry; apply Z.ltb_lt; lia).
  split; [|reflexivity].
  rewrite iter_pos_nat, shr_iter_m, positive_nat_Z by exact Hm. reflexivity.
Qed.

Lemma shr_fexp_m (m e : Z) (l : location) :
  0 <= m ->
  shr_m (fst (shr_fexp F64.prec F64.emax m e l))
  = (if 0 <? F64.shift_of m e then m / 2 ^ F64.shift_of m e else m).
Proof.
  intros Hm. unfold shr_fexp.
  pose proof (shr_m_spec (shr_record_of_loc m l) e (F64.shift_of m e)) as [H _].
  - rewrite shr_m_record. exact Hm.
  - rewrite shr_m_record in H. exact H.
Qed.

Lemma shr_fexp_e (m e : Z) (l : location) :
  0 <= m ->
  snd (shr_fexp F64.prec F64.emax m e l)
  = (if 0 <? F64.shift_of m e then e + F64.shift_of m e else e).
Proof.
  intros Hm. unfold shr_fexp.
  pose proof (shr_m_spec (shr_record_of_loc m l) e (F64.shift_of m e)) as [_ H].
  - rewrite shr_m_record. exact Hm.
  - exact H.
Qed.

(** Shifting out zeros only leaves an exact record. *)
Lemma shr_fexp_exact (m e a : Z) :
  0 <= a ->
  (0 < F64.shift_of m e -> m = a * 2 ^ F64.shift_of m e) ->
  (F64.shift_of m e <= 0 -> m = a) ->
  fst (shr_fexp F64.prec F64.emax m e loc_Exact) = Build_shr_record a false false.
Proof.
  intros Ha Hpos Hneg. unfold shr_fexp. fold (F64.fexp (Zdigits2 m + e)).
  fold (F64.shift_of m e).
  destruct (F64.shift_of m e) as [|p|p] eqn:Ek; cbn [shr fst shr_record_of_loc].
  - rewrite Hneg by lia. reflexivity.
  - rewrite iter_pos_nat, Hpos by lia.
    rewrite <- (positive_nat_Z p). apply shr_iter_exact, Ha.
  - rewrite Hneg by lia. reflexivity.
Qed.

Lemma round_nearest_even_bounds (m : Z) (l : location) :
  m <= round_nearest_even m l <= m + 1.
Proof.
  destruct l as [|[]]; cbn [round_nearest_even]; try lia.
  destruct (Z.even m); lia.
Qed.

Lemma loc_exact_record (m : Z) :
  loc_of_shr_record (Build_shr_record m false false) = loc_Exact.
Proof. reflexivity. Qed.

(** [binary_round_aux], stage by stage. *)
Lemma binary_round_aux_unfold (s : bool) (m e : Z) (l : location) :
  binary_round_aux F64.prec F64.emax s m e l
  = let r1 := shr_fexp F64.prec F64.emax m e l in
    let m1 := round_nearest_even (shr_m (fst r1)) (loc_of_shr_record (fst r1)) in
    let r2 := shr_fexp F64.prec F64.emax m1 (snd r1) loc_Exact in
    match shr_m (fst r2) with
    | Z0 => S754_zero s
    | Zpos p => if snd r2 <=? 971 then S754_finite s p (snd r2) else S754_infinity s
    | Zneg _ => S754_nan
    end.
Proof.
  unfold binary_round_aux.
  destruct (shr_fexp F64.prec F64.emax m e l) as [mrs1 e1]. cbn [fst snd].
  destruct (shr_fexp _ _ _ e1 loc_Exact) as [mrs2 e2]. reflexivity.
Qed.


Lemma div_pow2_nonneg (m k : Z) : 0 <= m -> 0 <= m / 2 ^ k.
Proof.
  intros Hm. destruct (Z.le_gt_cases 0 k).
  - apply Z.div_pos; [lia|apply Z.pow_pos_nonneg; lia].
  - rewrite Z.pow_neg_r by lia. rewrite Z.div_0_r. lia.
Qed.

Lemma binary_round_aux_shaped (s : bool) (m e : Z) (l : location) :
  0 <= m -> F64.shaped s (binary_round_aux F64.prec F64.emax s m e l).
Proof.
  intros Hm. rewrite binary_round_aux_unfold. cbv zeta.
  set (r1 := shr_fexp F64.prec F64.emax m e l).
  set (m1 := round_nearest_even (shr_m (fst r1)) (loc_of_shr_record (fst r1))).
  assert (H1 : 0 <= shr_m (fst r1)).
  { unfold r1. rewrite shr_fexp_m by exact Hm.
    destruct (0 <? F64.shift_of m e); [apply div_pow2_nonneg|]; exact Hm. }
  assert (Hm1 : 0 <= m1).
  { pose proof (round_nearest_even_bounds (shr_m (fst r1)) (loc_of_shr_record (fst r1))).
    unfold m1. lia. }
  rewrite shr_fexp_m, shr_fexp_e by exact Hm1.
  set (k2 := F64.shift_of m1 (snd r1)).
  destruct (Z.ltb_spec 0 k2) as [Hk|Hk].
  - destruct (m1 / 2 ^ k2) as [|p|p] eqn:Ep; cbn [F64.shaped].
    + reflexivity.
    + destruct (snd r1 + k2 <=? 971) eqn:El; cbn [F64.shaped]; [|reflexivity].
      split; [reflexivity|]. split; [|apply Z.leb_le, El].
      assert (Hpos : 0 < m1).
      { destruct (Z.eq_dec m1 0) as [E0|]; [|lia]. rewrite E0 in Ep. discriminate. }
      change (Zpos (digits2_pos p)) with (Zdigits2 (Zpos p)). rewrite <- Ep.
      rewrite Zdigits2_div by lia.
      unfold k2, F64.shift_of in *. rewrite fexp_eq in *. lia.
    + pose proof (div_pow2_nonneg m1 k2 Hm1). lia.
  - destruct m1 as [|p|p] eqn:Ep; cbn [F64.shaped]; try lia.
    + reflexivity.
    + destruct (snd r1 <=? 971) eqn:El; cbn [F64.shaped]; [|reflexivity].
      split; [reflexivity|]. split; [|apply Z.leb_le, El].
      unfold k2, F64.shift_of in Hk. rewrite fexp_eq in Hk.
      change (Zdigits2 (Zpos p)) with (Zpos (digits2_pos p)) in Hk. lia.
Qed.

Lemma Zdigits2_div_le (m k : Z) :
  0 <= m -> 0 <= k -> Zdigits2 (m / 2 ^ k) = Z.max 0 (Zdigits2 m - k).
Proof.
  intros Hm Hk. destruct (Z.eq_dec m 0) as [->|Hne].
  - rewrite Z.div_0_l by (apply Z.pow_nonzero; lia). simpl. lia.
  - apply Zdigits2_div; lia.
Qed.

(** No overflow while the magnitude stays below [2 ^ 1023]. *)
Lemma binary_round_aux_small (s : bool) (m e : Z) (l : location) :
  0 <= m -> e <= 971 -> Zdigits2 m + e <= 1023 ->
  F64.is_finite (binary_round_aux F64.prec F64.emax s m e l) = true.
Proof.
  intros Hm He Hd. rewrite binary_round_aux_unfold. cbv zeta.
  set (r1 := shr_fexp F64.prec F64.emax m e l).
  set (m1 := round_nearest_even (shr_m (fst r1)) (loc_of_shr_record (fst r1))).
  assert (H1 : 0 <= shr_m (fst r1)
               /\ snd r1 <= 971
               /\ Zdigits2 (shr_m (fst r1)) + snd r1 <= 1023).
  { unfold r1. rewrite shr_fexp_m, shr_fexp_e by exact Hm.
    destruct (Z.ltb_spec 0 (F64.shift_of m e)) as [Hk|Hk].
    - split; [apply div_pow2_nonneg, Hm|].
      rewrite Zdigits2_div_le by lia.
      unfold F64.shift_of in *. rewrite fexp_eq in *. lia.
    - auto. }
  destruct H1 as (H1 & He1 & Hd1).
  assert (Hm1 : 0 <= m1 /\ Zdigits2 m1 + snd r1 <= 1024).
  { pose proof (round_nearest_even_bounds (shr_m (fst r1)) (loc_of_shr_record (fst r1))) as Hb.
    fold m1 in Hb. split; [lia|].
    pose proof (Zdigits2_mono m1 (shr_m (fst r1) + 1) ltac:(lia)).
    pose proof (Zdigits2_succ (shr_m (fst r1)) H1). lia. }
  destruct Hm1 as (Hm1 & Hd1').
  rewrite shr_fexp_m, shr_fexp_e by exact Hm1.
  set (k2 := F64.shift_of m1 (snd r1)).
  assert (He2 : (if 0 <? k2 then snd r1 + k2 else snd r1) <= 971).
  { destruct (Z.ltb_spec 0 k2); [|exact He1].
    unfold k2, F64.shift_of in *. rewrite fexp_eq in *. lia. }
  apply Z.leb_le in He2.
  destruct (if 0 <? k2 then m1 / 2 ^ k2 else m1) as [|p|p] eqn:Ep.
  - reflexivity.
  - rewrite He2. reflexivity.
  - exfalso. destruct (0 <? k2); [pose proof (div_pow2_nonneg m1 k2 Hm1)|]; lia.
Qed.

(** A number with at most 53 significant bits and magnitude below
    [2 ^ 1024] is rounded to itself. *)
Lemma binary_round_aux_exact (s : bool) (a j e : Z) :
  0 < a -> Zdigits2 a <= 53 -> 0 <= j -> -1074 <= e <= 971 ->
  Zdigits2 a + j + e <= 1024 ->
  exists m' e',
    binary_round_aux F64.prec F64.emax s (a * 2 ^ j) e loc_Exact
    = S754_finite s m' e'
    /\ e' = Z.max e (Zdigits2 a + j + e - 53)
    /\ a * 2 ^ j = Zpos m' * 2 ^ (e' - e).
Proof.
  intros Ha Hda Hj He Hd. rewrite binary_round_aux_unfold. cbv zeta.
  set (m := a * 2 ^ j).
  assert (Hm : 0 < m) by (apply Z.mul_pos_pos; [lia|apply Z.pow_pos_nonneg; lia]).
  assert (HD : Zdigits2 m = Zdigits2 a + j) by (apply Zdigits2_shift; lia).
  destruct (Z.ltb_spec 0 (F64.shift_of m e)) as [Hk|Hk].
  - (* the low bits that are shifted out are zeros *)
    assert (Ek : F64.shift_of m e = Zdigits2 a + j - 53).
    { unfold F64.shift_of in Hk |- *. rewrite fexp_eq, HD in Hk |- *. lia. }
    set (a' := a * 2 ^ (j - F64.shift_of m e)).
    assert (Ha' : 0 < a')
      by (apply Z.mul_pos_pos; [lia|apply Z.pow_pos_nonneg; lia]).
    assert (Em : m = a' * 2 ^ F64.shift_of m e).
    { unfold a'. unfold m at 1. rewrite <- Z.mul_assoc, <- Z.pow_add_r by lia.
      do 2 f_equal. lia. }
    rewrite (shr_fexp_exact m e a') by lia.
    rewrite shr_fexp_e by lia.
    replace (0 <? F64.shift_of m e) with true by (symmetry; apply Z.ltb_lt; lia).
    cbn [fst snd shr_m]. rewrite loc_exact_record. cbn [round_nearest_even].
    assert (Hda' : Zdigits2 a' = 53).
    { unfold a'. rewrite Zdigits2_shift by lia. lia. }
    assert (Ek2 : F64.shift_of a' (e + F64.shift_of m e) = 0).
    { unfold F64.shift_of at 1. rewrite fexp_eq, Hda'. lia. }
    rewrite (shr_fexp_exact a' _ a') by lia.
    rewrite shr_fexp_e, Ek2 by lia. cbn [fst snd shr_m].
    change (0 <? 0) with false. cbv iota.
    destruct a' as [|p|p] eqn:Ep; try lia.
    replace (e + F64.shift_of m e <=? 971) with true by (symmetry; apply Z.leb_le; lia).
    exists p, (e + F64.shift_of m e). split; [reflexivity|]. split; [lia|].
    replace (e + F64.shift_of m e - e) with (F64.shift_of m e) by lia. exact Em.
  - rewrite (shr_fexp_exact m e m) by lia.
    rewrite shr_fexp_e by lia.
    replace (0 <? F64.shift_of m e) with false by (symmetry; apply Z.ltb_ge; lia).
    cbn [fst snd shr_m]. rewrite loc_exact_record. cbn [round_nearest_even].
    rewrite (shr_fexp_exact m e m) by lia.
    rewrite shr_fexp_e by lia.
    replace (0 <? F64.shift_of m e) with false by (symmetry; apply Z.ltb_ge; lia).
    cbn [fst snd shr_m].
    destruct m as [|p|p] eqn:Ep; try lia.
    replace (e <=? 971) with true by (symmetry; apply Z.leb_le; lia).
    exists p, e. split; [reflexivity|]. split.
    + unfold F64.shift_of in Hk. rewrite fexp_eq, HD in Hk. lia.
    + rewrite Z.sub_diag. simpl. lia.
Qed.


Lemma shaped_bounded (s : bool) (x : float) : F64.shaped s x -> F64.bounded x = true.
Proof.
  destruct x as [| | |s' m e]; cbn [F64.shaped F64.bounded]; try reflexivity.
  intros (_ & Hd & He). apply andb_true_intro. split; apply Z.leb_le; lia.
Qed.

(** Every valid binary64 float is within the bounds. *)
Lemma valid_bounded (x : float) : F64.valid x = true -> F64.bounded x = true.
Proof.
  destruct x as [| | |s m e]; try reflexivity.
  unfold F64.valid, valid_binary, SpecFloat.bounded, canonical_mantissa.
  cbn [F64.bounded]. fold (F64.fexp (Zpos (digits2_pos m) + e)).
  rewrite fexp_eq. intros [Hc He]%andb_prop.
  apply Z.eqb_eq in Hc. apply Z.leb_le in He.
  apply andb_true_intro. split; apply Z.leb_le.
  - lia.
  - exact He.
Qed.

Lemma pos_iter_xO (p d : positive) :
  Zpos (Pos.iter xO p d) = Zpos p * 2 ^ Zpos d.
Proof.
  induction d as [|d IH] using Pos.peano_ind.
  - cbn [Pos.iter]. lia.
  - rewrite Pos.iter_succ, Pos2Z.inj_xO, IH, Pos2Z.inj_succ, Z.pow_succ_r by lia.
    lia.
Qed.

Lemma shl_align_spec (p : positive) (t : Z) :
  let r := shl_align p 0 t in
  (t < 0 -> Zpos (fst r) = Zpos p * 2 ^ (- t) /\ snd r = t)
  /\ (0 <= t -> r = (p, 0)).
Proof.
  unfold shl_align. destruct t as [|q|q]; cbn [Z.sub Z.opp Z.add fst snd].
  - split; [lia|reflexivity].
  - split; [lia|reflexivity].
  - split; [|lia]. intros _. split; [apply pos_iter_xO|reflexivity].
Qed.

Lemma binary_round_shaped (s : bool) (p : positive) (e : Z) :
  F64.shaped s (binary_round F64.prec F64.emax s p e).
Proof.
  unfold binary_round. destruct (shl_align p e _) as [mz ez].
  apply binary_round_aux_shaped. lia.
Qed.

Lemma binary_round_exact (s : bool) (p : positive) (a j : Z) :
  Zpos p = a * 2 ^ j -> 0 < a -> Zdigits2 a <= 53 -> 0 <= j ->
  Zdigits2 a + j <= 1024 ->
  exists m e, binary_round F64.prec F64.emax s p 0 = S754_finite s m e.
Proof.
  intros Ep Ha Hda Hj Hd. unfold binary_round.
  assert (HD : Zpos (digits2_pos p) = Zdigits2 a + j).
  { change (Zpos (digits2_pos p)) with (Zdigits2 (Zpos p)). rewrite Ep.
    apply Zdigits2_shift; lia. }
  fold (F64.fexp (Zpos (digits2_pos p) + 0)).
  pose proof (shl_align_spec p (F64.fexp (Zpos (digits2_pos p) + 0))) as [Hneg Hpos].
  destruct (shl_align p 0 _) as [mz ez]. cbn [fst snd] in *.
  rewrite fexp_eq, HD in *.
  destruct (Z.lt_ge_cases (Z.max (Zdigits2 a + j + 0 - 53) (-1074)) 0) as [Ht|Ht].
  - destruct (Hneg Ht) as [Emz Eez]. rewrite Emz, Ep, <- Z.mul_assoc, <- Z.pow_add_r by lia.
    destruct (binary_round_aux_exact s a
                (j + - Z.max (Zdigits2 a + j + 0 - 53) (-1074)) ez)
      as (m' & e' & E & _); try lia.
    exists m', e'. exact E.
  - injection (Hpos Ht) as -> ->. rewrite Ep.
    destruct (binary_round_aux_exact s a j 0) as (m' & e' & E & _); try lia.
    exists m', e'. exact E.
Qed.


Lemma of_Z_representable (n : Z) :
  F64.representable n ->
  (n = 0 /\ F64.of_Z n = S754_zero false)
  \/ (n <> 0 /\ exists m e, F64.of_Z n = S754_finite (n <? 0) m e).
Proof.
  intros [->|(a & j & E & Ha & Hda & Hj & Hd)]; [left; auto|].
  right. assert (Hn : n <> 0).
  { intros ->. assert (0 < a * 2 ^ j)
      by (apply Z.mul_pos_pos; [lia|apply Z.pow_pos_nonneg; lia]). simpl in E. lia. }
  split; [exact Hn|]. unfold F64.of_Z, binary_normalize.
  destruct n as [|p|p]; try lia; cbn [Z.abs] in E.
  - exact (binary_round_exact false p a j E Ha Hda Hj Hd).
  - exact (binary_round_exact true p a j E Ha Hda Hj Hd).
Qed.

Lemma float_of_int_representable (n : Z) :
  F64.representable n ->
  exists y, Py.float_of_int n = Ok y /\ F64.bounded y = true
            /\ F64.is_finite y = true /\ (n <> 0 -> F64.is_zero y = false).
Proof.
  intros H. unfold Py.float_of_int.
  pose proof (binary_round_shaped) as Hs.
  destruct (of_Z_representable n H) as [[-> E]|[Hn (m & e & E)]]; rewrite E.
  - exists (S754_zero false). repeat split; auto. congruence.
  - exists (S754_finite (n <? 0) m e). repeat split; auto.
    assert (Hsh : F64.shaped (n <? 0) (F64.of_Z n)).
    { unfold F64.of_Z, binary_normalize. destruct n; try lia; apply binary_round_shaped. }
    rewrite E in Hsh. exact (shaped_bounded _ _ Hsh).
Qed.

Lemma int_of_float_representable (x : float) (n : Z) :
  F64.bounded x = true -> Py.int_of_float x = Ok n -> F64.representable n.
Proof.
  destruct x as [s|s| |s m e]; cbn [Py.int_of_float F64.bounded]; try discriminate.
  - intros _ [= <-]. left. reflexivity.
  - intros [Hd He]%andb_prop [= <-].
    apply Z.leb_le in Hd, He.
    destruct (Z.le_gt_cases 0 e) as [Hpos|Hneg].
    + right. exists (Zpos m), e. rewrite Z.shiftl_mul_pow2 by lia.
      assert (0 < Zpos m * 2 ^ e)
        by (apply Z.mul_pos_pos; [lia|apply Z.pow_pos_nonneg; lia]).
      cbn [Zdigits2]. repeat split; try lia. destruct s; cbn [cond_Zopp]; lia.
    + rewrite Z.shiftl_div_pow2 by lia.
      assert (Hq : 0 <= Zpos m / 2 ^ (- e)) by (apply div_pow2_nonneg; lia).
      destruct (Z.eq_dec (Zpos m / 2 ^ (- e)) 0) as [E0|Hne].
      * left. rewrite E0. destruct s; reflexivity.
      * right. exists (Zpos m / 2 ^ (- e)), 0.
        pose proof (Zdigits2_div (Zpos m) (- e) ltac:(lia) ltac:(lia)) as HD.
        change (Zdigits2 (Zpos m)) with (Zpos (digits2_pos m)) in HD.
        repeat split; try lia. destruct s; cbn [cond_Zopp]; lia.
Qed.


Lemma ratio_exp_range (n d : positive) : -1074 <= F64.ratio_exp n d <= 0.
Proof. unfold F64.ratio_exp. rewrite fexp_eq. lia. Qed.

Lemma of_ratio_unfold (s : bool) (n d : positive) :
  F64.of_ratio s n d
  = binary_round_aux F64.prec F64.emax s
      (Zpos n * 2 ^ (- F64.ratio_exp n d) / Zpos d) (F64.ratio_exp n d)
      (new_location (Zpos d) ((Zpos n * 2 ^ (- F64.ratio_exp n d)) mod Zpos d)).
Proof.
  pose proof (ratio_exp_range n d) as Hr.
  unfold F64.of_ratio, SFdiv_core_binary.
  rewrite !Z.add_0_r. change (0 - 0) with 0.
  fold (F64.fexp (Zdigits2 (Zpos n) - Zdigits2 (Zpos d))). fold (F64.ratio_exp n d).
  replace (0 - F64.ratio_exp n d) with (- F64.ratio_exp n d) by lia.
  assert (Em : match - F64.ratio_exp n d with
               | 0 => Zpos n
               | Zpos _ => Z.shiftl (Zpos n) (- F64.ratio_exp n d)
               | Zneg _ => 0
               end = Zpos n * 2 ^ (- F64.ratio_exp n d)).
  { destruct (- F64.ratio_exp n d) as [|p|p] eqn:E; try lia.
    rewrite Z.shiftl_mul_pow2 by lia. reflexivity. }
  rewrite Em. unfold Z.div, Z.modulo.
  destruct (Z.div_eucl _ _) as [q r]. reflexivity.
Qed.

Lemma of_ratio_shaped (s : bool) (n d : positive) :
  F64.shaped s (F64.of_ratio s n d).
Proof.
  rewrite of_ratio_unfold. apply binary_round_aux_shaped.
  apply Z.div_pos; [|lia].
  apply Z.mul_nonneg_nonneg; [lia|apply Z.pow_nonneg; lia].
Qed.

Lemma new_location_zero (d : Z) : new_location d 0 = loc_Exact.
Proof.
  unfold new_location, new_location_even, new_location_odd.
  destruct (Z.even d); reflexivity.
Qed.

(** The quotient has about as many digits as the dividend has more than
    the divisor. *)
Lemma quotient_digits (m d : Z) :
  0 <= m -> 0 < d ->
  Zdigits2 (m / d) <= Z.max 0 (Zdigits2 m - Zdigits2 d + 1).
Proof.
  intros Hm Hd.
  destruct (Z.eq_dec m 0) as [->|Hne]; [rewrite Z.div_0_l by lia; simpl; lia|].
  pose proof (Zdigits2_bounds m ltac:(lia)) as [_ Hu].
  pose proof (Zdigits2_bounds d Hd) as [Hl _].
  pose proof (Zdigits2_pos d Hd) as Hdd.
  pose proof (Zdigits2_pos m ltac:(lia)) as Hdm.
  assert (Hq : 0 <= m / d) by (apply Z.div_pos; lia).
  destruct (Z.le_gt_cases 0 (Zdigits2 m - Zdigits2 d + 1)) as [Hx|Hx].
  - rewrite Z.max_r by lia. apply Zdigits2_le; [lia|]. split; [lia|].
    apply Z.div_lt_upper_bound; [lia|].
    assert (2 ^ Zdigits2 m = 2 ^ (Zdigits2 d - 1) * 2 ^ (Zdigits2 m - Zdigits2 d + 1)).
    { rewrite <- Z.pow_add_r by lia. f_equal. lia. }
    assert (0 < 2 ^ (Zdigits2 m - Zdigits2 d + 1)) by (apply Z.pow_pos_nonneg; lia).
    nia.
  - rewrite Z.max_l by lia. rewrite Z.div_small; [simpl; lia|].
    split; [lia|].
    assert (2 ^ Zdigits2 m <= 2 ^ (Zdigits2 d - 1)) by (apply Z.pow_le_mono_r; lia).
    lia.
Qed.

(** The quotient does not overflow when the dividend has at most 1022
    digits more than the divisor. *)
Lemma of_ratio_small (s : bool) (n d : positive) :
  Zdigits2 (Zpos n) - Zdigits2 (Zpos d) <= 1022 ->
  F64.is_finite (F64.of_ratio s n d) = true.
Proof.
  intros H. rewrite of_ratio_unfold.
  pose proof (ratio_exp_range n d) as Hr.
  assert (Hm : 0 <= Zpos n * 2 ^ (- F64.ratio_exp n d))
    by (apply Z.mul_nonneg_nonneg; [lia|apply Z.pow_nonneg; lia]).
  apply binary_round_aux_small.
  - apply Z.div_pos; lia.
  - lia.
  - pose proof (quotient_digits _ (Zpos d) Hm ltac:(lia)) as Hq.
    rewrite Zdigits2_shift in Hq by lia. lia.
Qed.

(** A quotient that is exact and fits a float is returned as it is. *)
Lemma of_ratio_exact (s : bool) (n d : positive) (a j : Z) :
  Zpos n = a * 2 ^ j * Zpos d -> 0 < a -> Zdigits2 a <= 53 -> 0 <= j ->
  Zdigits2 a + j <= 1024 ->
  exists m e, F64.of_ratio s n d = S754_finite s m e.
Proof.
  intros E Ha Hda Hj Hd. rewrite of_ratio_unfold.
  pose proof (ratio_exp_range n d) as Hr.
  assert (Em : Zpos n * 2 ^ (- F64.ratio_exp n d)
               = a * 2 ^ (j + - F64.ratio_exp n d) * Zpos d).
  { rewrite E, Z.pow_add_r by lia. ring. }
  rewrite Em, Z.div_mul, Z.mod_mul, new_location_zero by lia.
  destruct (binary_round_aux_exact s a (j + - F64.ratio_exp n d) (F64.ratio_exp n d))
    as (m' & e' & R & _); try lia.
  exists m', e'. exact R.
Qed.

(** ** The IEEE operations keep the bound *)

Lemma mul_bounded (x y : float) : F64.bounded (F64.mul x y) = true.
Proof.
  destruct x as [sx|sx| |sx mx ex], y as [sy|sy| |sy my ey]; try reflexivity.
  apply (shaped_bounded (xorb sx sy)).
  apply binary_round_aux_shaped. lia.
Qed.

Lemma div_core_nonneg (mx my : positive) (ex ey q e : Z) (l : location) :
  SFdiv_core_binary F64.prec F64.emax (Zpos mx) ex (Zpos my) ey = (q, e, l) ->
  0 <= q.
Proof.
  unfold SFdiv_core_binary.
  match goal with
  | |- context [Z.div_eucl ?a ?b] =>
      assert (Ha : 0 <= a);
      [|pose proof (Z_div_mod a b eq_refl) as H;
        destruct (Z.div_eucl a b) as [q' r']]
  end.
  - destruct (ex - ey - _) as [|p|p]; try lia. apply Z.shiftl_nonneg. lia.
  - intros [= <- _ _]. nia.
Qed.

Lemma div_bounded (x y : float) : F64.bounded (F64.div x y) = true.
Proof.
  destruct x as [sx|sx| |sx mx ex], y as [sy|sy| |sy my ey]; try reflexivity.
  unfold F64.div, SFdiv.
  destruct (SFdiv_core_binary _ _ _ _ _ _) as [[q e] l] eqn:E.
  apply (shaped_bounded (xorb sx sy)), binary_round_aux_shaped.
  exact (div_core_nonneg _ _ _ _ _ _ _ E).
Qed.

Lemma binary_normalize_bounded (m e : Z) (sz : bool) :
  F64.bounded (binary_normalize F64.prec F64.emax m e sz) = true.
Proof.
  destruct m as [|p|p]; cbn [binary_normalize]; [reflexivity| |].
  - exact (shaped_bounded _ _ (binary_round_shaped false p e)).
  - exact (shaped_bounded _ _ (binary_round_shaped true p e)).
Qed.

Lemma sub_bounded (x y : float) :
  F64.bounded x = true -> F64.bounded y = true -> F64.bounded (F64.sub x y) = true.
Proof.
  intros Hx Hy.
  destruct x as [sx|sx| |sx mx ex], y as [sy|sy| |sy my ey];
    cbn [F64.sub SFsub]; try reflexivity; try assumption.
  - destruct sx, sy; reflexivity.
  - destruct sx, sy; reflexivity.
  - apply binary_normalize_bounded.
Qed.

Create HintDb bounds.
#[local] Hint Resolve mul_bounded div_bounded sub_bounded
  binary_normalize_bounded : bounds.

(** ** The value of a rounded quotient *)

(** The rounding of a number of at least 53 digits in the normal range:
    the mantissa is the quotient by [2 ^ k], or one more. *)
Lemma binary_round_aux_normal (s : bool) (m e : Z) (l : location) :
  0 < m -> 53 <= Zdigits2 m -> -1074 <= Zdigits2 m + e - 53 ->
  Zdigits2 m + e <= 1023 ->
  let k := Zdigits2 m - 53 in
  exists M Mf Ef,
    m / 2 ^ k <= M <= m / 2 ^ k + 1
    /\ binary_round_aux F64.prec F64.emax s m e l = S754_finite s Mf Ef
    /\ e + k <= Ef <= e + k + 1
    /\ M = Zpos Mf * 2 ^ (Ef - (e + k)).
Proof.
  intros Hm HD Hlo Hhi k. rewrite binary_round_aux_unfold. cbv zeta.
  assert (Ek : F64.shift_of m e = k).
  { unfold F64.shift_of. rewrite fexp_eq. unfold k. lia. }
  set (r1 := shr_fexp F64.prec F64.emax m e l).
  set (M := round_nearest_even (shr_m (fst r1)) (loc_of_shr_record (fst r1))).
  assert (Hk : 0 <= k) by (unfold k; lia).
  assert (H1 : shr_m (fst r1) = m / 2 ^ k).
  { unfold r1. rewrite shr_fexp_m, Ek by lia.
    destruct (Z.ltb_spec 0 k); [reflexivity|].
    replace k with 0 by lia. rewrite Z.div_1_r. reflexivity. }
  assert (He1 : snd r1 = e + k).
  { unfold r1. rewrite shr_fexp_e, Ek by lia.
    destruct (Z.ltb_spec 0 k); lia. }
  assert (HD1 : Zdigits2 (m / 2 ^ k) = 53).
  { rewrite Zdigits2_div by lia. unfold k. lia. }
  pose proof (Zdigits2_bounds (m / 2 ^ k)) as Hb1.
  assert (Hm1 : 0 < m / 2 ^ k).
  { destruct (Z.eq_dec (m / 2 ^ k) 0) as [E0|Hne].
    - rewrite E0 in HD1. discriminate.
    - pose proof (div_pow2_nonneg m k ltac:(lia)). lia. }
  specialize (Hb1 Hm1). rewrite HD1 in Hb1.
  pose proof (round_nearest_even_bounds (shr_m (fst r1)) (loc_of_shr_record (fst r1))) as HM.
  fold M in HM. rewrite H1 in HM.
  exists M. rewrite He1.
  (* either [M] still has 53 digits, or it is [2 ^ 53] *)
  destruct (Z.eq_dec M (2 ^ 53)) as [E53|N53].
  - assert (HDM : Zdigits2 M = 54) by (rewrite E53; reflexivity).
    assert (Ek2 : F64.shift_of M (e + k) = 1).
    { unfold F64.shift_of. rewrite fexp_eq, HDM. unfold k. lia. }
    rewrite (shr_fexp_exact M (e + k) (2 ^ 52)); try lia.
    + rewrite shr_fexp_e, Ek2 by lia. cbn [fst snd shr_m].
      change (0 <? 1) with true. cbv iota.
      change (2 ^ 52) with (Zpos (2 ^ 52)%positive).
      replace (e + k + 1 <=? 971) with true
        by (symmetry; apply Z.leb_le; unfold k; lia).
      exists (2 ^ 52)%positive, (e + k + 1).
      split; [exact HM|]. split; [reflexivity|]. split; [lia|].
      replace (e + k + 1 - (e + k)) with 1 by lia. rewrite E53. reflexivity.
    + intros _. rewrite Ek2, E53. reflexivity.
  - assert (HDM : Zdigits2 M = 53).
    { apply Zdigits2_unique; [|lia]. change (2 ^ (53 - 1)) with (2 ^ 52).
      change (2 ^ 53) with (2 * 2 ^ 52) in *. lia. }
    assert (Ek2 : F64.shift_of M (e + k) = 0).
    { unfold F64.shift_of. rewrite fexp_eq, HDM. unfold k. lia. }
    rewrite (shr_fexp_exact M (e + k) M); try lia.
    rewrite shr_fexp_e, Ek2 by lia. cbn [fst snd shr_m].
    change (0 <? 0) with false. cbv iota.
    destruct M as [|p|p] eqn:EM; try lia.
    replace (e + k <=? 971) with true
      by (symmetry; apply Z.leb_le; unfold k; lia).
    exists p, (e + k).
    split; [exact HM|]. split; [reflexivity|]. split; [lia|].
    rewrite Z.sub_diag. change (2 ^ 0) with 1. lia.
Qed.


Lemma ceil_div_exact (t d : Z) : 0 < d -> Spec.ceil_div (t * d) d = t.
Proof.
  intros Hd. unfold Spec.ceil_div.
  replace (- (t * d)) with ((- t) * d) by lia. rewrite Z.div_mul by lia. lia.
Qed.

Lemma ceil_div_between (t x d : Z) :
  0 < d -> t * d < x < (t + 1) * d -> Spec.ceil_div x d = t + 1.
Proof.
  intros Hd [Hl Hu]. unfold Spec.ceil_div.
  assert (E : - x / d = - (t + 1)).
  { symmetry. apply Z.div_unique with ((t + 1) * d - x); lia. }
  rewrite E. lia.
Qed.

Lemma ceil_div_scale (a b c : Z) :
  0 < b -> 0 < c -> Spec.ceil_div (a * c) (b * c) = Spec.ceil_div a b.
Proof.
  intros Hb Hc. unfold Spec.ceil_div.
  replace (- (a * c)) with ((- a) * c) by lia.
  rewrite Z.div_mul_cancel_r by lia. reflexivity.
Qed.

(** [math.ceil] of a positive float, from its mantissa and exponent. *)
Lemma ceil_finite_pos (m : positive) (e : Z) :
  e <= 0 ->
  Py.ceil (S754_finite false m e) = Ok (Spec.ceil_div (Zpos m) (2 ^ (- e))).
Proof.
  intros He. cbn [Py.ceil negb cond_Zopp]. rewrite Z.shiftl_div_pow2 by lia.
  reflexivity.
Qed.

(** An exact quotient that fits a float, with its value. *)
Lemma of_ratio_exact_value (s : bool) (n d : positive) (a j : Z) :
  Zpos n = a * 2 ^ j * Zpos d -> 0 < a -> Zdigits2 a <= 53 -> 0 <= j ->
  Zdigits2 a + j <= 1024 ->
  exists m e,
    F64.of_ratio s n d = S754_finite s m e
    /\ e = Z.max (F64.ratio_exp n d) (Zdigits2 a + j - 53)
    /\ a * 2 ^ (j - F64.ratio_exp n d) = Zpos m * 2 ^ (e - F64.ratio_exp n d).
Proof.
  intros E Ha Hda Hj Hd. rewrite of_ratio_unfold.
  pose proof (ratio_exp_range n d) as Hr.
  assert (Em : Zpos n * 2 ^ (- F64.ratio_exp n d)
               = a * 2 ^ (j + - F64.ratio_exp n d) * Zpos d).
  { rewrite E, Z.pow_add_r by lia. ring. }
  rewrite Em, Z.div_mul, Z.mod_mul, new_location_zero by lia.
  destruct (binary_round_aux_exact s a (j + - F64.ratio_exp n d) (F64.ratio_exp n d))
    as (m' & e' & R & Ee & Ev); try lia.
  exists m', e'. split; [exact R|]. split; [lia|].
  replace (j - F64.ratio_exp n d) with (j + - F64.ratio_exp n d) by lia. exact Ev.
Qed.

(** The correctly rounded quotient of a count below [2 ^ 52] by a
    capacity has the ceiling of the exact quotient. *)
Lemma ceil_of_ratio (n d : positive) :
  Zdigits2 (Zpos n) <= 52 -> 2 <= Zpos d -> Zdigits2 (Zpos d) <= 1000 ->
  F64.is_finite (F64.of_ratio false n d) = true
  /\ Py.ceil (F64.of_ratio false n d) = Ok (Spec.ceil_div (Zpos n) (Zpos d)).
Proof.
  intros Hn Hd2 Hdd.
  set (Dn := Zdigits2 (Zpos n)) in *. set (Dd := Zdigits2 (Zpos d)) in *.
  assert (HDn : 0 < Dn) by (unfold Dn; simpl; lia).
  assert (HDd : 2 <= Dd).
  { unfold Dd. destruct d; cbn [Zdigits2 digits2_pos]; lia. }
  pose proof (Zdigits2_bounds (Zpos n) ltac:(lia)) as [Hnl Hnu]. fold Dn in Hnl, Hnu.
  pose proof (Zdigits2_bounds (Zpos d) ltac:(lia)) as [Hdl Hdu]. fold Dd in Hdl, Hdu.
  assert (E0 : F64.ratio_exp n d = Dn - Dd - 53).
  { unfold F64.ratio_exp. fold Dn Dd. rewrite fexp_eq. lia. }
  (* is the quotient an integer? *)
  destruct (Z.eq_dec (Zpos n mod Zpos d) 0) as [Hdiv|Hrem].
  - (* exact *)
    apply Z.mod_divide in Hdiv; [|lia]. destruct Hdiv as [t Et].
    assert (Ht : 0 < t) by nia.
    assert (Htd : Zdigits2 t <= 52).
    { apply Z.le_trans with Dn; [|lia]. apply Zdigits2_mono. nia. }
    assert (Et0 : Zpos n = t * 2 ^ 0 * Zpos d) by (rewrite Z.pow_0_r; lia).
    destruct (of_ratio_exact_value false n d t 0 Et0 Ht ltac:(lia) ltac:(lia)
                ltac:(lia)) as (m & e & R & He & Ev).
    rewrite R. split; [reflexivity|].
    assert (Hle : e <= 0) by lia.
    rewrite ceil_finite_pos by lia. f_equal.
    rewrite Et, ceil_div_exact by lia.
    assert (Em : Zpos m = t * 2 ^ (- e)).
    { assert (Hp : 0 < 2 ^ (e - F64.ratio_exp n d)) by (apply Z.pow_pos_nonneg; lia).
      apply (Z.mul_reg_r _ _ (2 ^ (e - F64.ratio_exp n d))); [lia|].
      rewrite <- Ev, <- Z.mul_assoc, <- Z.pow_add_r by lia.
      do 2 f_equal. lia. }
    rewrite Em. apply ceil_div_exact. apply Z.pow_pos_nonneg; lia.
  - (* inexact: the float lies strictly between the two integers *)
    rewrite of_ratio_unfold, E0.
    set (s0 := - (Dn - Dd - 53)).
    set (m' := Zpos n * 2 ^ s0).
    set (q0 := m' / Zpos d).
    assert (Hs0 : 0 < s0) by (unfold s0; lia).
    assert (Hm' : 0 < m') by (apply Z.mul_pos_pos; [lia|apply Z.pow_pos_nonneg; lia]).
    assert (HDm' : Zdigits2 m' = 53 + Dd).
    { unfold m'. rewrite Zdigits2_shift by lia. fold Dn. unfold s0. lia. }
    assert (Hq52 : 2 ^ 52 <= q0).
    { apply Z.div_le_lower_bound; [lia|].
      pose proof (Zdigits2_bounds m' Hm') as [Hl _]. rewrite HDm' in Hl.
      replace (53 + Dd - 1) with (Dd + 52) in Hl by lia.
      rewrite Z.pow_add_r in Hl by lia. nia. }
    assert (HDq : 53 <= Zdigits2 q0 <= 54).
    { split.
      - change 53 with (Zdigits2 (2 ^ 52)). apply Zdigits2_mono. lia.
      - pose proof (quotient_digits m' (Zpos d) ltac:(lia) ltac:(lia)) as Hq.
        fold q0 in Hq. fold Dd in Hq. rewrite HDm' in Hq. lia. }
    destruct (binary_round_aux_normal false q0 (Dn - Dd - 53)
                (new_location (Zpos d) (m' mod Zpos d)))
      as (M & Mf & Ef & HM & R & HEf & EM); try lia.
    rewrite R. split; [reflexivity|].
    set (k := Zdigits2 q0 - 53) in *.
    set (P := 2 ^ (s0 - k)).
    assert (HP : 0 < P) by (apply Z.pow_pos_nonneg; lia).
    assert (HPd : Zpos d < P).
    { apply Z.lt_le_trans with (2 ^ Dd); [lia|].
      apply Z.pow_le_mono_r; lia. }
    assert (Hm1 : q0 / 2 ^ k = Zpos n * P / Zpos d).
    { unfold q0. rewrite Z.div_div by (try apply Z.pow_pos_nonneg; lia).
      unfold m', P.
      replace (2 ^ s0) with (2 ^ (s0 - k) * 2 ^ k)
        by (rewrite <- Z.pow_add_r by lia; f_equal; lia).
      rewrite Z.mul_assoc.
      rewrite Z.div_mul_cancel_r by (try apply Z.pow_nonzero; lia).
      reflexivity. }
    rewrite Hm1 in HM.
    pose proof (Z.mul_div_le (Zpos n * P) (Zpos d) ltac:(lia)) as Hlo.
    pose proof (Z.mul_succ_div_gt (Zpos n * P) (Zpos d) ltac:(lia)) as Hhi.
    set (m1 := Zpos n * P / Zpos d) in *.
    pose proof (Z.div_mod (Zpos n) (Zpos d) ltac:(lia)) as Hnd.
    pose proof (Z.mod_pos_bound (Zpos n) (Zpos d) ltac:(lia)) as Hrho.
    set (t := Zpos n / Zpos d) in *. set (rho := Zpos n mod Zpos d) in *.
    assert (HtM : t * P < M < (t + 1) * P).
    { assert (Hn1 : Zpos n * P = t * Zpos d * P + rho * P) by (rewrite Hnd; ring).
      assert (Hr1 : P <= rho * P) by nia.
      assert (Hr2 : P <= (Zpos d - rho) * P) by nia.
      split.
      - apply Z.lt_le_trans with m1; [|lia].
        apply (Z.mul_lt_mono_pos_l (Zpos d)); [lia|]. nia.
      - apply Z.le_lt_trans with (m1 + 1); [lia|].
        apply (Z.mul_lt_mono_pos_l (Zpos d)); [lia|]. nia. }
    rewrite ceil_finite_pos by lia. f_equal.
    assert (EP : P = 2 ^ (- Ef) * 2 ^ (Ef - (Dn - Dd - 53 + k))).
    { unfold P, s0. rewrite <- Z.pow_add_r by lia. f_equal. lia. }
    rewrite <- (ceil_div_scale (Zpos Mf) (2 ^ (- Ef)) (2 ^ (Ef - (Dn - Dd - 53 + k))))
      by (apply Z.pow_pos_nonneg; lia).
    rewrite <- EM, <- EP.
    rewrite (ceil_div_between t M P HP HtM).
    symmetry. apply ceil_div_between; [lia|]. fold t rho in Hnd. nia.
Qed.

(** ** The funnel projection *)

Lemma f100_not_zero : F64.is_zero f100 = false.
Proof. reflexivity. Qed.

Lemma percent_rate (pct : float) :
  Py.float_truediv pct f100 = Ok (Rounded.rate pct).
Proof. unfold Py.float_truediv. rewrite f100_not_zero. reflexivity. Qed.

Lemma div_half_even_bounds (n d : Z) :
  0 <= n -> 2 <= d -> 0 <= F64.div_half_even n d <= n / 2 + 1.
Proof.
  intros Hn Hd. unfold F64.div_half_even.
  assert (Hq : 0 <= n / d) by (apply Z.div_pos; lia).
  assert (Hq2 : n / d <= n / 2).
  { apply Z.div_le_lower_bound; [lia|].
    pose proof (Z.mul_div_le n d ltac:(lia)). nia. }
  destruct (2 * (n mod d) ?= d); [destruct (Z.even (n / d))| |]; lia.
Qed.

Lemma round2_total (x : float) :
  F64.bounded x = true ->
  exists y, Py.round2 x = Ok y /\ F64.bounded y = true.
Proof.
  intros Hx. destruct x as [s|s| |s m e]; cbn [Py.round2]; eauto.
  cbn [F64.bounded] in Hx. apply andb_prop in Hx as [Hd He].
  apply Z.leb_le in Hd, He.
  assert (Hsh : forall c, F64.shaped s (F64.of_decimal s c (-2))).
  { intros [|p|p]; cbn [F64.of_decimal]; try reflexivity.
    change (0 <=? -2) with false. cbv iota. apply of_ratio_shaped. }
  assert (Hfin : F64.is_finite (F64.of_decimal s (F64.cents (S754_finite s m e)) (-2)) = true).
  { cbn [F64.cents]. destruct (Z.leb_spec 0 e) as [Hpos|Hneg].
    - assert (Hc : 0 < Zpos m * 2 ^ e * 100)
        by (apply Z.mul_pos_pos; [apply Z.mul_pos_pos; [lia|apply Z.pow_pos_nonneg; lia]|lia]).
      destruct (Zpos m * 2 ^ e * 100) as [|p|p] eqn:Ep; try lia.
      cbn [F64.of_decimal]. change (0 <=? -2) with false. cbv iota.
      change (Z.to_pos (10 ^ (- -2))) with 100%positive.
      destruct (of_ratio_exact s p 100%positive (Zpos m) e) as (m' & e' & E);
        cbn [Zdigits2]; try lia.
      rewrite E. reflexivity.
    - assert (H2 : 2 <= 2 ^ (- e)).
      { change 2 with (2 ^ 1) at 1. apply Z.pow_le_mono_r; lia. }
      pose proof (div_half_even_bounds (Zpos m * 100) (2 ^ (- e)) ltac:(lia) H2) as Hb.
      destruct (F64.div_half_even (Zpos m * 100) (2 ^ (- e))) as [|p|p] eqn:Ep;
        try reflexivity; try lia.
      cbn [F64.of_decimal]. change (0 <=? -2) with false. cbv iota.
      change (Z.to_pos (10 ^ (- -2))) with 100%positive.
      apply of_ratio_small.
      assert (Hm : Zpos m < 2 ^ 53).
      { pose proof (digits_bounds m) as [_ Hu].
        assert (2 ^ Zpos (digits2_pos m) <= 2 ^ 53) by (apply Z.pow_le_mono_r; lia).
        lia. }
      assert (Hp : Zdigits2 (Zpos p) <= 59).
      { apply Zdigits2_le; [lia|]. split; [lia|].
        assert (Zpos m * 100 / 2 < 2 ^ 53 * 50) by (apply Z.div_lt_upper_bound; lia).
        change (2 ^ 59) with (2 ^ 53 * 64). lia. }
      change (Zdigits2 100) with 7. lia. }
  pose proof (shaped_bounded s _ (Hsh (F64.cents (S754_finite s m e)))) as Hb.
  destruct (F64.of_decimal s (F64.cents (S754_finite s m e)) (-2));
    try discriminate Hfin; eauto.
Qed.

Lemma representable_digits (n : Z) :
  F64.representable n -> Zdigits2 (Z.abs n) <= 1024.
Proof.
  intros [->|(a & j & E & Ha & Hda & Hj & Hd)]; [simpl; lia|].
  rewrite E, Zdigits2_shift by lia. exact Hd.
Qed.

Lemma int_truediv_total (a b : Z) :
  F64.representable a -> 0 < b ->
  exists q, Py.int_truediv a b = Ok q /\ F64.bounded q = true
            /\ F64.is_finite q = true.
Proof.
  intros Ha Hb. unfold Py.int_truediv.
  destruct b as [|pb|pb]; try lia.
  destruct (Z.eq_dec a 0) as [->|Hne]; [eexists; split; [reflexivity|auto]|].
  set (neg := xorb (a <? 0) (Zpos pb <? 0)).
  assert (Hsh := of_ratio_shaped neg (Z.to_pos (Z.abs a)) (Z.to_pos (Z.abs (Zpos pb)))).
  assert (Hfin : F64.is_finite
                   (F64.of_ratio neg (Z.to_pos (Z.abs a)) (Z.to_pos (Z.abs (Zpos pb)))) = true).
  { change (Z.to_pos (Z.abs (Zpos pb))) with pb.
    destruct (Pos.eq_dec pb 1%positive) as [->|Hp1].
    - destruct Ha as [->|(a' & j & E & Ha' & Hda & Hj & Hd)]; [lia|].
      assert (Ep : Zpos (Z.to_pos (Z.abs a)) = a' * 2 ^ j * 1)
        by (rewrite Z2Pos.id by lia; lia).
      destruct (of_ratio_exact neg (Z.to_pos (Z.abs a)) 1%positive a' j Ep Ha' Hda Hj Hd)
        as (m & e & R).
      rewrite R. reflexivity.
    - apply of_ratio_small.
      pose proof (representable_digits a Ha) as Hd.
      rewrite Z2Pos.id by lia.
      assert (2 <= Zdigits2 (Zpos pb))
        by (destruct pb; cbn [Zdigits2 digits2_pos]; lia || congruence).
      lia. }
  apply shaped_bounded in Hsh.
  destruct a as [|pa|pa]; try lia;
    destruct (F64.of_ratio neg _ _); try discriminate Hfin; eauto.
Qed.

Lemma ceil_total (q : float) :
  F64.is_finite q = true -> exists c, Py.ceil q = Ok c.
Proof. destruct q; try discriminate; cbn [Py.ceil]; eauto. Qed.

Lemma headcount_total (n cap : Z) :
  F64.representable n -> 0 < cap -> exists h, headcount n cap = Ok h.
Proof.
  intros Hn Hc. unfold headcount.
  destruct (int_truediv_total n cap Hn Hc) as (q & E & _ & Hf). rewrite E. cbn [bind].
  destruct (ceil_total q Hf) as (c & Ec). rewrite Ec. cbn [bind]. eauto.
Qed.

Lemma int_mul_float_total (n : Z) (x : float) :
  F64.representable n ->
  exists y, Py.int_mul_float n x = Ok y /\ F64.bounded y = true.
Proof.
  intros Hn. unfold Py.int_mul_float.
  destruct (float_of_int_representable n Hn) as (y & E & _). rewrite E. cbn [bind].
  eexists. split; [reflexivity|apply mul_bounded].
Qed.

Lemma float_truediv_int_total (x : float) (n : Z) :
  F64.representable n -> n <> 0 ->
  exists y, Py.float_truediv_int x n = Ok y /\ F64.bounded y = true.
Proof.
  intros Hn Hne. unfold Py.float_truediv_int, Py.float_truediv.
  destruct (float_of_int_representable n Hn) as (y & E & _ & _ & Hz). rewrite E. cbn [bind].
  rewrite (Hz Hne). eexists. split; [reflexivity|apply div_bounded].
Qed.

Lemma float_truediv_positive (x y : float) :
  Py.float_gt_0 y = true -> Py.float_truediv x y = Ok (F64.div x y).
Proof.
  unfold Py.float_truediv. destruct y; try discriminate; reflexivity.
Qed.

Lemma stage_representable (n c : Z) (taxa : float) :
  stage n taxa = Ok c -> F64.representable c.
Proof.
  unfold stage, Py.int_mul_float. destruct (Py.float_of_int n); cbn [bind]; [|discriminate].
  apply int_of_float_representable, mul_bounded.
Qed.

Lemma leads_representable (inv cpl : float) (l : Z) :
  (if Py.float_gt_0 cpl
   then (let* q := Py.float_truediv inv cpl in Py.int_of_float q)
   else Ok 0) = Ok l ->
  F64.representable l.
Proof.
  destruct (Py.float_gt_0 cpl) eqn:Hc.
  - rewrite (float_truediv_positive _ _ Hc). cbn [bind].
    apply int_of_float_representable, div_bounded.
  - intros [= <-]. left. reflexivity.
Qed.

Lemma funnel_counts_representable
    (inv cpl pa pc pv : float) (l a c v : Z) :
  funnel_counts inv cpl pa pc pv = Ok (l, a, c, v) ->
  F64.representable l /\ F64.representable a /\ F64.representable c
  /\ F64.representable v.
Proof.
  unfold funnel_counts. rewrite !percent_rate. cbn [bind].
  destruct (if Py.float_gt_0 cpl then _ else _) as [l'|] eqn:El; cbn [bind];
    [|discriminate].
  destruct (stage l' _) as [a'|] eqn:Ea; cbn [bind]; [|discriminate].
  destruct (stage a' _) as [c'|] eqn:Ec; cbn [bind]; [|discriminate].
  destruct (stage c' _) as [v'|] eqn:Ev; cbn [bind]; [|discriminate].
  intros [= <- <- <- <-].
  repeat split; eauto using stage_representable, leads_representable.
Qed.

(** Name the first computation of the chain and claim that it returns a
    float within bounds. *)
Ltac next_float :=
  match goal with
  | |- context [bind ?c _] =>
      let y := fresh "y" in
      let B := fresh "B" in
      assert (exists y, c = Ok y /\ F64.bounded y = true) as (y & -> & B);
      [|cbn [bind]]
  end.

Ltac next_int :=
  match goal with
  | |- context [bind ?c _] =>
      let y := fresh "n" in
      assert (exists y : Z, c = Ok y) as (y & ->);
      [|cbn [bind]]
  end.

Lemma float_mul_int_100 (q : float) :
  Py.float_mul_int q 100 = Ok (F64.mul q f100).
Proof. reflexivity. Qed.

Theorem project_funnel_total
    (inv cpl pa pc pv tk : float) (l a c v : Z) :
  F64.bounded inv = true ->
  funnel_counts inv cpl pa pc pv = Ok (l, a, c, v) ->
  exists r,
    project_funnel inv cpl pa pc pv tk = Ok r
    /\ leads r = l /\ agendamentos r = a /\ comparecimentos r = c
    /\ vendas r = v.
Proof.
  intros Hinv Hc.
  destruct (funnel_counts_representable _ _ _ _ _ _ _ _ _ Hc) as (Hl & Ha & Hcm & Hv).
  unfold project_funnel. rewrite Hc. cbn [bind].
  (* receita *)
  next_float; [apply int_mul_float_total, Hv|].
  (* cac *)
  next_float.
  { destruct (Z.ltb_spec 0 v); [apply float_truediv_int_total; [exact Hv|lia]|].
    exists f0. auto. }
  (* roas *)
  next_float.
  { destruct (Py.float_gt_0 inv) eqn:Hg.
    - rewrite (float_truediv_positive _ _ Hg). eexists.
      split; [reflexivity|auto with bounds].
    - exists f0. auto. }
  (* custo_por_call *)
  next_float.
  { destruct (Z.ltb_spec 0 c); [apply float_truediv_int_total; [exact Hcm|lia]|].
    exists f0. auto. }
  (* sdrs, closers *)
  next_int; [apply headcount_total; [exact Hcm|lia]|].
  next_int; [apply headcount_total; [exact Hv|lia]|].
  (* taxa_total_funil *)
  next_float.
  { destruct (Z.ltb_spec 0 l); [|exists f0; auto].
    destruct (int_truediv_total v l Hv ltac:(lia)) as (q & -> & _). cbn [bind].
    rewrite float_mul_int_100. cbn [bind]. apply round2_total, mul_bounded. }
  (* retorno_por_lead *)
  next_float.
  { destruct (Z.ltb_spec 0 l); [|exists f0; auto].
    destruct (float_truediv_int_total y l Hl ltac:(lia)) as (q & -> & Bq). cbn [bind].
    apply round2_total, Bq. }
  (* the rounded outputs *)
  do 6 (next_float; [apply round2_total; auto with bounds|]).
  eexists. split; [reflexivity|]. cbn. auto.
Qed.

Lemma ceil_nonpos (x : float) :
  F64.shaped true x -> F64.is_finite x = true ->
  exists c, Py.ceil x = Ok c /\ c <= 0.
Proof.
  destruct x as [s|s| |s m e]; cbn [F64.shaped]; try discriminate; try tauto.
  - intros _ _. exists 0. split; [reflexivity|lia].
  - intros (-> & _) _. cbn [Py.ceil negb cond_Zopp].
    eexists. split; [reflexivity|].
    pose proof (Z.shiftl_nonneg (Zpos m) e). lia.
Qed.

(** Below [2 ^ 52] the head count is the exact one. *)
Lemma headcount_exact (n cap : Z) :
  2 <= cap -> Zdigits2 cap <= 1000 -> F64.representable n -> n < 2 ^ 52 ->
  headcount n cap = Ok (Z.max 1 (Spec.ceil_div n cap)).
Proof.
  intros Hc Hdc Hn Hlt. unfold headcount, Py.int_truediv.
  destruct cap as [|pc|pc]; try lia.
  change (Zpos pc <? 0) with false. rewrite xorb_false_r.
  change (Z.to_pos (Z.abs (Zpos pc))) with pc.
  destruct n as [|pn|pn].
  - cbn [bind Py.ceil]. reflexivity.
  - change (Zpos pn <? 0) with false. change (Z.to_pos (Z.abs (Zpos pn))) with pn.
    destruct (ceil_of_ratio pn pc) as [Hf Hceil]; try lia.
    { apply Zdigits2_le; lia. }
    destruct (F64.of_ratio false pn pc) eqn:E; try discriminate Hf;
      cbn [bind]; rewrite Hceil; reflexivity.
  - change (Zneg pn <? 0) with true. change (Z.to_pos (Z.abs (Zneg pn))) with pn.
    pose proof (of_ratio_shaped true pn pc) as Hsh.
    assert (Hf : F64.is_finite (F64.of_ratio true pn pc) = true).
    { apply of_ratio_small.
      pose proof (representable_digits _ Hn) as Hd.
      change (Z.abs (Zneg pn)) with (Zpos pn) in Hd.
      assert (2 <= Zdigits2 (Zpos pc))
        by (destruct pc; cbn [Zdigits2 digits2_pos]; lia).
      lia. }
    destruct (ceil_nonpos _ Hsh Hf) as (c & Ec & Hle).
    assert (Hcd : Spec.ceil_div (Zneg pn) (Zpos pc) <= 0).
    { unfold Spec.ceil_div. change (- Zneg pn) with (Zpos pn).
      pose proof (Z.div_pos (Zpos pn) (Zpos pc) ltac:(lia) ltac:(lia)). lia. }
    destruct (F64.of_ratio true pn pc) eqn:E; try discriminate Hf;
      cbn [bind]; rewrite Ec; cbn [bind]; f_equal; lia.
Qed.

(** From [2 ^ 56] on the rounding of the quotient can hide the remainder. *)
Lemma headcount_large :
  headcount 72057594037928224 180 = Ok 400319966877379
  /\ Spec.ceil_div 72057594037928224 180 = 400319966877380
  /\ Py.int_of_float (F64.of_Z 72057594037928224) = Ok 72057594037928224.
Proof. repeat split; vm_compute; reflexivity. Qed.

Section Funnel.

Variables investimento custo_lead pct_agendamento pct_comparecimento
  pct_conversao ticket_medio : float.

Lemma float_of_int_ok (n : Z) (y : float) :
  Py.float_of_int n = Ok y -> y = F64.of_Z n.
Proof.
  unfold Py.float_of_int. destruct (F64.of_Z n); intros [= <-]; reflexivity.
Qed.

(** A later stage is the truncation of the count times the rate. *)
Lemma stage_next_stage (n : Z) (pct : float) :
  F64.representable n ->
  to_option (stage n (Rounded.rate pct)) = Rounded.next_stage n pct.
Proof.
  intros Hn. unfold stage, Rounded.next_stage, Rounded.times, Py.int_mul_float.
  destruct (float_of_int_representable n Hn) as (y & E & _).
  rewrite E, (float_of_int_ok n y E). cbn [bind]. apply int_of_float_trunc.
Qed.

Lemma leads_chain :
  to_option (if Py.float_gt_0 custo_lead
             then (let* q := Py.float_truediv investimento custo_lead in
                   Py.int_of_float q)
             else Ok 0)
  = Rounded.leads investimento custo_lead.
Proof.
  unfold Rounded.leads, Py.float_gt_0, f0.
  destruct (F64.ltb (S754_zero false) custo_lead) eqn:Hc; [|reflexivity].
  unfold Py.float_truediv.
  destruct custo_lead; try discriminate Hc; simpl; apply int_of_float_trunc.
Qed.

Lemma funnel_counts_chain :
  to_option (funnel_counts investimento custo_lead pct_agendamento
               pct_comparecimento pct_conversao)
  = Rounded.stages investimento custo_lead pct_agendamento pct_comparecimento
      pct_conversao.
Proof.
  unfold funnel_counts, Rounded.stages.
  rewrite !percent_rate. cbn [bind].
  rewrite <- leads_chain.
  destruct (if Py.float_gt_0 custo_lead then _ else _) as [l|] eqn:El;
    cbn [bind to_option mbind option_bind]; [|reflexivity].
  assert (Hl : F64.representable l) by exact (leads_representable _ _ _ El).
  rewrite <- (stage_next_stage l _ Hl).
  destruct (stage l _) as [a|] eqn:Ea;
    cbn [bind to_option mbind option_bind]; [|reflexivity].
  assert (Ha : F64.representable a) by exact (stage_representable _ _ _ Ea).
  rewrite <- (stage_next_stage a _ Ha).
  destruct (stage a _) as [c|] eqn:Ec;
    cbn [bind to_option mbind option_bind]; [|reflexivity].
  assert (Hc : F64.representable c) by exact (stage_representable _ _ _ Ec).
  rewrite <- (stage_next_stage c _ Hc).
  destruct (stage c _) as [v|]; reflexivity.
Qed.

Lemma project_funnel_chain :
  F64.bounded investimento = true ->
  match Rounded.stages investimento custo_lead pct_agendamento
          pct_comparecimento pct_conversao with
  | Some (l, a, c, v) =>
      exists r,
        project_funnel investimento custo_lead pct_agendamento
          pct_comparecimento pct_conversao ticket_medio = Ok r
        /\ leads r = l /\ agendamentos r = a /\ comparecimentos r = c
        /\ vendas r = v
  | None =>
      exists e,
        project_funnel investimento custo_lead pct_agendamento
          pct_comparecimento pct_conversao ticket_medio = Raise e
  end.
Proof.
  intros Hb. rewrite <- funnel_counts_chain.
  destruct (funnel_counts _ _ _ _ _) as [[[[l a] c] v]|e] eqn:Ec;
    cbn [to_option].
  - exact (project_funnel_total _ _ _ _ _ _ _ _ _ _ Hb Ec).
  - exists e. unfold project_funnel. rewrite Ec. reflexivity.
Qed.

Lemma headcount_inv (n cap h : Z) :
  headcount n cap = Ok h ->
  exists q c,
    Py.int_truediv n cap = Ok q /\ Spec.ceiling q = Some c /\ h = Z.max 1 c.
Proof.
  unfold headcount. intros H.
  destruct (Py.int_truediv n cap) as [q|] eqn:Hq; cbn [bind] in H;
    [|discriminate].
  pose proof (ceil_ceiling q) as Hc.
  destruct (Py.ceil q) as [c|]; cbn [bind] in H; [|discriminate].
  exists q, c. simpl in Hc. split; [reflexivity|]. split; congruence.
Qed.

Lemma project_funnel_inv (r : resultados) :
  project_funnel investimento custo_lead pct_agendamento pct_comparecimento
    pct_conversao ticket_medio = Ok r ->
  funnel_counts investimento custo_lead pct_agendamento pct_comparecimento
    pct_conversao
  = Ok (leads r, agendamentos r, comparecimentos r, vendas r)
  /\ headcount (comparecimentos r) 180 = Ok (sdrs r)
  /\ headcount (vendas r) 120 = Ok (closers r).
Proof.
  unfold project_funnel.
  destruct (funnel_counts _ _ _ _ _) as [[[[l a] c] v]|e]; cbn [bind];
    [|discriminate].
  repeat (step_bind; [|discriminate]).
  intros [= <-]. simpl. auto.
Qed.

(** C4, as amended. Whenever the projection returns, both head counts are
    at least 1, and for a count below [2 ^ 52] the head count is the
    larger of 1 and the ceiling of the exact quotient: of
    comparecimentos / 180 for [sdrs], of vendas / 120 for [closers]. *)
Theorem staffing_needs (r : resultados) :
  project_funnel investimento custo_lead pct_agendamento pct_comparecimento
    pct_conversao ticket_medio = Ok r ->
  (comparecimentos r < 2 ^ 52 ->
   sdrs r = Z.max 1 (Spec.ceil_div (comparecimentos r) 180))
  /\ (vendas r < 2 ^ 52 ->
      closers r = Z.max 1 (Spec.ceil_div (vendas r) 120))
  /\ 1 <= sdrs r /\ 1 <= closers r.
Proof.
  intros H. apply project_funnel_inv in H as (Hcounts & Hs & Hc).
  apply funnel_counts_representable in Hcounts as (_ & _ & Rc & Rv).
  pose proof (headcount_inv _ _ _ Hs) as (q1 & c1 & Hq1 & Hc1 & E1).
  pose proof (headcount_inv _ _ _ Hc) as (q2 & c2 & Hq2 & Hc2 & E2).
  split; [|split; [|lia]].
  - intros Hlt.
    pose proof (headcount_exact (comparecimentos r) 180 ltac:(lia)
                  ltac:(simpl; lia) Rc Hlt) as Hx.
    congruence.
  - intros Hlt.
    pose proof (headcount_exact (vendas r) 120 ltac:(lia)
                  ltac:(simpl; lia) Rv Hlt) as Hx.
    congruence.
Qed.

End Funnel.

Lemma example_returns :
  project_funnel (F64.of_Z 10000) (F64.of_Z 50) (F64.of_Z 20) (F64.of_Z 80)
    (F64.of_Z 25) (F64.of_Z 500) = Ok example_result.
Proof. vm_compute. reflexivity. Qed.

Lemma staffing_needs_witness :
  sdrs example_result = Z.max 1 (Spec.ceil_div 32 180)
  /\ closers example_result = Z.max 1 (Spec.ceil_div 8 120)
  /\ 1 <= sdrs example_result /\ 1 <= closers example_result.
Proof.
  destruct (staffing_needs _ _ _ _ _ _ _ example_returns) as (Hs & Hc & H).
  split; [apply Hs; reflexivity|]. split; [apply Hc; reflexivity|exact H].
Defined.

(** C4, as stated, fails for a large count: with 72057594037928224
    attendances, [2 ^ 56 + 288], the quotient by 180 is rounded to the
    float 400319966877379.0 before the ceiling is taken, one scheduler
    short of the ceiling of the exact quotient. *)
Lemma staffing_shortfall :
  exists r,
    project_funnel (F64.of_Z 72057594037928224) (F64.of_Z 1) f100 f100 f100
      (F64.of_Z 1) = Ok r
    /\ comparecimentos r = 72057594037928224
    /\ sdrs r = 400319966877379
    /\ Z.max 1 (Spec.ceil_div (comparecimentos r) 180) = 400319966877380.
Proof.
  let v := eval vm_compute in
    (project_funnel (F64.of_Z 72057594037928224) (F64.of_Z 1) f100 f100 f100
       (F64.of_Z 1)) in
  match v with
  | Ok ?r => exists r
  end.
  repeat split; vm_compute; reflexivity.
Qed.

(** C1, as stated, fails where a rounding falls below an integer: with
    100 leads and a scheduling rate of 29 per cent the chain of the
    specification gives 29 appointments, while 29 / 100.0 is a float
    below 0.29, the product by 100 is 28.999999999999996 and [int] makes
    it 28. *)
Lemma funnel_counts_rounding :
  funnel_counts (F64.of_Z 5000) (F64.of_Z 50) (F64.of_Z 29) (F64.of_Z 100)
    (F64.of_Z 100) = Ok (100, 28, 28, 28)
  /\ exact_stages (F64.of_Z 5000) (F64.of_Z 50) (F64.of_Z 29) (F64.of_Z 100)
       (F64.of_Z 100) = Some (100, 29, 29, 29)
  /\ Qred <$> F64.to_Q (F64.of_Z 5000) = Some (5000 # 1)%Q
  /\ Qred <$> F64.to_Q (F64.of_Z 50) = Some (50 # 1)%Q
  /\ Qred <$> F64.to_Q (F64.of_Z 29) = Some (29 # 1)%Q
  /\ Qred <$> F64.to_Q (F64.of_Z 100) = Some (100 # 1)%Q
  /\ Spec.stages (5000 # 1) (50 # 1) (29 # 1) (100 # 1) (100 # 1)
     = (100, 29, 29, 29)
  /\ Spec.next_stage 100 (29 # 1) = 29.
Proof. repeat split; vm_compute; reflexivity. Qed.

(** C3. For investment 10000, cost per lead 50, rates 20, 80 and 25 per
    cent and ticket 500 the projection returns leads 200, appointments 40,
    attendances 32, sales 8, revenue 4000.0, profit -6000.0, one scheduler
    and one closer. *)
Theorem funnel_example :
  exists r,
    project_funnel (F64.of_Z 10000) (F64.of_Z 50) (F64.of_Z 20) (F64.of_Z 80)
      (F64.of_Z 25) (F64.of_Z 500) = Ok r
    /\ leads r = 200 /\ agendamentos r = 40 /\ comparecimentos r = 32
    /\ vendas r = 8
    /\ receita r = F64.of_Z 4000 /\ lucro r = F64.of_Z (-6000)
    /\ sdrs r = 1 /\ closers r = 1.
Proof.
  exists example_result. split; [exact example_returns|].
  repeat split.
Qed.

(** [int] truncates: a negative quotient is rounded up, not down. *)
Example leads_of_negative_investment :
  funnel_counts (F64.of_Z (-75)) (F64.of_Z 50) (F64.of_Z 100) (F64.of_Z 100)
    (F64.of_Z 100) = Ok (-1, -1, -1, -1).
Proof. vm_compute. reflexivity. Qed.

(** C2. The projection does fail on finite numeric input: with
    investimento 1e308 and custo_lead 1e-308 the guarded quotient is an
    infinity and [int] raises OverflowError, in the projection and in the
    handler that feeds it the form fields.  With investimento 0 and
    custo_lead 0 it returns no leads and 0.0 for every ratio. *)
Theorem dashboard_overflow :
  (dashboard env_up (funnel_request "1e308" "1e-308" "500") empty_world).1
  = Raise OverflowError
  /\ project_funnel (F64.of_decimal false 1 308) (F64.of_decimal false 1 (-308))
       (F64.of_Z 20) (F64.of_Z 80) (F64.of_Z 25) (F64.of_Z 500)
     = Raise OverflowError
  /\ F64.is_finite (F64.of_decimal false 1 308) = true
  /\ F64.is_finite (F64.of_decimal false 1 (-308)) = true
  /\ Py.float_gt_0 (F64.of_decimal false 1 (-308)) = true
  /\ project_funnel f0 f0 (F64.of_Z 20) (F64.of_Z 80) (F64.of_Z 25)
       (F64.of_Z 500) = Ok empty_result.
Proof. repeat split; vm_compute; reflexivity. Qed.

(** ** Strings *)

Section Strings.

Import PyStr Chars.

Lemma append_nil_r (s : string) : s +:+ "" = s.
Proof. induction s; cbn [String.append]; congruence. Qed.

Lemma append_assoc (a b c : string) : (a +:+ b) +:+ c = a +:+ (b +:+ c).
Proof. induction a; cbn [String.append]; congruence. Qed.

Lemma prefix_char (c x : ascii) (r : string) :
  String.prefix (String c "") (String x r) = Ascii.eqb x c.
Proof.
  simpl. destruct (ascii_dec c x) as [->|Hne].
  - rewrite Ascii.eqb_refl. destruct r; reflexivity.
  - symmetry. apply Ascii.eqb_neq. congruence.
Qed.

(** Replacing a one-character pattern works character by character. *)
Lemma replace_char (c : ascii) (new s : string) :
  replace (String c "") new s
  = flat_map (fun x => if Ascii.eqb x c then new else String x "") s.
Proof.
  unfold replace. induction s as [|x r IH]; [reflexivity|].
  cbn [replace_from flat_map]. rewrite prefix_char.
  destruct (Ascii.eqb x c); cbn [String.length Nat.pred]; rewrite IH; reflexivity.
Qed.

Lemma flat_map_append (f : ascii -> string) (a b : string) :
  flat_map f (a +:+ b) = flat_map f a +:+ flat_map f b.
Proof.
  induction a as [|x r IH]; [reflexivity|].
  cbn [String.append flat_map]. rewrite IH, append_assoc. reflexivity.
Qed.

Lemma flat_map_flat_map (f g : ascii -> string) (s : string) :
  flat_map f (flat_map g s) = flat_map (fun c => flat_map f (g c)) s.
Proof.
  induction s as [|x r IH]; [reflexivity|].
  cbn [flat_map]. rewrite flat_map_append, IH. reflexivity.
Qed.

Lemma flat_map_ext (f g : ascii -> string) (s : string) :
  (forall c, f c = g c) -> flat_map f s = flat_map g s.
Proof. intros H. induction s as [|x r IH]; cbn [flat_map]; congruence. Qed.

Lemma flat_map_ext_all (p : ascii -> bool) (f g : ascii -> string) (s : string) :
  (forall c, p c = true -> f c = g c) -> all p s = true ->
  flat_map f s = flat_map g s.
Proof.
  intros H. induction s as [|x r IH]; [reflexivity|].
  cbn [all flat_map]. intros [Hx Hr]%andb_prop. rewrite (H x Hx), (IH Hr). reflexivity.
Qed.

Lemma flat_map_singleton (f : ascii -> ascii) (s : string) :
  flat_map (fun c => String (f c) "") s = map f s.
Proof. induction s as [|x r IH]; cbn [flat_map map String.append]; congruence. Qed.

(** The two replacements of [parse_num], one character at a time. *)
Lemma replace_separators (s : string) :
  replace "," "." (replace "." "" s) = flat_map separator s.
Proof.
  rewrite !replace_char, flat_map_flat_map. apply flat_map_ext. intros c.
  unfold separator. destruct (Ascii.eqb c ".") eqn:E1; [reflexivity|].
  cbn [flat_map]. rewrite append_nil_r. destruct (Ascii.eqb c ","); reflexivity.
Qed.

(** The three replacements of [br_money] exchange points and commas in
    a text that has no [X]. *)
Lemma replace_swap (s : string) :
  all not_X s = true ->
  replace "X" "." (replace "." "," (replace "," "X" s)) = map swap s.
Proof.
  intros H. rewrite !replace_char, !flat_map_flat_map, <- flat_map_singleton.
  apply (flat_map_ext_all not_X); [|exact H]. intros c Hc.
  unfold not_X in Hc. apply negb_true_iff in Hc. unfold swap.
  destruct (Ascii.eqb c ",") eqn:E1.
  - reflexivity.
  - cbn [flat_map]. destruct (Ascii.eqb c ".") eqn:E2.
    + reflexivity.
    + cbn [flat_map String.append]. rewrite Hc. reflexivity.
Qed.

Lemma map_append (f : ascii -> ascii) (a b : string) :
  map f (a +:+ b) = map f a +:+ map f b.
Proof. induction a as [|x r IH]; cbn [String.append map]; congruence. Qed.

Lemma all_append (p : ascii -> bool) (a b : string) :
  all p (a +:+ b) = all p a && all p b.
Proof.
  induction a as [|x r IH]; [reflexivity|].
  cbn [String.append all]. rewrite IH, andb_assoc. reflexivity.
Qed.

Lemma all_impl (p q : ascii -> bool) (s : string) :
  (forall c, p c = true -> q c = true) -> all p s = true -> all q s = true.
Proof.
  intros H. induction s as [|x r IH]; [reflexivity|].
  cbn [all]. intros [Hx Hr]%andb_prop. rewrite (H x Hx), (IH Hr). reflexivity.
Qed.

(** ** [strip] *)

Lemma lstrip_split (sp : ascii -> bool) (s : string) :
  exists l, s = l +:+ lstrip_with sp s /\ all sp l = true.
Proof.
  induction s as [|x r (l & E & Hl)].
  - exists ""%string. auto.
  - cbn [lstrip_with]. destruct (sp x) eqn:Hx.
    + exists (String x l). cbn [String.append all]. rewrite Hx, Hl, <- E. auto.
    + exists ""%string. auto.
Qed.

Lemma rstrip_split (sp : ascii -> bool) (s : string) :
  exists r, s = rstrip_with sp s +:+ r /\ all sp r = true.
Proof.
  induction s as [|x s (r & E & Hr)].
  - exists ""%string. auto.
  - cbn [rstrip_with]. destruct (rstrip_with sp s) as [|y t] eqn:Et.
    + cbn [String.append] in E. subst r. destruct (sp x) eqn:Hx.
      * exists (String x s). cbn [String.append all]. rewrite Hx, Hr. auto.
      * exists s. auto.
    + exists r. split; [|exact Hr]. change (String x s = String x (String y t +:+ r)).
      congruence.
Qed.

Lemma lstrip_first (sp : ascii -> bool) (s : string) (c : ascii) :
  first (lstrip_with sp s) = Some c -> sp c = false.
Proof.
  induction s as [|x r IH]; [discriminate|].
  cbn [lstrip_with]. destruct (sp x) eqn:Hx; [exact IH|].
  cbn [first]. congruence.
Qed.

Lemma rstrip_last (sp : ascii -> bool) (s : string) (c : ascii) :
  last (rstrip_with sp s) = Some c -> sp c = false.
Proof.
  induction s as [|x r IH]; [discriminate|].
  cbn [rstrip_with]. destruct (rstrip_with sp r) as [|y t] eqn:Et.
  - destruct (sp x) eqn:Hx; [discriminate|]. cbn [last]. congruence.
  - cbn [last]. exact IH.
Qed.

Lemma rstrip_first (sp : ascii -> bool) (s : string) (c : ascii) :
  first (rstrip_with sp s) = Some c -> first s = Some c.
Proof.
  destruct s as [|x r]; [discriminate|].
  cbn [rstrip_with]. destruct (rstrip_with sp r).
  - destruct (sp x); [discriminate|]. auto.
  - auto.
Qed.

Lemma rstrip_all (sp : ascii -> bool) (s : string) :
  all sp s = true -> rstrip_with sp s = ""%string.
Proof.
  induction s as [|x r IH]; [reflexivity|].
  cbn [all rstrip_with]. intros [Hx Hr]%andb_prop. rewrite (IH Hr), Hx. reflexivity.
Qed.

Lemma rstrip_empty (sp : ascii -> bool) (s : string) :
  rstrip_with sp s = ""%string -> all sp s = true.
Proof.
  induction s as [|x r IH]; [reflexivity|].
  cbn [all rstrip_with]. destruct (rstrip_with sp r).
  - destruct (sp x); [auto|discriminate].
  - discriminate.
Qed.

Lemma strip_blank (s : string) :
  String.eqb (strip s) "" = blank s.
Proof.
  unfold strip, blank.
  destruct (lstrip_split is_space s) as (l & E & Hl).
  destruct (String.eqb_spec (rstrip_with is_space (lstrip_with is_space s)) "") as [H|H].
  - apply rstrip_empty in H. rewrite E, all_append, Hl, H. reflexivity.
  - symmetry. apply not_true_is_false. intros Hs. apply H, rstrip_all.
    rewrite E, all_append, Hl in Hs. exact Hs.
Qed.

Lemma strip_split (s : string) :
  exists l r, s = l +:+ strip s +:+ r /\ blank l = true /\ blank r = true.
Proof.
  destruct (lstrip_split is_space s) as (l & El & Hl).
  destruct (rstrip_split is_space (lstrip_with is_space s)) as (r & Er & Hr).
  exists l, r. unfold strip, blank. rewrite <- Er, <- El. auto.
Qed.

Lemma strip_ends (s : string) (c : ascii) :
  first (strip s) = Some c \/ last (strip s) = Some c -> is_space c = false.
Proof.
  unfold strip. intros [H|H].
  - apply rstrip_first in H. exact (lstrip_first _ _ _ H).
  - exact (rstrip_last _ _ _ H).
Qed.

End Strings.

(** ** [parse_num] *)

Section ParseNum.

Import PyStr Chars.

Lemma of_str_raises_ValueError (s : string) (e : exn) :
  PyFloat.of_str s = Raise e -> e = ValueError.
Proof.
  unfold PyFloat.of_str.
  destruct (PyFloat.drop_underscores _ _); [|congruence].
  destruct (PyFloat.parse_decimal _); [discriminate|].
  destruct (PyFloat.parse_inf_or_nan _); [discriminate|congruence].
Qed.

Lemma try_float_or_zero (s : string) :
  try_except (PyFloat.of_str s) is_ValueError (Ok f0)
  = Ok (float_or_zero (PyFloat.of_str s)).
Proof.
  destruct (PyFloat.of_str s) as [x|e] eqn:E; [reflexivity|].
  apply of_str_raises_ValueError in E as ->. reflexivity.
Qed.

Lemma parse_num_some (s : string) :
  parse_num (Some s)
  = Ok (if blank s then f0
        else float_or_zero (PyFloat.of_str (flat_map separator (strip s)))).
Proof.
  unfold parse_num. rewrite strip_blank.
  destruct (blank s); [reflexivity|].
  rewrite replace_separators. apply try_float_or_zero.
Qed.

(** The float [f_1234_56] is within half a unit in the last place of
    1234.56. *)
Lemma nearest_1234_56 :
  2 * Z.abs (5429652300748554 * 100 - 123456 * 2 ^ 42) <= 100.
Proof. vm_compute. discriminate. Qed.

(** C5. [parse_num] returns 0.0 for [None] and for blank text; otherwise
    it strips the surrounding white space, drops every point, turns every
    comma into a point and converts the text, returning 0.0 where the
    conversion fails, so it never raises; "1.234,56" gives 1234.56 and "",
    "abc" give 0.0. *)
Theorem parse_num_fallback :
  parse_num None = Ok f0
  /\ (forall s, parse_num (Some s)
                = Ok (if blank s then f0
                      else float_or_zero
                             (PyFloat.of_str (flat_map separator (strip s)))))
  /\ (forall s, exists l r,
         s = l +:+ strip s +:+ r /\ blank l = true /\ blank r = true)
  /\ (forall s c, first (strip s) = Some c \/ last (strip s) = Some c ->
                  is_space c = false)
  /\ parse_num (Some "1.234,56") = Ok f_1234_56
  /\ parse_num (Some "") = Ok f0
  /\ parse_num (Some "abc") = Ok f0.
Proof.
  split; [reflexivity|]. split; [exact parse_num_some|].
  split; [exact strip_split|]. split; [exact strip_ends|].
  repeat split; vm_compute; reflexivity.
Qed.

Lemma parse_num_fallback_witness : is_space "7" = false.
Proof.
  destruct parse_num_fallback as (_ & _ & _ & H & _).
  apply (H " 7 "%string "7"%char). left. reflexivity.
Defined.

(** C10. [parse_num] accepts whatever [float] accepts once the points are
    dropped and the commas are points: "1e3" gives 1000.0, "1.5" gives
    15.0, "inf" and "nan" give an infinity and a NaN, and these reach the
    projection unguarded: an infinite ticket gives an infinite revenue and
    an infinite investment makes the handler raise. *)
Theorem parse_num_accepts_float_syntax :
  (forall s x, blank s = false ->
               PyFloat.of_str (flat_map separator (strip s)) = Ok x ->
               parse_num (Some s) = Ok x)
  /\ parse_num (Some "1e3") = Ok (F64.of_Z 1000)
  /\ parse_num (Some "1.5") = Ok (F64.of_Z 15)
  /\ parse_num (Some "inf") = Ok (S754_infinity false)
  /\ parse_num (Some "nan") = Ok S754_nan
  /\ (receita <$> rendered_resultados
        (dashboard env_up (funnel_request "10000" "50" "inf") empty_world).1)
     = Some (S754_infinity false)
  /\ (dashboard env_up (funnel_request "inf" "50" "500") empty_world).1
     = Raise OverflowError.
Proof.
  split.
  - intros s x Hb Hx. rewrite parse_num_some, Hb, Hx. reflexivity.
  - repeat split; vm_compute; reflexivity.
Qed.

Lemma parse_num_accepts_float_syntax_witness :
  parse_num (Some "1e3") = Ok (S754_finite false 8796093022208000 (-43)).
Proof.
  apply (proj1 parse_num_accepts_float_syntax); vm_compute; reflexivity.
Defined.

End ParseNum.

(** ** What reaches the projection, and when it fails *)

Lemma of_decimal_shaped (s : bool) (n e : Z) :
  F64.shaped s (F64.of_decimal s n e).
Proof.
  destruct n as [|p|p]; cbn [F64.of_decimal F64.shaped]; try reflexivity.
  destruct (0 <=? e); [apply binary_round_shaped|apply of_ratio_shaped].
Qed.

Lemma parse_decimal_bounded (s : string) (x : float) :
  PyFloat.parse_decimal s = Some x -> F64.bounded x = true.
Proof.
  unfold PyFloat.parse_decimal.
  destruct (PyFloat.parse_sign s) as [neg r].
  destruct (PyFloat.take_digits 0 0 r) as [[ip n1] r1].
  destruct (match r1 with
            | String "."%char r' => PyFloat.take_digits ip 0 r'
            | _ => (ip, 0, r1)
            end) as [[m n2] r2].
  destruct (n1 + n2 =? 0); [discriminate|].
  destruct r2 as [|c r3].
  - intros [= <-]. exact (shaped_bounded _ _ (of_decimal_shaped _ _ _)).
  - destruct (Ascii.eqb (PyStr.lower c) "e"); [|discriminate].
    destruct (PyFloat.parse_exponent r3); [|discriminate].
    intros [= <-]. exact (shaped_bounded _ _ (of_decimal_shaped _ _ _)).
Qed.

Lemma parse_inf_or_nan_bounded (s : string) (x : float) :
  PyFloat.parse_inf_or_nan s = Some x -> F64.bounded x = true.
Proof.
  unfold PyFloat.parse_inf_or_nan.
  destruct (PyFloat.parse_sign s) as [neg r].
  destruct (_ || _); [intros [= <-]; reflexivity|].
  destruct (String.eqb _ _); [intros [= <-]; reflexivity|discriminate].
Qed.

Lemma of_str_bounded (s : string) (x : float) :
  PyFloat.of_str s = Ok x -> F64.bounded x = true.
Proof.
  unfold PyFloat.of_str.
  destruct (PyFloat.drop_underscores _ _) as [s1|]; [|discriminate].
  destruct (PyFloat.parse_decimal _) as [y|] eqn:Ed.
  - intros [= <-]. exact (parse_decimal_bounded _ _ Ed).
  - destruct (PyFloat.parse_inf_or_nan _) as [y|] eqn:Ei; [|discriminate].
    intros [= <-]. exact (parse_inf_or_nan_bounded _ _ Ei).
Qed.

Lemma parse_num_total (raw : option string) :
  parse_num raw = Ok (float_or_zero (parse_num raw))
  /\ F64.bounded (float_or_zero (parse_num raw)) = true.
Proof.
  destruct raw as [s|]; [|split; reflexivity].
  unfold parse_num. destruct (String.eqb _ ""); [split; reflexivity|].
  rewrite try_float_or_zero. cbn [float_or_zero].
  split; [reflexivity|].
  destruct (PyFloat.of_str _) as [x|e] eqn:E; cbn [float_or_zero]; [|reflexivity].
  exact (of_str_bounded _ _ E).
Qed.

(** The exceptions of the count stages are those of [int]. *)
Lemma int_of_float_raises (x : float) (e : exn) :
  Py.int_of_float x = Raise e -> e = OverflowError \/ e = ValueError.
Proof. destruct x; cbn [Py.int_of_float]; intros [= <-]; auto. Qed.

Lemma stage_raises (n : Z) (taxa : float) (e : exn) :
  stage n taxa = Raise e -> e = OverflowError \/ e = ValueError.
Proof.
  unfold stage, Py.int_mul_float, Py.float_of_int.
  destruct (F64.of_Z n); cbn [bind]; try apply int_of_float_raises;
    intros [= <-]; auto.
Qed.

Lemma funnel_counts_raises (inv cpl pa pc pv : float) (e : exn) :
  funnel_counts inv cpl pa pc pv = Raise e ->
  e = OverflowError \/ e = ValueError.
Proof.
  unfold funnel_counts. rewrite !percent_rate. cbn [bind].
  destruct (Py.float_gt_0 cpl) eqn:Hc.
  - rewrite (float_truediv_positive _ _ Hc). cbn [bind].
    destruct (Py.int_of_float _) as [l|e1] eqn:El; cbn [bind];
      [|intros [= <-]; exact (int_of_float_raises _ _ El)].
    destruct (stage l _) as [a|e1] eqn:Ea; cbn [bind];
      [|intros [= <-]; exact (stage_raises _ _ _ Ea)].
    destruct (stage a _) as [c|e1] eqn:Ec; cbn [bind];
      [|intros [= <-]; exact (stage_raises _ _ _ Ec)].
    destruct (stage c _) as [v|e1] eqn:Ev; cbn [bind];
      [discriminate|intros [= <-]; exact (stage_raises _ _ _ Ev)].
  - cbn [bind].
    destruct (stage 0 _) as [a|e1] eqn:Ea; cbn [bind];
      [|intros [= <-]; exact (stage_raises _ _ _ Ea)].
    destruct (stage a _) as [c|e1] eqn:Ec; cbn [bind];
      [|intros [= <-]; exact (stage_raises _ _ _ Ec)].
    destruct (stage c _) as [v|e1] eqn:Ev; cbn [bind];
      [discriminate|intros [= <-]; exact (stage_raises _ _ _ Ev)].
Qed.

(** The projection fails only in [int], at a count stage: never by a
    division, and never after the counts are there. *)
Theorem project_funnel_raises (inv cpl pa pc pv tk : float) (e : exn) :
  F64.bounded inv = true ->
  project_funnel inv cpl pa pc pv tk = Raise e ->
  funnel_counts inv cpl pa pc pv = Raise e
  /\ (e = OverflowError \/ e = ValueError).
Proof.
  intros Hb H.
  destruct (funnel_counts inv cpl pa pc pv) as [[[[l a] c] v]|e1] eqn:Ec.
  - destruct (project_funnel_total inv cpl pa pc pv tk l a c v Hb Ec)
      as (r & Hr & _). congruence.
  - unfold project_funnel in H. rewrite Ec in H. cbn [bind] in H.
    injection H as <-. split; [reflexivity|].
    exact (funnel_counts_raises _ _ _ _ _ _ Ec).
Qed.

(** The [POST] branch of the dashboard, from the six parsed fields. *)
Lemma dashboard_post (e : env) (rq : request) (w : world) :
  method rq = POST ->
  (dashboard e rq w).1
  = let* r := project_funnel (field_value rq "investimento")
                (field_value rq "custo_lead")
                (field_value rq "taxa_agendamento")
                (field_value rq "taxa_comparecimento")
                (field_value rq "taxa_conversao")
                (field_value rq "ticket_medio") in
    Ok (Render "dashboard.html"
          {| ctx_lead := requested_lead rq w;
             ctx_resultados := Some r;
             ctx_year := Some (year e) |}).
Proof.
  intros Hm.
  unfold dashboard, bindM, lift, retM, query_get, field_value, requested_lead.
  rewrite Hm.
  destruct (parse_num_total (form rq !! "investimento")) as [-> _].
  destruct (parse_num_total (form rq !! "custo_lead")) as [-> _].
  destruct (parse_num_total (form rq !! "taxa_agendamento")) as [-> _].
  destruct (parse_num_total (form rq !! "taxa_comparecimento")) as [-> _].
  destruct (parse_num_total (form rq !! "taxa_conversao")) as [-> _].
  destruct (parse_num_total (form rq !! "ticket_medio")) as [-> _].
  cbn [bind float_or_zero].
  destruct (arg_lead_id rq) as [i|]; [destruct (i =? 0)|]; cbn [fst snd];
    destruct (project_funnel _ _ _ _ _ _); reflexivity.
Qed.

(** A dashboard [POST] returns exactly when the chain of count stages has
    a value for the six parsed fields. *)
Theorem dashboard_returns_iff (e : env) (rq : request) (w : world) :
  method rq = POST ->
  returns (dashboard e rq w).1
  = match Rounded.stages (field_value rq "investimento")
            (field_value rq "custo_lead")
            (field_value rq "taxa_agendamento")
            (field_value rq "taxa_comparecimento")
            (field_value rq "taxa_conversao") with
    | Some _ => true
    | None => false
    end.
Proof.
  intros Hm. rewrite (dashboard_post e rq w Hm).
  pose proof (project_funnel_chain (field_value rq "investimento")
                (field_value rq "custo_lead")
                (field_value rq "taxa_agendamento")
                (field_value rq "taxa_comparecimento")
                (field_value rq "taxa_conversao")
                (field_value rq "ticket_medio")) as H.
  specialize (H (proj2 (parse_num_total _))).
  destruct (Rounded.stages _ _ _ _ _) as [[[[l a] c] v]|].
  - destruct H as (r & -> & _). reflexivity.
  - destruct H as (x & ->). reflexivity.
Qed.

(** ** [br_money] *)

Section BrMoney.

Import PyStr Chars PyFormat.

Lemma length_map (f : ascii -> ascii) (s : string) :
  String.length (map f s) = String.length s.
Proof. induction s; cbn [map String.length]; congruence. Qed.

Lemma map_group (f : ascii -> ascii) (sep s : string) :
  map f (group sep s) = group (map f sep) (map f s).
Proof.
  induction s as [|x r IH]; [reflexivity|].
  cbn [group map]. rewrite length_map.
  destruct ((0 <? String.length r)%nat && (String.length r mod 3 =? 0)%nat);
    rewrite ?map_append, IH; reflexivity.
Qed.

Lemma all_group (p : ascii -> bool) (sep s : string) :
  all p sep = true -> all p s = true -> all p (group sep s) = true.
Proof.
  intros Hsep. induction s as [|x r IH]; [reflexivity|].
  cbn [group all]. intros [Hx Hr]%andb_prop. rewrite Hx. cbn [andb].
  destruct ((0 <? String.length r)%nat && (String.length r mod 3 =? 0)%nat);
    rewrite ?all_append, ?Hsep; auto.
Qed.

Lemma map_id_all (p : ascii -> bool) (f : ascii -> ascii) (s : string) :
  (forall c, p c = true -> f c = c) -> all p s = true -> map f s = s.
Proof.
  intros H. induction s as [|x r IH]; [reflexivity|].
  cbn [all map]. intros [Hx Hr]%andb_prop.
  rewrite (H x Hx), (IH Hr). reflexivity.
Qed.

Lemma digit_swap (c : ascii) : is_digit c = true -> swap c = c.
Proof.
  intros H. unfold swap.
  destruct (Ascii.eqb_spec c ",") as [->|_]; [discriminate H|].
  destruct (Ascii.eqb_spec c ".") as [->|_]; [discriminate H|]. reflexivity.
Qed.

Lemma digit_not_X (c : ascii) : is_digit c = true -> not_X c = true.
Proof.
  intros H. unfold not_X.
  destruct (Ascii.eqb_spec c "X") as [->|_]; [discriminate H|]. reflexivity.
Qed.

Lemma uint_digits (d : Decimal.uint) :
  all is_digit (NilEmpty.string_of_uint d) = true.
Proof. induction d; cbn [NilEmpty.string_of_uint all]; auto. Qed.

Lemma decimal_digits (n : Z) : all is_digit (decimal n) = true.
Proof.
  unfold decimal, NilZero.string_of_uint.
  destruct (N.to_uint (Z.to_N n)) eqn:E; try reflexivity;
    rewrite <- E; apply uint_digits.
Qed.

Lemma digit_char_digit (d : Z) : 0 <= d <= 9 -> is_digit (digit_char d) = true.
Proof.
  intros H.
  assert (d = 0 \/ d = 1 \/ d = 2 \/ d = 3 \/ d = 4 \/ d = 5 \/ d = 6 \/ d = 7
          \/ d = 8 \/ d = 9) as Hd by lia.
  repeat (destruct Hd as [->|Hd]; [reflexivity|]). subst d. reflexivity.
Qed.

Lemma two_digits_digits (c : Z) : all is_digit (two_digits (c mod 100)) = true.
Proof.
  pose proof (Z.mod_pos_bound c 100 ltac:(lia)) as Hb.
  unfold two_digits. cbn [all].
  rewrite !digit_char_digit; [reflexivity| |].
  - pose proof (Z.mod_pos_bound (c mod 100) 10 ltac:(lia)). lia.
  - split; [apply Z.div_pos; lia|].
    assert (c mod 100 / 10 < 10) by (apply Z.div_lt_upper_bound; lia). lia.
Qed.

(** [div_half_even n d] is an integer nearest to [n / d]. *)
Lemma div_half_even_nearest (n d : Z) :
  0 < d -> 2 * Z.abs (F64.div_half_even n d * d - n) <= d.
Proof.
  intros Hd. unfold F64.div_half_even.
  pose proof (Z.div_mod n d ltac:(lia)) as E.
  pose proof (Z.mod_pos_bound n d Hd) as Hr.
  remember (n / d) as q eqn:Eq. remember (n mod d) as r eqn:Er.
  clear Eq Er. subst n.
  assert (E0 : q * d - (d * q + r) = - r) by ring.
  assert (E1 : (q + 1) * d - (d * q + r) = d - r) by ring.
  destruct (Z.compare_spec (2 * r) d) as [C|C|C].
  - destruct (Z.even q); rewrite ?E0, ?E1; lia.
  - rewrite E0. lia.
  - rewrite E1. lia.
Qed.

(** The digits that are printed are the hundredths nearest to [|x|]. *)
Lemma cents_nearest (s : bool) (m : positive) (e : Z) :
  let c := F64.cents (S754_finite s m e) in
  if 0 <=? e then c = Zpos m * 2 ^ e * 100
  else 2 * Z.abs (c * 2 ^ (- e) - Zpos m * 100) <= 2 ^ (- e).
Proof.
  cbn [F64.cents]. destruct (Z.leb_spec 0 e); [reflexivity|].
  apply div_half_even_nearest, Z.pow_pos_nonneg; lia.
Qed.

Lemma float_comma_2f_finite (x : float) :
  F64.is_finite x = true ->
  float_comma_2f x = fixed2 (F64.sign x) (F64.cents x).
Proof. destruct x; try discriminate; reflexivity. Qed.

Ltac all_chars :=
  repeat (rewrite all_append; apply andb_true_intro; split);
  try reflexivity.

(** The three replacements turn the formatted number into the pt-BR one. *)
Lemma swap_fixed2 (neg : bool) (c : Z) :
  replace "X" "." (replace "." "," (replace "," "X" ("R$ " +:+ fixed2 neg c)))
  = currency neg c.
Proof.
  pose proof (decimal_digits (c / 100)) as Hd.
  pose proof (two_digits_digits c) as Ht.
  rewrite replace_swap.
  - unfold fixed2, currency. rewrite !map_append, map_group.
    rewrite (map_id_all is_digit swap _ digit_swap Hd).
    rewrite (map_id_all is_digit swap _ digit_swap Ht).
    destruct neg; reflexivity.
  - unfold fixed2. all_chars.
    + destruct neg; reflexivity.
    + apply all_group; [reflexivity|]. exact (all_impl _ _ _ digit_not_X Hd).
    + exact (all_impl _ _ _ digit_not_X Ht).
Qed.

Lemma br_money_never_raises (v : value) : exists t, br_money v = Ok t.
Proof.
  unfold br_money.
  destruct (format_comma_2f v) as [body|e];
    cbn [bind try_except any_exception]; eauto.
Qed.

Lemma br_money_fallback (v : value) (e : exn) :
  format_comma_2f v = Raise e -> br_money v = Ok "R$ 0,00"%string.
Proof. unfold br_money. intros ->. reflexivity. Qed.

(** C6, as amended. For every finite float, and every int that fits a
    float, [br_money] returns the prefix, a sign, the integer digits of the
    value rounded to two places in groups of three with points between, a
    comma and exactly two decimal digits; an infinity is rendered as the
    prefix and [inf] or [-inf], a NaN as the prefix and [nan]; where the
    formatting raises it returns "R$ 0,00", so it never raises; 1234.5
    gives "R$ 1.234,50". *)
Theorem br_money_finite :
  (forall x, F64.is_finite x = true ->
             br_money (VFloat x) = Ok (currency (F64.sign x) (F64.cents x)))
  /\ br_money (VFloat (S754_infinity false)) = Ok "R$ inf"%string
  /\ br_money (VFloat (S754_infinity true)) = Ok "R$ -inf"%string
  /\ br_money (VFloat S754_nan) = Ok "R$ nan"%string
  /\ (forall n x, Py.float_of_int n = Ok x ->
                  br_money (VInt n) = br_money (VFloat x))
  /\ (forall c, all is_digit (decimal (c / 100)) = true
                /\ all is_digit (two_digits (c mod 100)) = true
                /\ String.length (two_digits (c mod 100)) = 2%nat)
  /\ (forall v, exists t, br_money v = Ok t)
  /\ (forall v e, format_comma_2f v = Raise e ->
                  br_money v = Ok "R$ 0,00"%string)
  /\ br_money (VFloat (F64.of_decimal false 12345 (-1)))
     = Ok "R$ 1.234,50"%string.
Proof.
  split.
  { intros x Hx. unfold br_money. cbn [format_comma_2f bind try_except].
    rewrite (float_comma_2f_finite x Hx), swap_fixed2. reflexivity. }
  do 3 (split; [vm_compute; reflexivity|]).
  split.
  { intros n x Hn. unfold br_money. cbn [format_comma_2f].
    rewrite Hn. reflexivity. }
  split.
  { intros c. split; [apply decimal_digits|].
    split; [apply two_digits_digits|reflexivity]. }
  split; [exact br_money_never_raises|].
  split; [exact br_money_fallback|].
  vm_compute. reflexivity.
Qed.

Lemma br_money_finite_witness :
  br_money (VFloat (F64.of_Z 7)) = Ok "R$ 7,00"%string.
Proof.
  rewrite (proj1 br_money_finite (F64.of_Z 7)); [|reflexivity].
  vm_compute. reflexivity.
Defined.

(** C6, as stated, fails for an infinity: the result has the prefix and
    the text [inf], and no digit at all. *)
Lemma br_money_infinity :
  br_money (VFloat (S754_infinity false)) = Ok "R$ inf"%string
  /\ all (fun c => negb (is_digit c)) "R$ inf" = true.
Proof. split; vm_compute; reflexivity. Qed.

End BrMoney.

(** ** The handlers *)

Section Handlers.

Variables (e : env) (rq : request) (w : world).

Lemma keys_below_next_id (table : gmap Z Lead.t) (k : Z) :
  is_Some (table !! k) -> k < next_id table.
Proof.
  unfold next_id. revert k.
  apply (map_fold_weak_ind
           (fun r (m : gmap Z Lead.t) =>
              forall k, is_Some (m !! k) -> k < 1 + r)).
  - intros k [x Hx]. rewrite lookup_empty in Hx. discriminate.
  - intros i x m r _ IH k Hk.
    destruct (decide (i = k)) as [->|Hne].
    + lia.
    + rewrite lookup_insert_ne in Hk by done. specialize (IH k Hk). lia.
Qed.

Lemma next_id_fresh (table : gmap Z Lead.t) : table !! next_id table = None.
Proof.
  destruct (table !! next_id table) eqn:E; [|reflexivity].
  assert (H : next_id table < next_id table)
    by (apply keys_below_next_id; eauto).
  lia.
Qed.

(** C7. A capture submission with a blank name, phone or e-mail leaves the
    table and the session as they were, flashes the message of each blank
    field and renders the capture form again. *)
Theorem capture_rejects_blank :
  method rq = POST ->
  required_blank rq = true ->
  exists w',
    capture e rq w = (Ok (Render "lead_capture.html" no_context), w')
    /\ db_leads w' = db_leads w
    /\ db_session w' = db_session w
    /\ flashes w' = flashes w ++ field_errors rq
    /\ field_errors rq <> [].
Proof.
  intros Hm Hb. unfold capture, field_errors, required_blank in *. rewrite Hm.
  destruct (is_empty (form_field rq "name")),
    (is_empty (form_field rq "phone")), (is_empty (form_field rq "email"));
    try discriminate Hb;
    (eexists; split; [reflexivity|]); cbn;
    rewrite <- ?app_assoc; repeat split; discriminate.
Qed.

(** C9. A dashboard request leaves the table, the session and the flashed
    messages as they were, whether it renders or raises; all it does with
    the store is to look the requested lead up for the page. *)
Theorem dashboard_reads_only :
  (dashboard e rq w).2 = w
  /\ match (dashboard e rq w).1 with
     | Ok (Render _ ctx) => ctx_lead ctx = requested_lead rq w
     | Ok (Redirect _ _) => False
     | Raise _ => True
     end.
Proof.
  unfold dashboard, bindM, lift, retM, query_get, requested_lead.
  destruct (arg_lead_id rq) as [i|]; [destruct (i =? 0)|];
    destruct (method rq); cbn [fst snd]; try (split; reflexivity);
    match goal with |- context [bind ?c _] => destruct (bind c _) end;
    split; reflexivity || exact I.
Qed.

End Handlers.

Lemma capture_rejects_blank_witness :
  field_errors (funnel_request "1" "1" "1") <> [].
Proof.
  destruct (capture_rejects_blank env_up (funnel_request "1" "1" "1")
              empty_world) as (w' & _ & _ & _ & _ & H);
    [reflexivity | vm_compute; reflexivity | exact H].
Defined.

(** C8, as stated, fails when the commit does: the three fields are filled
    in, yet the form is rendered again and the table has no new row. *)
Lemma capture_commit_failure :
  required_blank filled_request = false
  /\ (capture env_down filled_request empty_world).1
     = Ok (Render "lead_capture.html" no_context)
  /\ db_leads (capture env_down filled_request empty_world).2
     = db_leads empty_world.
Proof. vm_compute. auto. Qed.

(** * Further properties of the helpers, the projection and the handlers *)

(** ** pt-BR numerals and amounts *)

Lemma lstrip_id (sp : ascii -> bool) (s : string) :
  (forall c, Chars.first s = Some c -> sp c = false) ->
  PyStr.lstrip_with sp s = s.
Proof.
  destruct s as [|x r]; [reflexivity|]. intros H.
  cbn [PyStr.lstrip_with]. rewrite (H x eq_refl). reflexivity.
Qed.

Lemma rstrip_id (sp : ascii -> bool) (s : string) :
  (forall c, Chars.last s = Some c -> sp c = false) ->
  PyStr.rstrip_with sp s = s.
Proof.
  induction s as [|x r IH]; [reflexivity|]. intros H.
  cbn [PyStr.rstrip_with]. destruct r as [|y t].
  - cbn [PyStr.rstrip_with]. rewrite (H x eq_refl). reflexivity.
  - rewrite IH; [reflexivity|]. intros c Hc. apply H. exact Hc.
Qed.

Lemma strip_strip (s : string) : PyStr.strip (PyStr.strip s) = PyStr.strip s.
Proof.
  unfold PyStr.strip at 1.
  rewrite (lstrip_id _ (PyStr.strip s)), rstrip_id; [reflexivity| |];
    intros c Hc; apply (strip_ends s c); auto.
Qed.

Ltac by_cases_on c :=
  destruct c as [[|] [|] [|] [|] [|] [|] [|] [|]];
  first [reflexivity | discriminate].

Section Numerals.

Import PyStr Chars Numeral PyFloat.

Lemma first_all (p : ascii -> bool) (s : string) (c : ascii) :
  all p s = true -> first s = Some c -> p c = true.
Proof.
  destruct s as [|x r]; [discriminate|]. cbn [all first].
  intros [Hx _]%andb_prop [= <-]. exact Hx.
Qed.

Lemma last_all (p : ascii -> bool) (s : string) (c : ascii) :
  all p s = true -> last s = Some c -> p c = true.
Proof.
  induction s as [|x r IH]; [discriminate|]. cbn [all].
  intros [Hx Hr]%andb_prop. destruct r as [|y t].
  - intros [= <-]. exact Hx.
  - intros H. exact (IH Hr H).
Qed.

Lemma take_digits_append (d rest : string) (acc cnt : Z) :
  all is_digit d = true ->
  (forall c, first rest = Some c -> is_digit c = false) ->
  take_digits acc cnt (d +:+ rest)
  = (number_from acc d, cnt + Z.of_nat (String.length d), rest).
Proof.
  intros Hd Hr. revert acc cnt. induction d as [|x r IH]; intros acc cnt.
  - cbn [String.append number_from String.length].
    rewrite Z.add_0_r. destruct rest as [|y t]; [reflexivity|].
    cbn [take_digits]. rewrite (Hr y eq_refl). reflexivity.
  - cbn [all] in Hd. apply andb_prop in Hd as [Hx Hd].
    cbn [String.append take_digits number_from String.length]. rewrite Hx.
    rewrite (IH Hd). f_equal. f_equal. lia.
Qed.

Lemma number_from_append (a b : string) (acc : Z) :
  number_from acc (a +:+ b) = number_from (number_from acc a) b.
Proof.
  revert acc. induction a as [|x r IH]; intros acc; [reflexivity|].
  cbn [String.append number_from]. apply IH.
Qed.

Lemma length_append (a b : string) :
  String.length (a +:+ b) = (String.length a + String.length b)%nat.
Proof. induction a; cbn [String.append String.length]; lia. Qed.

Lemma plain_not_space (c : ascii) : plain c = true -> is_space c = false.
Proof. by_cases_on c. Qed.

Lemma plain_not_c_space (c : ascii) : plain c = true -> is_c_space c = false.
Proof. by_cases_on c. Qed.

Lemma plain_to_ascii_space (c : ascii) : plain c = true -> to_ascii_space c = c.
Proof. by_cases_on c. Qed.

Lemma plain_not_underscore (c : ascii) :
  plain c = true -> Ascii.eqb c "_" = false.
Proof. by_cases_on c. Qed.

Lemma digit_plain (c : ascii) : is_digit c = true -> plain c = true.
Proof. by_cases_on c. Qed.

Lemma digit_separator (c : ascii) :
  is_digit c = true -> separator c = String c "".
Proof. by_cases_on c. Qed.

Lemma grouped_digit_separator (c : ascii) :
  grouped_digit c = true -> all is_digit (separator c) = true.
Proof. by_cases_on c. Qed.

Lemma digit_not_point (c : ascii) : is_digit c = true -> Ascii.eqb c "." = false.
Proof. by_cases_on c. Qed.

Lemma digit_not_sign (c : ascii) :
  is_digit c = true -> Ascii.eqb c "-" = false /\ Ascii.eqb c "+" = false.
Proof. destruct c as [[|] [|] [|] [|] [|] [|] [|] [|]]; first [split; reflexivity | discriminate]. Qed.

(** A text of plain characters goes through the spaces and underscores of
    [float] unchanged. *)
Lemma drop_underscores_plain (s : string) (prev : ascii) :
  Ascii.eqb prev "_" = false -> all plain s = true ->
  drop_underscores prev s = Some s.
Proof.
  revert prev. induction s as [|x r IH]; intros prev Hp Hs.
  - cbn [drop_underscores]. rewrite Hp. reflexivity.
  - cbn [all] in Hs. apply andb_prop in Hs as [Hx Hr].
    cbn [drop_underscores].
    rewrite (plain_not_underscore x Hx), Hp. cbn [andb].
    rewrite (IH x (plain_not_underscore x Hx) Hr). reflexivity.
Qed.

Lemma strip_with_plain (sp : ascii -> bool) (s : string) :
  (forall c, plain c = true -> sp c = false) -> all plain s = true ->
  rstrip_with sp (lstrip_with sp s) = s.
Proof.
  intros H Hs.
  rewrite (lstrip_id sp s), rstrip_id; [reflexivity| |];
    intros c Hc; apply H.
  - exact (last_all _ _ _ Hs Hc).
  - exact (first_all _ _ _ Hs Hc).
Qed.

(** What [float] does with a text of digits, points and minus signs. *)
Lemma of_str_plain (s : string) :
  all plain s = true ->
  of_str s = match parse_decimal s with
             | Some x => Ok x
             | None => match parse_inf_or_nan s with
                       | Some x => Ok x
                       | None => Raise ValueError
                       end
             end.
Proof.
  intros Hs. unfold of_str.
  rewrite (map_id_all plain to_ascii_space s plain_to_ascii_space Hs).
  rewrite (drop_underscores_plain s "000" eq_refl Hs).
  rewrite (strip_with_plain is_c_space s plain_not_c_space Hs). reflexivity.
Qed.

Lemma flat_map_separator_digits (s : string) :
  all is_digit s = true -> flat_map separator s = s.
Proof.
  induction s as [|x r IH]; [reflexivity|]. cbn [all flat_map].
  intros [Hx Hr]%andb_prop. rewrite (digit_separator x Hx), (IH Hr). reflexivity.
Qed.

Lemma digits_are_digits (s : string) :
  all grouped_digit s = true -> all is_digit (digits s) = true.
Proof.
  unfold digits. induction s as [|x r IH]; [reflexivity|]. cbn [all flat_map].
  intros [Hx Hr]%andb_prop.
  rewrite all_append, (grouped_digit_separator x Hx), (IH Hr). reflexivity.
Qed.

Lemma parse_sign_sign (neg : bool) (s : string) :
  (forall c, first s = Some c ->
             Ascii.eqb c "-" = false /\ Ascii.eqb c "+" = false) ->
  parse_sign (minus_sign neg +:+ s) = (neg, s).
Proof.
  intros H. destruct neg; [reflexivity|]. cbn [minus_sign String.append].
  destruct s as [|c r]; [reflexivity|].
  destruct (H c eq_refl) as [H1 H2]. unfold parse_sign.
  destruct c as [[|] [|] [|] [|] [|] [|] [|] [|]];
    first [reflexivity | discriminate H1 | discriminate H2].
Qed.

Lemma first_append (a b : string) (c : ascii) :
  first (a +:+ b) = Some c -> first a = Some c \/ (a = ""%string /\ first b = Some c).
Proof. destruct a; cbn [String.append first]; auto. Qed.

Lemma not_digit_point : forall c, first "."%string = Some c -> is_digit c = false.
Proof. intros c [= <-]. reflexivity. Qed.

Lemma not_digit_empty (c : ascii) : first ""%string = Some c -> is_digit c = false.
Proof. discriminate. Qed.

Lemma length_zero (s : string) : String.length s = 0%nat -> s = ""%string.
Proof. destruct s; [reflexivity|discriminate]. Qed.

(** The literal with a decimal point. *)
Lemma parse_decimal_fraction (neg : bool) (d f : string) :
  all is_digit d = true -> all is_digit f = true -> d +:+ f <> ""%string ->
  parse_decimal (minus_sign neg +:+ d +:+ "." +:+ f)
  = Some (F64.of_decimal neg (number (d +:+ f)) (- Z.of_nat (String.length f))).
Proof.
  intros Hd Hf Hne. unfold parse_decimal.
  rewrite parse_sign_sign.
  2:{ intros c Hc. apply first_append in Hc as [Hc|[_ Hc]].
      - exact (digit_not_sign c (first_all _ _ _ Hd Hc)).
      - injection Hc as <-. split; reflexivity. }
  rewrite (take_digits_append d ("." +:+ f) 0 0 Hd)
    by (intros c [= <-]; reflexivity).
  cbn [String.append].
  rewrite <- (append_nil_r f) at 1.
  rewrite (take_digits_append f "" _ 0 Hf not_digit_empty).
  rewrite !Z.add_0_l.
  destruct (Z.eqb_spec (Z.of_nat (String.length d) + Z.of_nat (String.length f)) 0)
    as [E|_].
  - exfalso. apply Hne.
    assert (String.length d = 0%nat /\ String.length f = 0%nat) as [E1 E2] by lia.
    rewrite (length_zero d E1), (length_zero f E2). reflexivity.
  - unfold number. rewrite number_from_append. reflexivity.
Qed.

(** The literal without one. *)
Lemma parse_decimal_integer (neg : bool) (d : string) :
  all is_digit d = true -> d <> ""%string ->
  parse_decimal (minus_sign neg +:+ d)
  = Some (F64.of_decimal neg (number d) 0).
Proof.
  intros Hd Hne. unfold parse_decimal.
  rewrite parse_sign_sign
    by (intros c Hc; exact (digit_not_sign c (first_all _ _ _ Hd Hc))).
  rewrite <- (append_nil_r d) at 1.
  rewrite (take_digits_append d "" 0 0 Hd not_digit_empty).
  rewrite !Z.add_0_l, Z.add_0_r.
  destruct (Z.eqb_spec (Z.of_nat (String.length d)) 0) as [E|_].
  - exfalso. apply Hne, length_zero. lia.
  - reflexivity.
Qed.

Lemma all_sign (neg : bool) : all plain (minus_sign neg) = true.
Proof. destruct neg; reflexivity. Qed.

Lemma all_digits_plain (s : string) : all is_digit s = true -> all plain s = true.
Proof. apply all_impl, digit_plain. Qed.

Lemma numeral_char_not_space (c : ascii) :
  numeral_char c = true -> is_space c = false.
Proof. by_cases_on c. Qed.

Lemma plain_numeral_char (c : ascii) : plain c = true -> numeral_char c = true.
Proof. by_cases_on c. Qed.

Lemma grouped_digit_numeral_char (c : ascii) :
  grouped_digit c = true -> numeral_char c = true.
Proof. by_cases_on c. Qed.

Lemma digit_numeral_char (c : ascii) : is_digit c = true -> numeral_char c = true.
Proof. by_cases_on c. Qed.

Lemma strip_numeral (s : string) :
  all numeral_char s = true -> strip s = s.
Proof.
  intros Hs. unfold strip.
  rewrite (lstrip_id is_space s), rstrip_id; [reflexivity| |];
    intros c Hc; apply numeral_char_not_space.
  - exact (last_all _ _ _ Hs Hc).
  - exact (first_all _ _ _ Hs Hc).
Qed.

Lemma blank_numeral (s : string) :
  all numeral_char s = true -> s <> ""%string -> blank s = false.
Proof.
  destruct s as [|c r]; [congruence|]. cbn [all]. unfold blank. cbn [all].
  intros [Hc _]%andb_prop _. rewrite (numeral_char_not_space c Hc). reflexivity.
Qed.

Lemma flat_map_separator_sign (neg : bool) :
  flat_map separator (minus_sign neg) = minus_sign neg.
Proof. destruct neg; reflexivity. Qed.

Lemma append_not_empty_r (a b : string) : b <> ""%string -> a +:+ b <> ""%string.
Proof. destruct a, b; cbn [String.append]; congruence. Qed.

(** [parse_num] on a numeral with a decimal comma. *)
Lemma parse_num_fraction (neg : bool) (ip fp : string) :
  all grouped_digit ip = true -> all is_digit fp = true ->
  digits ip +:+ fp <> ""%string ->
  parse_num (Some (minus_sign neg +:+ ip +:+ "," +:+ fp))
  = Ok (F64.of_decimal neg (number (digits ip +:+ fp))
          (- Z.of_nat (String.length fp))).
Proof.
  intros Hi Hf Hne. rewrite parse_num_some.
  assert (Hall : all numeral_char (minus_sign neg +:+ ip +:+ "," +:+ fp) = true).
  { rewrite !all_append.
    rewrite (all_impl _ _ _ plain_numeral_char (all_sign neg)).
    rewrite (all_impl _ _ _ grouped_digit_numeral_char Hi).
    rewrite (all_impl _ _ _ digit_numeral_char Hf). reflexivity. }
  rewrite blank_numeral; [|exact Hall|].
  2:{ apply append_not_empty_r, append_not_empty_r. discriminate. }
  rewrite (strip_numeral _ Hall), !flat_map_append, flat_map_separator_sign.
  rewrite (flat_map_separator_digits fp Hf).
  change (flat_map separator ",") with "."%string.
  fold (digits ip).
  pose proof (digits_are_digits ip Hi) as Hd.
  rewrite of_str_plain.
  - rewrite (parse_decimal_fraction neg (digits ip) fp Hd Hf Hne). reflexivity.
  - rewrite !all_append, all_sign, (all_digits_plain _ Hd), (all_digits_plain _ Hf).
    reflexivity.
Qed.

(** [parse_num] on a numeral without one. *)
Lemma parse_num_integer (neg : bool) (ip : string) :
  all grouped_digit ip = true -> digits ip <> ""%string ->
  parse_num (Some (minus_sign neg +:+ ip))
  = Ok (F64.of_decimal neg (number (digits ip)) 0).
Proof.
  intros Hi Hne. rewrite parse_num_some.
  assert (Hall : all numeral_char (minus_sign neg +:+ ip) = true).
  { rewrite !all_append.
    rewrite (all_impl _ _ _ plain_numeral_char (all_sign neg)).
    rewrite (all_impl _ _ _ grouped_digit_numeral_char Hi). reflexivity. }
  assert (Hip : ip <> ""%string) by (intros ->; apply Hne; reflexivity).
  rewrite blank_numeral; [|exact Hall|apply append_not_empty_r, Hip].
  rewrite (strip_numeral _ Hall), !flat_map_append, flat_map_separator_sign.
  fold (digits ip).
  pose proof (digits_are_digits ip Hi) as Hd.
  rewrite of_str_plain.
  - rewrite (parse_decimal_integer neg (digits ip) Hd Hne). reflexivity.
  - rewrite !all_append, all_sign, (all_digits_plain _ Hd). reflexivity.
Qed.

End Numerals.

Section MoneyRoundTrip.

Import PyStr Chars Numeral PyFloat PyFormat.

Lemma number_from_uint (d : Decimal.uint) (acc : positive) :
  number_from (Zpos acc) (NilEmpty.string_of_uint d)
  = Zpos (Pos.of_uint_acc d acc).
Proof.
  revert acc. induction d; intros acc;
    cbn [NilEmpty.string_of_uint number_from Pos.of_uint_acc];
    [reflexivity|..]; rewrite <- IHd; f_equal;
    match goal with
    | |- context [digit_value ?c] =>
        let v := eval vm_compute in (digit_value c) in
        change (digit_value c) with v
    end; lia.
Qed.

Lemma number_uint (d : Decimal.uint) :
  number (NilEmpty.string_of_uint d) = Z.of_N (Pos.of_uint d).
Proof.
  unfold number. induction d;
    cbn [NilEmpty.string_of_uint number_from Pos.of_uint];
    [reflexivity|exact IHd|..]; apply number_from_uint.
Qed.

Lemma number_decimal (n : Z) : 0 <= n -> number (decimal n) = n.
Proof.
  intros Hn. unfold decimal, NilZero.string_of_uint.
  transitivity (Z.of_N (Pos.of_uint (N.to_uint (Z.to_N n)))).
  - destruct (N.to_uint (Z.to_N n)) eqn:E; try (rewrite <- E; apply number_uint).
    reflexivity.
  - change (Pos.of_uint (N.to_uint (Z.to_N n)))
      with (N.of_uint (N.to_uint (Z.to_N n))).
    rewrite DecimalN.Unsigned.of_to. lia.
Qed.

Lemma digit_value_char (d : Z) :
  0 <= d <= 9 -> digit_value (digit_char d) = d.
Proof.
  intros H.
  assert (d = 0 \/ d = 1 \/ d = 2 \/ d = 3 \/ d = 4 \/ d = 5 \/ d = 6 \/ d = 7
          \/ d = 8 \/ d = 9) as Hd by lia.
  repeat (destruct Hd as [->|Hd]; [reflexivity|]). subst d. reflexivity.
Qed.

Lemma number_two_digits (acc r : Z) :
  0 <= r < 100 -> number_from acc (two_digits r) = 100 * acc + r.
Proof.
  intros Hr. unfold two_digits. cbn [number_from].
  assert (0 <= r / 10 <= 9).
  { split; [apply Z.div_pos; lia|].
    assert (r / 10 < 10) by (apply Z.div_lt_upper_bound; lia). lia. }
  pose proof (Z.mod_pos_bound r 10 ltac:(lia)).
  rewrite !digit_value_char by lia.
  pose proof (Z.div_mod r 10 ltac:(lia)). lia.
Qed.

Lemma digits_group (s : string) :
  all is_digit s = true -> digits (group "." s) = s.
Proof.
  unfold digits. induction s as [|x r IH]; [reflexivity|].
  cbn [all group]. intros [Hx Hr]%andb_prop.
  cbn [flat_map]. rewrite (digit_separator x Hx).
  destruct ((0 <? String.length r)%nat && (String.length r mod 3 =? 0)%nat);
    [rewrite flat_map_append|]; rewrite (IH Hr); reflexivity.
Qed.

Lemma digit_grouped (c : ascii) : is_digit c = true -> grouped_digit c = true.
Proof. by_cases_on c. Qed.

Lemma cents_nonneg (x : float) : 0 <= F64.cents x.
Proof.
  destruct x as [s|s| |s m e]; cbn [F64.cents]; try lia.
  destruct (Z.leb_spec 0 e);
    [pose proof (Z.pow_nonneg 2 e ltac:(lia)); nia|].
  destruct (Z.le_gt_cases 2 (2 ^ (- e))) as [H2|H2].
  - apply div_half_even_bounds; lia.
  - unfold F64.div_half_even.
    assert (0 < 2 ^ (- e)) by (apply Z.pow_pos_nonneg; lia).
    assert (0 <= Zpos m * 100 / 2 ^ (- e)) by (apply Z.div_pos; lia).
    destruct (_ ?= _); [destruct (Z.even _)| |]; lia.
Qed.

(** What [parse_num] reads in the amount that [br_money] writes. *)
Lemma parse_num_amount (neg : bool) (c : Z) :
  0 <= c -> parse_num (Some (amount neg c)) = Ok (F64.of_decimal neg c (-2)).
Proof.
  intros Hc. unfold amount.
  pose proof (decimal_digits (c / 100)) as Hd.
  pose proof (two_digits_digits c) as Ht.
  assert (Hq : 0 <= c / 100) by (apply Z.div_pos; lia).
  rewrite parse_num_fraction.
  - rewrite (digits_group _ Hd). unfold number.
    rewrite number_from_append. fold (number (decimal (c / 100))).
    rewrite (number_decimal _ Hq), number_two_digits
      by (apply Z.mod_pos_bound; lia).
    rewrite <- (Z.div_mod c 100) by lia. reflexivity.
  - apply all_group; [reflexivity|]. exact (all_impl _ _ _ digit_grouped Hd).
  - exact Ht.
  - apply append_not_empty_r. discriminate.
Qed.

Lemma br_money_amount (x : float) :
  F64.is_finite x = true ->
  br_money (VFloat x) = Ok ("R$ " +:+ amount (F64.sign x) (F64.cents x)).
Proof.
  intros Hx. unfold br_money. cbn [format_comma_2f bind try_except].
  rewrite (float_comma_2f_finite x Hx), swap_fixed2. reflexivity.
Qed.

Lemma round2_of_decimal (x : float) :
  F64.valid x = true -> F64.is_finite x = true ->
  Py.round2 x = Ok (F64.of_decimal (F64.sign x) (F64.cents x) (-2)).
Proof.
  intros Hv Hf. destruct (round2_total x (valid_bounded x Hv)) as (y & Hy & _).
  destruct x as [s|s| |s m e]; try discriminate Hf; [reflexivity|].
  cbn [Py.round2 F64.sign] in *.
  destruct (F64.of_decimal s _ _); try discriminate Hy; reflexivity.
Qed.

End MoneyRoundTrip.

Section MoneyPrefix.

Import PyStr Chars Numeral PyFloat PyFormat.

Lemma rstrip_head (sp : ascii -> bool) (c : ascii) (r : string) :
  sp c = false -> exists r', rstrip_with sp (String c r) = String c r'.
Proof.
  intros Hc. cbn [rstrip_with]. destruct (rstrip_with sp r); rewrite ?Hc; eauto.
Qed.

(** [float] accepts no text that begins with the letter R. *)
Lemma of_str_R (s : string) : of_str (String "R" s) = Raise ValueError.
Proof.
  unfold of_str. cbn [map]. change (to_ascii_space "R") with "R"%char.
  cbn [drop_underscores]. change (Ascii.eqb "R" "_") with false.
  change (Ascii.eqb "000" "_" && negb (is_digit "R")) with false. cbv iota.
  destruct (drop_underscores "R" (map to_ascii_space s)) as [s1|];
    [|reflexivity].
  cbn [option_map lstrip_with]. change (is_c_space "R") with false. cbv iota.
  destruct (rstrip_head is_c_space "R" s1 eq_refl) as (s2 & ->).
  reflexivity.
Qed.

Lemma parse_num_R (s : string) : parse_num (Some (String "R" s)) = Ok f0.
Proof.
  rewrite parse_num_some. unfold blank. cbn [all].
  change (is_space "R") with false. cbn [andb].
  unfold strip. cbn [lstrip_with]. change (is_space "R") with false. cbv iota.
  destruct (rstrip_head is_space "R" s eq_refl) as (s' & ->).
  cbn [flat_map]. change (separator "R") with "R"%string.
  cbn [String.append]. rewrite of_str_R. reflexivity.
Qed.

Lemma br_money_prefix (v : value) :
  exists t, br_money v = Ok ("R$ " +:+ t).
Proof.
  assert (Hx : forall x, exists t, br_money (VFloat x) = Ok ("R$ " +:+ t)).
  { intros x. destruct (F64.is_finite x) eqn:Hf.
    - rewrite (br_money_amount x Hf). eauto.
    - destruct x as [s|[|]| |s m e]; try discriminate Hf; eexists;
        vm_compute; reflexivity. }
  destruct v as [|n|x|s].
  - exists "0,00"%string. reflexivity.
  - unfold br_money. cbn [format_comma_2f].
    destruct (Py.float_of_int n) as [x|e] eqn:E; cbn [bind].
    + exact (Hx x).
    + exists "0,00"%string. reflexivity.
  - exact (Hx x).
  - exists "0,00"%string. reflexivity.
Qed.

End MoneyPrefix.

Section MoneyTheorems.

Import PyStr Chars Numeral PyFloat PyFormat.

(** X5. On a pt-BR numeral, written with an optional minus sign, digits
    with points anywhere among them and a decimal comma before further
    digits, [parse_num] returns the float nearest to the number that the
    digits write, the comma read as the decimal point; without the comma
    it returns the float nearest to the integer. *)
Theorem parse_num_reads_numeral (neg : bool) (ip fp : string) :
  all grouped_digit ip = true -> all is_digit fp = true ->
  digits ip +:+ fp <> ""%string ->
  parse_num (Some (minus_sign neg +:+ ip +:+ "," +:+ fp))
  = Ok (F64.of_decimal neg (number (digits ip +:+ fp))
          (- Z.of_nat (String.length fp)))
  /\ (digits ip <> ""%string ->
      parse_num (Some (minus_sign neg +:+ ip))
      = Ok (F64.of_decimal neg (number (digits ip)) 0)).
Proof.
  intros Hi Hf Hne. split.
  - exact (parse_num_fraction neg ip fp Hi Hf Hne).
  - exact (parse_num_integer neg ip Hi).
Qed.

(** X6. [parse_num] reads the amount that [br_money] writes for a finite
    float, once the prefix is taken off, as that float rounded to two
    places. *)
Theorem parse_num_inverts_br_money (x : float) (t : string) :
  F64.valid x = true -> F64.is_finite x = true ->
  br_money (VFloat x) = Ok ("R$ " +:+ t) ->
  parse_num (Some t) = Py.round2 x.
Proof.
  intros Hv Hf Ht. rewrite (br_money_amount x Hf) in Ht.
  injection Ht as <-.
  rewrite (parse_num_amount _ _ (cents_nonneg x)).
  symmetry. exact (round2_of_decimal x Hv Hf).
Qed.

(** X7. Every text that [br_money] returns begins with the prefix, and
    with the prefix on [parse_num] reads it as 0.0, whatever the value. *)
Theorem parse_num_rejects_prefix (v : value) :
  exists t,
    br_money v = Ok ("R$ " +:+ t)
    /\ parse_num (Some ("R$ " +:+ t)) = Ok f0.
Proof.
  destruct (br_money_prefix v) as (t & Ht). exists t.
  split; [exact Ht|]. apply parse_num_R.
Qed.

End MoneyTheorems.

(** ** Configuration, [Lead.__repr__] and padding *)

Section Config.

Lemma truthy_or (x y : option string) :
  truthy (py_or x y) = truthy x || truthy y.
Proof. unfold py_or. destruct (truthy x) eqn:E; [exact E|reflexivity]. Qed.

Lemma sqlite_tmp :
  "sqlite:///" +:+ Os.path_join "/tmp" "local.db"
  = "sqlite:////tmp/local.db"%string.
Proof. reflexivity. Qed.

(** X13. The database URI is never empty: it is [DATABASE_URL] when that
    is set to something, and otherwise one of the two SQLite files, the
    one under [/tmp] exactly when [VERCEL_ENV] or [VERCEL] is set to
    something; a variable set to the empty text counts as unset here,
    whereas an empty [SECRET_KEY] is kept and only a missing one gives
    the default. *)
Theorem configure_database_uri (environ : gmap string string) :
  sqlalchemy_database_uri (configure environ) <> ""%string
  /\ (truthy (environ !! "DATABASE_URL") = true ->
      environ !! "DATABASE_URL"
      = Some (sqlalchemy_database_uri (configure environ)))
  /\ (truthy (environ !! "DATABASE_URL") = false ->
      sqlalchemy_database_uri (configure environ)
      = if on_vercel environ then "sqlite:////tmp/local.db"%string
        else "sqlite:///local.db"%string)
  /\ (secret_key (configure environ) = ""%string
      <-> environ !! "SECRET_KEY" = Some ""%string).
Proof.
  unfold configure, on_vercel, Os.getenv, Os.getenv_or.
  cbn [sqlalchemy_database_uri secret_key]. rewrite truthy_or, sqlite_tmp.
  split; [|split; [|split]].
  - destruct (truthy (environ !! "DATABASE_URL")) eqn:Hd; cbn [negb].
    + destruct (environ !! "DATABASE_URL") as [[|c u]|];
        try discriminate Hd. discriminate.
    + destruct (_ || _); discriminate.
  - intros H. rewrite H. cbn [negb].
    destruct (environ !! "DATABASE_URL"); [reflexivity|discriminate].
  - intros H. rewrite H. reflexivity.
  - destruct (environ !! "SECRET_KEY") as [k|]; simpl.
    + split; [intros ->; reflexivity|intros [= ->]; reflexivity].
    + split; discriminate.
Qed.

End Config.

Section Repr.

Import PyStr Chars Numeral PyFormat.

Lemma append_inj_l (a b c : string) : a +:+ c = b +:+ c -> a = b.
Proof.
  revert b. induction a as [|x a IH]; intros [|y b]; cbn [String.append].
  - reflexivity.
  - intros H. apply (f_equal String.length) in H.
    cbn [String.length] in H. rewrite length_append in H. lia.
  - intros H. apply (f_equal String.length) in H.
    cbn [String.length] in H. rewrite length_append in H. lia.
  - intros [= -> H]. f_equal. exact (IH _ H).
Qed.

(** Two texts without blanks that are followed by a blank are told apart
    by what comes up to the blank. *)
Lemma split_at_blank (a b r t : string) :
  all no_blank a = true -> all no_blank b = true ->
  a +:+ String " " r = b +:+ String " " t -> a = b /\ r = t.
Proof.
  revert b. induction a as [|x a IH]; intros [|y b] Ha Hb;
    cbn [String.append all] in *.
  - intros [= ->]. auto.
  - intros [= <- _]. discriminate Hb.
  - intros [= -> _]. discriminate Ha.
  - apply andb_prop in Ha as [_ Ha]. apply andb_prop in Hb as [_ Hb].
    intros [= -> H]. destruct (IH b Ha Hb H) as [-> ->]. auto.
Qed.

Lemma digit_no_blank (c : ascii) : is_digit c = true -> no_blank c = true.
Proof. by_cases_on c. Qed.

Lemma str_int_no_blank (n : Z) : all no_blank (str_int n) = true.
Proof.
  unfold str_int. rewrite all_append.
  rewrite (all_impl _ _ _ digit_no_blank (decimal_digits _)).
  destruct (n <? 0); reflexivity.
Qed.

Lemma decimal_head (n : Z) :
  exists c r, decimal n = String c r /\ is_digit c = true.
Proof.
  pose proof (decimal_digits n) as H. unfold decimal, NilZero.string_of_uint in *.
  destruct (N.to_uint (Z.to_N n)) eqn:E;
    [exists "0"%char, ""%string; auto|..];
    cbn [NilEmpty.string_of_uint all] in *;
    eexists _, _; (split; [reflexivity|reflexivity]).
Qed.

Lemma str_int_inj (n m : Z) : str_int n = str_int m -> n = m.
Proof.
  unfold str_int. intros H.
  destruct (decimal_head (Z.abs n)) as (c1 & r1 & E1 & D1).
  destruct (decimal_head (Z.abs m)) as (c2 & r2 & E2 & D2).
  assert (Habs : forall a b, decimal (Z.abs a) = decimal (Z.abs b) ->
                             Z.abs a = Z.abs b).
  { intros a b E. rewrite <- (number_decimal (Z.abs a)) by lia.
    rewrite <- (number_decimal (Z.abs b)) by lia. rewrite E. reflexivity. }
  destruct (Z.ltb_spec n 0), (Z.ltb_spec m 0); cbn [String.append] in H.
  - injection H as H. apply Habs in H. lia.
  - rewrite E2 in H. injection H as <- _. discriminate D2.
  - rewrite E1 in H. injection H as -> _. discriminate D1.
  - apply Habs in H. lia.
Qed.

Lemma str_id_no_blank (i : option Z) : all no_blank (str_id i) = true.
Proof. destruct i; [apply str_int_no_blank|reflexivity]. Qed.

Lemma str_id_inj (i j : option Z) : str_id i = str_id j -> i = j.
Proof.
  destruct i as [n|], j as [m|]; cbn [str_id].
  - intros H. f_equal. exact (str_int_inj _ _ H).
  - unfold str_int. destruct (decimal_head (Z.abs n)) as (c & r & -> & D).
    destruct (n <? 0); cbn [String.append]; intros [= -> _]; discriminate D.
  - unfold str_int. destruct (decimal_head (Z.abs m)) as (c & r & -> & D).
    destruct (m <? 0); cbn [String.append]; intros [= <- _]; discriminate D.
  - reflexivity.
Qed.

(** X14. The text that [Lead.__repr__] returns tells the key and the
    name: two leads with the same text have the same key, or both none
    yet, and the same name. *)
Theorem lead_repr_injective (i j : option Z) (n m : string) :
  lead_repr i n = lead_repr j m -> i = j /\ n = m.
Proof.
  unfold lead_repr. cbn [String.append]. intros [= H].
  change (String " " (String "-" (String " " (n +:+ ">"))))
    with (String " " ("- " +:+ n +:+ ">")) in H.
  change (String " " (String "-" (String " " (m +:+ ">"))))
    with (String " " ("- " +:+ m +:+ ">")) in H.
  revert H.
  change (str_id i +:+ " - " +:+ n +:+ ">")
    with (str_id i +:+ String " " ("- " +:+ n +:+ ">")).
  change (str_id j +:+ " - " +:+ m +:+ ">")
    with (str_id j +:+ String " " ("- " +:+ m +:+ ">")).
  intros H.
  destruct (split_at_blank _ _ _ _ (str_id_no_blank i) (str_id_no_blank j) H)
    as [Hi Hn].
  split; [exact (str_id_inj _ _ Hi)|].
  cbn [String.append] in Hn. injection Hn as Hn. exact (append_inj_l _ _ _ Hn).
Qed.

End Repr.

Section Padding.

Import PyStr Chars.

Lemma lstrip_blank_prefix (sp : ascii -> bool) (l s : string) :
  all sp l = true -> lstrip_with sp (l +:+ s) = lstrip_with sp s.
Proof.
  induction l as [|x l IH]; [reflexivity|]. cbn [all String.append lstrip_with].
  intros [Hx Hl]%andb_prop. rewrite Hx. exact (IH Hl).
Qed.

Lemma rstrip_blank_suffix (sp : ascii -> bool) (s r : string) :
  all sp r = true -> rstrip_with sp (s +:+ r) = rstrip_with sp s.
Proof.
  intros Hr. induction s as [|x s IH].
  - cbn [String.append rstrip_with]. apply rstrip_all, Hr.
  - cbn [String.append rstrip_with]. rewrite IH. reflexivity.
Qed.

Lemma lstrip_all (sp : ascii -> bool) (s : string) :
  all sp s = true -> lstrip_with sp s = ""%string.
Proof.
  induction s as [|x s IH]; [reflexivity|]. cbn [all lstrip_with].
  intros [Hx Hs]%andb_prop. rewrite Hx. exact (IH Hs).
Qed.

Lemma strip_suffix (sp : ascii -> bool) (s r : string) :
  all sp r = true ->
  rstrip_with sp (lstrip_with sp (s +:+ r)) = rstrip_with sp (lstrip_with sp s).
Proof.
  intros Hr. induction s as [|x s IH].
  - cbn [String.append lstrip_with rstrip_with].
    rewrite (lstrip_all sp r Hr). reflexivity.
  - cbn [String.append lstrip_with]. destruct (sp x); [exact IH|].
    change (String x (s +:+ r)) with (String x s +:+ r).
    apply rstrip_blank_suffix, Hr.
Qed.

Lemma strip_padding (l s r : string) :
  blank l = true -> blank r = true -> strip (l +:+ s +:+ r) = strip s.
Proof.
  intros Hl Hr. unfold strip, blank in *.
  rewrite (lstrip_blank_prefix _ _ _ Hl). apply strip_suffix, Hr.
Qed.

(** X15. White space around the text of a field never changes what
    [parse_num] returns. *)
Theorem parse_num_ignores_padding (l s r : string) :
  blank l = true -> blank r = true ->
  parse_num (Some (l +:+ s +:+ r)) = parse_num (Some s).
Proof.
  intros Hl Hr. unfold parse_num. rewrite (strip_padding l s r Hl Hr).
  reflexivity.
Qed.

End Padding.

(** ** Guards and head counts of the projection *)

Section Ratios.

Variables inv cpl pa pc pv tk : float.

(** Every step of the projection, read back from its result. *)
Lemma project_funnel_steps (r : resultados) :
  project_funnel inv cpl pa pc pv tk = Ok r ->
  exists receita0 cac0 roas0 cpc0 rpl0,
    funnel_counts inv cpl pa pc pv
    = Ok (leads r, agendamentos r, comparecimentos r, vendas r)
    /\ Py.int_mul_float (vendas r) tk = Ok receita0
    /\ (if 0 <? vendas r then Py.float_truediv_int inv (vendas r) else Ok f0)
       = Ok cac0
    /\ (if Py.float_gt_0 inv then Py.float_truediv receita0 inv else Ok f0)
       = Ok roas0
    /\ (if 0 <? comparecimentos r
        then Py.float_truediv_int inv (comparecimentos r) else Ok f0)
       = Ok cpc0
    /\ headcount (comparecimentos r) 180 = Ok (sdrs r)
    /\ headcount (vendas r) 120 = Ok (closers r)
    /\ (if 0 <? leads r
        then (let* q := Py.int_truediv (vendas r) (leads r) in
              let* p := Py.float_mul_int q 100 in
              Py.round2 p)
        else Ok f0) = Ok (taxa_total_funil r)
    /\ (if 0 <? leads r
        then (let* q := Py.float_truediv_int receita0 (leads r) in Py.round2 q)
        else Ok f0) = Ok rpl0
    /\ Py.round2 receita0 = Ok (receita r)
    /\ Py.round2 roas0 = Ok (roas r)
    /\ Py.round2 cac0 = Ok (cac r)
    /\ Py.round2 cpc0 = Ok (custo_por_call r)
    /\ Py.round2 rpl0 = Ok (retorno_por_lead r)
    /\ Py.round2 (F64.sub receita0 inv) = Ok (lucro r).
Proof.
  unfold project_funnel.
  destruct (funnel_counts _ _ _ _ _) as [[[[l a] c] v]|e]; cbn [bind];
    [|discriminate].
  repeat (step_bind; [|discriminate]).
  intros [= <-]. cbn [leads agendamentos comparecimentos vendas receita roas
                        cac custo_por_call sdrs closers taxa_total_funil
                        retorno_por_lead lucro].
  do 5 eexists. repeat split; eassumption.
Qed.

End Ratios.

Section Guards.

Variables inv cpl pa pc pv tk : float.

Lemma headcount_nonpos (n cap h : Z) :
  2 <= cap -> Zdigits2 cap <= 1000 -> F64.representable n -> n <= 0 ->
  headcount n cap = Ok h -> h = 1.
Proof.
  intros Hc Hd Hn Hle H.
  rewrite (headcount_exact n cap Hc Hd Hn) in H
    by (pose proof (Z.pow_pos_nonneg 2 52); lia).
  injection H as <-.
  assert (Spec.ceil_div n cap <= 0).
  { unfold Spec.ceil_div.
    pose proof (Z.div_pos (- n) cap ltac:(lia) ltac:(lia)). lia. }
  lia.
Qed.

(** X8. Whenever the projection returns, each ratio whose guard fails is
    0.0 after its rounding, and the head count of a stage without a
    positive count is 1: no sale, no cost per sale and one closer; no
    attendance, no cost per call and one scheduler; no lead, no funnel
    rate and no return per lead; no positive investment, no return on
    it. *)
Theorem ratios_default_to_zero (r : resultados) :
  project_funnel inv cpl pa pc pv tk = Ok r ->
  (vendas r <= 0 -> cac r = f0 /\ closers r = 1)
  /\ (comparecimentos r <= 0 -> custo_por_call r = f0 /\ sdrs r = 1)
  /\ (leads r <= 0 -> taxa_total_funil r = f0 /\ retorno_por_lead r = f0)
  /\ (Py.float_gt_0 inv = false -> roas r = f0).
Proof.
  intros H.
  destruct (project_funnel_steps _ _ _ _ _ _ r H)
    as (rec & cac0 & roas0 & cpc0 & rpl0 & Hcounts & _ & Hcac & Hroas & Hcpc
        & Hs & Hc & Httf & Hrpl & _ & Rroas & Rcac & Rcpc & Rrpl & _).
  apply funnel_counts_representable in Hcounts as (_ & _ & Rc & Rv).
  split; [|split; [|split]].
  - intros Hle. split.
    + destruct (Z.ltb_spec 0 (vendas r)); [lia|].
      injection Hcac as <-. injection Rcac as <-. reflexivity.
    + exact (headcount_nonpos _ 120 _ ltac:(lia) ltac:(simpl; lia) Rv Hle Hc).
  - intros Hle. split.
    + destruct (Z.ltb_spec 0 (comparecimentos r)); [lia|].
      injection Hcpc as <-. injection Rcpc as <-. reflexivity.
    + exact (headcount_nonpos _ 180 _ ltac:(lia) ltac:(simpl; lia) Rc Hle Hs).
  - intros Hle. destruct (Z.ltb_spec 0 (leads r)); [lia|]. split.
    + injection Httf as <-. reflexivity.
    + injection Hrpl as <-. injection Rrpl as <-. reflexivity.
  - intros Hg. rewrite Hg in Hroas.
    injection Hroas as <-. injection Rroas as <-. reflexivity.
Qed.

Lemma ceil_div_covers (n d : Z) :
  0 < d -> n <= d * Spec.ceil_div n d /\ d * (Spec.ceil_div n d - 1) < n.
Proof.
  intros Hd. unfold Spec.ceil_div.
  pose proof (Z.div_mod (- n) d ltac:(lia)).
  pose proof (Z.mod_pos_bound (- n) d Hd). lia.
Qed.

(** X9. For counts below [2 ^ 52] the head counts suffice and are the
    least that do: 180 attendances for each scheduler and 120 sales for
    each closer cover the count, and with one fewer, where more than one
    is needed, they would not. *)
Theorem staffing_covers_demand (r : resultados) :
  project_funnel inv cpl pa pc pv tk = Ok r ->
  (comparecimentos r < 2 ^ 52 ->
   comparecimentos r <= 180 * sdrs r
   /\ (1 < sdrs r -> 180 * (sdrs r - 1) < comparecimentos r))
  /\ (vendas r < 2 ^ 52 ->
      vendas r <= 120 * closers r
      /\ (1 < closers r -> 120 * (closers r - 1) < vendas r)).
Proof.
  intros H.
  destruct (project_funnel_steps _ _ _ _ _ _ r H)
    as (rec & cac0 & roas0 & cpc0 & rpl0 & Hcounts & _ & _ & _ & _
        & Hs & Hc & _).
  apply funnel_counts_representable in Hcounts as (_ & _ & Rc & Rv).
  split; intros Hlt.
  - rewrite (headcount_exact _ 180 ltac:(lia) ltac:(simpl; lia) Rc Hlt) in Hs.
    injection Hs as Hs.
    pose proof (ceil_div_covers (comparecimentos r) 180 ltac:(lia)). lia.
  - rewrite (headcount_exact _ 120 ltac:(lia) ltac:(simpl; lia) Rv Hlt) in Hc.
    injection Hc as Hc.
    pose proof (ceil_div_covers (vendas r) 120 ltac:(lia)). lia.
Qed.

End Guards.

(** X10. A dashboard request that names no lead fails exactly when it is
    a [POST] whose count stages fail on the six parsed fields, with the
    exception they raise, which is an [OverflowError] or a [ValueError]:
    no field, however malformed, and no division makes it fail. *)
Theorem dashboard_fails_at_counts (e : env) (rq : request) (w : world)
    (ex : exn) :
  no_lead_requested rq = true ->
  ((dashboard e rq w).1 = Raise ex
   <-> method rq = POST /\ parsed_counts rq = Raise ex)
  /\ ((dashboard e rq w).1 = Raise ex ->
      ex = OverflowError \/ ex = ValueError).
Proof.
  intros Hno.
  assert (Hiff : (dashboard e rq w).1 = Raise ex
                 <-> method rq = POST /\ parsed_counts rq = Raise ex).
  { destruct (method rq) eqn:Hm.
    - split; [|intros [? _]; discriminate].
      unfold dashboard, bindM, retM. rewrite Hm.
      unfold no_lead_requested in Hno.
      destruct (arg_lead_id rq) as [i|]; [rewrite Hno|]; discriminate.
    - rewrite (dashboard_post e rq w Hm). unfold parsed_counts.
      pose proof (proj2 (parse_num_total (form rq !! "investimento"))) as Hb.
      fold (field_value rq "investimento") in Hb.
      destruct (project_funnel _ _ _ _ _ _) as [r|e1] eqn:Hp; cbn [bind].
      + split; [discriminate|]. intros [_ Hc].
        unfold project_funnel in Hp. rewrite Hc in Hp. discriminate.
      + destruct (project_funnel_raises _ _ _ _ _ _ _ Hb Hp) as [Hc _].
        split.
        * intros [= <-]. auto.
        * intros [_ Hc']. congruence. }
  split; [exact Hiff|].
  intros H. apply Hiff in H as [_ H].
  exact (funnel_counts_raises _ _ _ _ _ _ H).
Qed.

(** ** Rounding below a bound *)

Section Bounds.

Import Bound.

Lemma loc_of_record_of_loc (m : Z) (l : location) :
  loc_of_shr_record (shr_record_of_loc m l) = l.
Proof. destruct l as [|[]]; reflexivity. Qed.

Lemma shr_fexp_idle (m e : Z) (l : location) :
  F64.shift_of m e <= 0 ->
  shr_fexp F64.prec F64.emax m e l = (shr_record_of_loc m l, e).
Proof.
  intros Hk. unfold shr_fexp. fold (F64.fexp (Zdigits2 m + e)).
  fold (F64.shift_of m e).
  destruct (F64.shift_of m e) as [|p|p]; try lia; reflexivity.
Qed.

Lemma pow2_pos (k : Z) : 0 <= k -> 0 < 2 ^ k.
Proof. intros. apply Z.pow_pos_nonneg; lia. Qed.

(** What the first shift and the rounding to nearest leave, against a
    bound [U] that is a multiple of what is shifted out. *)
Lemma round_first_le (m e U : Z) (l : location) :
  0 <= m -> m <= U -> (l <> loc_Exact -> m + 1 <= U) ->
  (0 < F64.shift_of m e -> exists u, U = u * 2 ^ F64.shift_of m e) ->
  let r1 := shr_fexp F64.prec F64.emax m e l in
  let m1 := round_nearest_even (shr_m (fst r1)) (loc_of_shr_record (fst r1)) in
  let k0 := Z.max (F64.shift_of m e) 0 in
  snd r1 = e + k0 /\ 0 <= m1 /\ m1 * 2 ^ k0 <= U.
Proof.
  intros Hm HU Hl Hdiv r1 m1 k0.
  pose proof (round_nearest_even_bounds (shr_m (fst r1))
                (loc_of_shr_record (fst r1))) as Hb. fold m1 in Hb.
  destruct (Z.ltb_spec 0 (F64.shift_of m e)) as [Hk|Hk].
  - destruct (Hdiv Hk) as (u & Eu).
    set (k := F64.shift_of m e) in *.
    assert (Ek0 : k0 = k) by (unfold k0; lia). rewrite Ek0.
    pose proof (pow2_pos k ltac:(lia)) as Hp.
    assert (E1 : shr_m (fst r1) = m / 2 ^ k).
    { unfold r1. rewrite shr_fexp_m by exact Hm. fold k.
      destruct (Z.ltb_spec 0 k); [reflexivity|lia]. }
    assert (Ee : snd r1 = e + k).
    { unfold r1. rewrite shr_fexp_e by exact Hm. fold k.
      destruct (Z.ltb_spec 0 k); [reflexivity|lia]. }
    pose proof (div_pow2_nonneg m k Hm) as Hq.
    split; [exact Ee|]. split; [lia|].
    enough (m1 <= u) by (subst U; apply Z.mul_le_mono_nonneg_r; lia).
    destruct (Z.eq_dec (m mod 2 ^ k) 0) as [Hr|Hr].
    + destruct l as [|c].
      * (* nothing is lost: the quotient is kept *)
        assert (Em : m = m / 2 ^ k * 2 ^ k).
        { pose proof (Z.div_mod m (2 ^ k) ltac:(lia)). lia. }
        assert (Ef : fst r1 = Build_shr_record (m / 2 ^ k) false false).
        { unfold r1. apply shr_fexp_exact; [exact Hq| |]; fold k; [auto|lia]. }
        unfold m1. rewrite Ef. cbn [shr_m loc_of_shr_record round_nearest_even].
        apply Z.div_le_upper_bound; lia.
      * assert (m / 2 ^ k < u)
          by (apply Z.div_lt_upper_bound; [lia|];
              specialize (Hl ltac:(discriminate)); lia).
        lia.
    + assert (m <> U).
      { intros ->. apply Hr. rewrite Eu. apply Z.mod_mul. lia. }
      assert (m / 2 ^ k < u) by (apply Z.div_lt_upper_bound; lia).
      lia.
  - assert (Ek0 : k0 = 0) by (unfold k0; lia). rewrite Ek0, Z.add_0_r, Z.mul_1_r.
    assert (Er : r1 = (shr_record_of_loc m l, e))
      by (apply shr_fexp_idle; lia).
    unfold m1 in *. rewrite Er in *. cbn [fst snd] in *.
    rewrite shr_m_record, loc_of_record_of_loc in *.
    split; [reflexivity|]. split; [lia|].
    destruct l as [|c]; [cbn [round_nearest_even]; lia|].
    specialize (Hl ltac:(discriminate)). lia.
Qed.

(** The result of a rounding stays below a bound that the float format
    can hold at the exponent of the result. *)
Lemma binary_round_aux_le (s : bool) (m e U : Z) (l : location) :
  0 <= m -> e <= 971 -> m <= U -> (l <> loc_Exact -> m + 1 <= U) ->
  (0 < F64.shift_of m e -> exists u, U = u * 2 ^ F64.shift_of m e) ->
  Zdigits2 U + e <= 1024 ->
  match binary_round_aux F64.prec F64.emax s m e l with
  | S754_zero s' => s' = s
  | S754_finite s' Mf Ef => s' = s /\ e <= Ef /\ Zpos Mf * 2 ^ (Ef - e) <= U
  | S754_infinity _ | S754_nan => False
  end.
Proof.
  intros Hm He HU Hl Hdiv Hd.
  destruct (round_first_le m e U l Hm HU Hl Hdiv) as (Ee & Hm1 & Hle).
  rewrite binary_round_aux_unfold. cbv zeta.
  set (r1 := shr_fexp F64.prec F64.emax m e l) in *.
  set (m1 := round_nearest_even (shr_m (fst r1)) (loc_of_shr_record (fst r1))) in *.
  set (k0 := Z.max (F64.shift_of m e) 0) in *.
  assert (Hk0 : 0 <= k0) by (unfold k0; lia).
  pose proof (pow2_pos k0 Hk0) as Hp0.
  rewrite shr_fexp_m, shr_fexp_e by exact Hm1.
  set (k2 := F64.shift_of m1 (snd r1)).
  assert (HdU : 0 < m1 -> Zdigits2 m1 + k0 <= Zdigits2 U).
  { intros Hpos. rewrite <- Zdigits2_shift by lia. apply Zdigits2_mono.
    split; [|exact Hle]. apply Z.mul_nonneg_nonneg; lia. }
  assert (He1 : snd r1 <= 971).
  { rewrite Ee. unfold k0. destruct (Z.max_spec (F64.shift_of m e) 0) as [[_ ->]|[Hk ->]];
      [lia|].
    unfold F64.shift_of in *. rewrite fexp_eq in *.
    pose proof (Zdigits2_mono m U ltac:(lia)). lia. }
  destruct (Z.ltb_spec 0 k2) as [Hk|Hk].
  - pose proof (pow2_pos k2 ltac:(lia)) as Hp2.
    destruct (m1 / 2 ^ k2) as [|p|p] eqn:Ep.
    + reflexivity.
    + assert (Hpos : 0 < m1).
      { destruct (Z.eq_dec m1 0) as [E0|]; [|lia]. rewrite E0 in Ep. discriminate. }
      specialize (HdU Hpos).
      assert (Hle2 : snd r1 + k2 <= 971).
      { unfold k2, F64.shift_of in *. rewrite fexp_eq in *. lia. }
      apply Z.leb_le in Hle2. rewrite Hle2.
      split; [reflexivity|]. split; [lia|].
      replace (snd r1 + k2 - e) with (k2 + k0) by lia.
      rewrite Z.pow_add_r by lia. rewrite <- Ep.
      pose proof (Z.mul_div_le m1 (2 ^ k2) Hp2).
      assert (m1 / 2 ^ k2 * 2 ^ k2 * 2 ^ k0 <= m1 * 2 ^ k0)
        by (apply Z.mul_le_mono_nonneg_r; lia).
      lia.
    + pose proof (div_pow2_nonneg m1 k2 Hm1). lia.
  - destruct m1 as [|p|p] eqn:Ep; try lia.
    + reflexivity.
    + apply Z.leb_le in He1. rewrite He1.
      split; [reflexivity|]. split; [lia|].
      replace (snd r1 - e) with k0 by lia. exact Hle.
Qed.

End Bounds.

Section Magnitudes.

Import Bound.

Lemma le_scaled_at (m e b t : Z) :
  0 <= t -> 0 <= e + t ->
  le_scaled m e b = true <-> m * 2 ^ (e + t) <= b * 2 ^ t.
Proof.
  intros Ht Het. unfold le_scaled. rewrite Z.leb_le.
  destruct (Z.le_gt_cases 0 e) as [He|He].
  - rewrite Z.max_l, Z.max_r by lia. rewrite Z.pow_0_r, Z.mul_1_r.
    rewrite Z.pow_add_r, Z.mul_assoc by lia.
    pose proof (pow2_pos t Ht). split; intros H0.
    + apply Z.mul_le_mono_nonneg_r; lia.
    + apply Z.mul_le_mono_pos_r in H0; lia.
  - rewrite Z.max_r, Z.max_l by lia. rewrite Z.pow_0_r, Z.mul_1_r.
    replace (2 ^ t) with (2 ^ (- e) * 2 ^ (e + t))
      by (rewrite <- Z.pow_add_r by lia; f_equal; lia).
    rewrite Z.mul_assoc.
    pose proof (pow2_pos (e + t) Het). split; intros H0.
    + apply Z.mul_le_mono_nonneg_r; lia.
    + apply Z.mul_le_mono_pos_r in H0; lia.
Qed.

(** The last place of a number below a representable bound is a place
    of the bound. *)
Lemma place_of_bound (a j d : Z) :
  Zdigits2 a <= 53 -> 0 <= j -> d <= Zdigits2 a + j -> F64.fexp d <= j.
Proof. intros. rewrite fexp_eq. lia. Qed.

(** Rounding at a non-positive exponent keeps a representable bound. *)
Lemma round_low_le (s : bool) (m e a j : Z) (l : location) :
  0 <= m -> e <= 0 ->
  0 < a -> Zdigits2 a <= 53 -> 0 <= j -> Zdigits2 a + j <= 1024 ->
  m <= a * 2 ^ j * 2 ^ (- e) ->
  (l <> loc_Exact -> m + 1 <= a * 2 ^ j * 2 ^ (- e)) ->
  let r := binary_round_aux F64.prec F64.emax s m e l in
  magnitude_le (a * 2 ^ j) r = true
  /\ match r with S754_finite s' _ _ => s' = s | _ => True end.
Proof.
  intros Hm He Ha Hda Hj Hd HU Hl r.
  set (B := a * 2 ^ j) in *.
  assert (HB : 0 < B) by (apply Z.mul_pos_pos; [lia|apply pow2_pos; lia]).
  assert (HdB : Zdigits2 B = Zdigits2 a + j) by (apply Zdigits2_shift; lia).
  assert (HdU : Zdigits2 (B * 2 ^ (- e)) = Zdigits2 a + j - e)
    by (rewrite Zdigits2_shift by lia; lia).
  pose proof (binary_round_aux_le s m e (B * 2 ^ (- e)) l Hm ltac:(lia) HU Hl)
    as H.
  fold r in H.
  assert (Hdiv : 0 < F64.shift_of m e ->
                 exists u, B * 2 ^ (- e) = u * 2 ^ F64.shift_of m e).
  { intros Hk.
    pose proof (Zdigits2_mono m (B * 2 ^ (- e)) ltac:(lia)) as Hmono.
    pose proof (place_of_bound a j (Zdigits2 m + e) Hda Hj ltac:(lia)) as Hp.
    unfold F64.shift_of in *.
    exists (a * 2 ^ (j - F64.fexp (Zdigits2 m + e))).
    unfold B. rewrite <- !Z.mul_assoc, <- !Z.pow_add_r by lia.
    do 2 f_equal. lia. }
  specialize (H Hdiv ltac:(lia)).
  destruct r as [s'|s'| |s' Mf Ef]; try contradiction; [split; reflexivity|].
  destruct H as (-> & Hle & Hv). split; [|reflexivity].
  cbn [magnitude_le]. apply (le_scaled_at _ _ _ (- e)); [lia|lia|].
  replace (Ef + - e) with (Ef - e) by lia. exact Hv.
Qed.

(** Rounding an exact number keeps a representable bound. *)
Lemma round_exact_le (s : bool) (m e a j : Z) :
  0 <= m -> e <= 971 ->
  0 < a -> Zdigits2 a <= 53 -> 0 <= j -> Zdigits2 a + j <= 1024 ->
  le_scaled m e (a * 2 ^ j) = true ->
  let r := binary_round_aux F64.prec F64.emax s m e loc_Exact in
  magnitude_le (a * 2 ^ j) r = true
  /\ match r with S754_finite s' _ _ => s' = s | _ => True end.
Proof.
  intros Hm He Ha Hda Hj Hd Hle r.
  destruct (Z.le_gt_cases e 0) as [Hneg|Hpos].
  - apply round_low_le; try assumption; [|congruence].
    apply (le_scaled_at _ _ _ (- e)) in Hle; [|lia|lia].
    replace (e + - e) with 0 in Hle by lia. lia.
  - set (B := a * 2 ^ j) in *.
    assert (HB : 0 < B) by (apply Z.mul_pos_pos; [lia|apply pow2_pos; lia]).
    assert (HdB : Zdigits2 B = Zdigits2 a + j) by (apply Zdigits2_shift; lia).
    pose proof (pow2_pos e ltac:(lia)) as Hpe.
    apply (le_scaled_at _ _ _ 0) in Hle; [|lia|lia].
    rewrite Z.add_0_r, Z.pow_0_r, Z.mul_1_r in Hle.
    assert (HU : m <= B / 2 ^ e) by (apply Z.div_le_lower_bound; lia).
    pose proof (binary_round_aux_le s m e (B / 2 ^ e) loc_Exact Hm He HU
                  ltac:(congruence)) as H.
    fold r in H.
    assert (Hdm : m <> 0 -> Zdigits2 m + e <= Zdigits2 B).
    { intros Hne. rewrite <- Zdigits2_shift by lia. apply Zdigits2_mono.
      split; [|exact Hle]. apply Z.mul_nonneg_nonneg; lia. }
    assert (Hdiv : 0 < F64.shift_of m e ->
                   exists u, B / 2 ^ e = u * 2 ^ F64.shift_of m e).
    { intros Hk.
      assert (Hne : m <> 0).
      { intros ->. unfold F64.shift_of in Hk. rewrite fexp_eq in Hk.
        cbn [Zdigits2] in Hk. lia. }
      specialize (Hdm Hne).
      pose proof (place_of_bound a j (Zdigits2 m + e) Hda Hj ltac:(lia)) as Hp.
      unfold F64.shift_of in *.
      exists (a * 2 ^ (j - F64.fexp (Zdigits2 m + e))).
      assert (EB : B = a * 2 ^ (j - e) * 2 ^ e).
      { unfold B. rewrite <- Z.mul_assoc, <- Z.pow_add_r by lia.
        do 2 f_equal. lia. }
      rewrite EB, Z.div_mul by lia.
      rewrite <- Z.mul_assoc, <- Z.pow_add_r by lia. do 2 f_equal. lia. }
    assert (HdU : Zdigits2 (B / 2 ^ e) + e <= 1024).
    { rewrite Zdigits2_div_le by lia. lia. }
    specialize (H Hdiv HdU).
    destruct r as [s'|s'| |s' Mf Ef]; try contradiction; [split; reflexivity|].
    destruct H as (-> & HEf & Hv). split; [|reflexivity].
    cbn [magnitude_le]. apply (le_scaled_at _ _ _ 0); [lia|lia|].
    rewrite Z.add_0_r, Z.pow_0_r, Z.mul_1_r.
    replace Ef with (Ef - e + e) by lia. rewrite Z.pow_add_r, Z.mul_assoc by lia.
    pose proof (Z.mul_div_le B (2 ^ e) Hpe).
    assert (Zpos Mf * 2 ^ (Ef - e) * 2 ^ e <= B / 2 ^ e * 2 ^ e)
      by (apply Z.mul_le_mono_nonneg_r; lia).
    lia.
Qed.

End Magnitudes.

Section Operations.

Import Bound.

Lemma magnitude_le_finite (B : Z) (x : float) :
  magnitude_le B x = true -> F64.is_finite x = true.
Proof. destruct x; [reflexivity|discriminate|discriminate|reflexivity]. Qed.

(** A magnitude of at most 1 leaves no positive exponent. *)
Lemma unit_exponent (m : positive) (e : Z) :
  le_scaled (Zpos m) e 1 = true -> e <= 0 /\ Zpos m <= 2 ^ (- e).
Proof.
  intros H. destruct (Z.le_gt_cases e 0) as [He|He].
  - split; [exact He|].
    apply (le_scaled_at _ _ _ (- e)) in H; [|lia|lia].
    replace (e + - e) with 0 in H by lia. lia.
  - exfalso. apply (le_scaled_at _ _ _ 0) in H; [|lia|lia].
    rewrite Z.add_0_r in H.
    assert (2 ^ 1 <= 2 ^ e) by (apply Z.pow_le_mono_r; lia).
    change (2 ^ 1) with 2 in *. change (2 ^ 0) with 1 in H. nia.
Qed.

(** The product with a factor of at most 1 stays below a representable
    bound of the other factor. *)
Lemma mul_magnitude_le (x y : float) (a j : Z) :
  F64.bounded x = true ->
  0 < a -> Zdigits2 a <= 53 -> 0 <= j -> Zdigits2 a + j <= 1024 ->
  magnitude_le (a * 2 ^ j) x = true -> magnitude_le 1 y = true ->
  magnitude_le (a * 2 ^ j) (F64.mul x y) = true
  /\ match F64.mul x y with
     | S754_finite s _ _ => s = xorb (F64.sign x) (F64.sign y)
     | _ => True
     end.
Proof.
  intros Hb Ha Hda Hj Hd Hx Hy.
  destruct x as [sx|sx| |sx mx ex]; try discriminate Hx;
    destruct y as [sy|sy| |sy my ey]; try discriminate Hy;
    try (split; [reflexivity|exact I]).
  cbn [magnitude_le F64.sign] in *.
  cbn [F64.bounded] in Hb. apply andb_prop in Hb as [_ Hex].
  apply Z.leb_le in Hex.
  destruct (unit_exponent my ey Hy) as [Hey Hmy].
  unfold F64.mul, SFmul.
  apply round_exact_le; try assumption; try lia.
  set (t := Z.max (- ex) 0).
  apply (le_scaled_at _ _ _ t) in Hx; [|lia|lia].
  apply (le_scaled_at _ _ _ (t + - ey)); [lia|lia|].
  replace (ex + ey + (t + - ey)) with (ex + t) by lia.
  rewrite Pos2Z.inj_mul, (Z.pow_add_r 2 t (- ey)) by lia.
  pose proof (pow2_pos (ex + t) ltac:(lia)).
  pose proof (pow2_pos (- ey) ltac:(lia)).
  transitivity (Zpos mx * 2 ^ (ex + t) * 2 ^ (- ey)).
  - replace (Zpos mx * Zpos my * 2 ^ (ex + t))
      with (Zpos mx * 2 ^ (ex + t) * Zpos my) by ring.
    apply Z.mul_le_mono_nonneg_l; lia.
  - rewrite Z.mul_assoc. apply Z.mul_le_mono_nonneg_r; lia.
Qed.

Lemma mul_comm (x y : float) : F64.mul x y = F64.mul y x.
Proof.
  unfold F64.mul.
  destruct x as [sx|sx| |sx mx ex], y as [sy|sy| |sy my ey]; cbn [SFmul];
    rewrite ?(xorb_comm sx sy); try reflexivity.
  rewrite (Pos.mul_comm mx my), (Z.add_comm ex ey). reflexivity.
Qed.

(** The float of a representable integer does not exceed it. *)
Lemma of_Z_magnitude_le (n : Z) :
  F64.representable n -> n <> 0 ->
  magnitude_le (Z.abs n) (F64.of_Z n) = true.
Proof.
  intros [->|(a & j & E & Ha & Hda & Hj & Hd)] Hn; [lia|].
  rewrite E. unfold F64.of_Z, binary_normalize.
  assert (Hround : forall s p, Zpos p = a * 2 ^ j ->
            magnitude_le (a * 2 ^ j) (binary_round F64.prec F64.emax s p 0)
            = true).
  { intros s p Ep. unfold binary_round.
    fold (F64.fexp (Zpos (digits2_pos p) + 0)).
    pose proof (shl_align_spec p (F64.fexp (Zpos (digits2_pos p) + 0)))
      as [Hneg Hpos].
    destruct (shl_align p 0 _) as [mz ez]. cbn [fst snd] in *.
    destruct (Z.lt_ge_cases (F64.fexp (Zpos (digits2_pos p) + 0)) 0) as [Ht|Ht].
    - destruct (Hneg Ht) as [Emz Eez].
      apply round_exact_le; try assumption; try lia.
      apply (le_scaled_at _ _ _ (- ez)); [lia|lia|].
      replace (ez + - ez) with 0 by lia. rewrite Emz, Eez, <- Ep. lia.
    - injection (Hpos Ht) as -> ->.
      apply round_exact_le; try assumption; try lia.
      apply (le_scaled_at _ _ _ 0); [lia|lia|]. rewrite <- Ep. lia. }
  destruct n as [|p|p]; try lia; cbn [Z.abs] in E; apply Hround; exact E.
Qed.

(** [int] of a float within a bound is within the bound, on the side of
    the sign. *)
Lemma int_of_float_le (y : float) (B k : Z) :
  magnitude_le B y = true -> Py.int_of_float y = Ok k ->
  match y with
  | S754_finite true _ _ => - B <= k <= 0
  | S754_finite false _ _ => 0 <= k <= B
  | _ => k = 0
  end.
Proof.
  destruct y as [s|s| |s m e]; cbn [magnitude_le Py.int_of_float];
    try discriminate.
  - intros _ [= <-]. reflexivity.
  - intros H [= <-].
    assert (Hs : 0 <= Z.shiftl (Zpos m) e <= B).
    { split; [apply Z.shiftl_nonneg; lia|].
      destruct (Z.le_gt_cases 0 e) as [He|He].
      - rewrite Z.shiftl_mul_pow2 by lia.
        apply (le_scaled_at _ _ _ 0) in H; [|lia|lia].
        rewrite Z.add_0_r in H. change (2 ^ 0) with 1 in H. lia.
      - rewrite Z.shiftl_div_pow2 by lia.
        apply (le_scaled_at _ _ _ (- e)) in H; [|lia|lia].
        replace (e + - e) with 0 in H by lia. change (2 ^ 0) with 1 in H.
        apply Z.div_le_upper_bound; [apply pow2_pos; lia|]. lia. }
    destruct s; cbn [cond_Zopp]; lia.
Qed.

(** A stage of the funnel: the count times a rate between 0 and 1 lies
    between 0 and the count. *)
Lemma stage_toward_zero (n k : Z) (taxa : float) :
  F64.representable n -> magnitude_le 1 taxa = true -> nonneg taxa = true ->
  stage n taxa = Ok k -> toward_zero k n.
Proof.
  intros Hn Hmag Hnn. unfold stage, Py.int_mul_float.
  destruct (float_of_int_representable n Hn) as (y & Ey & Hby & Hfy & Hzy).
  rewrite Ey. cbn [bind]. apply float_of_int_ok in Ey. subst y.
  destruct (Z.eq_dec n 0) as [->|Hne].
  - change (F64.of_Z 0) with (S754_zero false).
    destruct taxa as [s|s| |s m e]; try discriminate Hmag;
      intros [= <-]; left; lia.
  - pose proof (of_Z_magnitude_le n Hn Hne) as Hx.
    destruct (of_Z_representable n Hn) as [[-> _]|[_ (mn & en & En)]]; [lia|].
    rewrite En in *.
    destruct taxa as [st|st| |st mt et]; try discriminate Hmag.
    + intros [= <-]. unfold toward_zero. lia.
    + cbn [nonneg] in Hnn. destruct st; [discriminate|].
      destruct Hn as [->|(a & j & E & Ha & Hda & Hj & Hd)]; [lia|].
      rewrite E in Hx.
      destruct (mul_magnitude_le _ _ a j Hby Ha Hda Hj Hd Hx Hmag) as [Hp Hs].
      rewrite <- E in Hp. intros Hk.
      pose proof (int_of_float_le _ _ _ Hp Hk) as Hint.
      cbn [F64.sign] in Hs. rewrite xorb_false_r in Hs.
      unfold toward_zero.
      destruct (F64.mul _ _) as [s|s| |s m e]; try discriminate Hp.
      * lia.
      * subst s. destruct (Z.ltb_spec n 0); lia.
Qed.

End Operations.

Section Rates.

Import Bound.

Lemma pow2_to_pos (k : Z) : 0 <= k -> Zpos (Z.to_pos (2 ^ k)) = 2 ^ k.
Proof. intros. apply Z2Pos.id, pow2_pos. lia. Qed.

(** A float whose value lies between 0 and [hi] is not negative and has a
    magnitude of at most [hi]. *)
Lemma within_magnitude (hi : Z) (x : float) :
  within 0 hi x = true -> magnitude_le hi x = true /\ nonneg x = true.
Proof.
  destruct x as [s|s| |s m e]; try discriminate; [split; reflexivity|].
  unfold within. rewrite to_Q_finite. cbn [magnitude_le nonneg].
  unfold le_scaled, Qle_bool.
  destruct (Z.leb_spec 0 e) as [He|He].
  - cbn [inject_Z Qnum Qden]. rewrite !Z.mul_1_r.
    intros [H0 H1]%andb_prop. apply Z.leb_le in H0, H1.
    pose proof (pow2_pos e He) as Hp.
    rewrite Z.max_l, Z.max_r by lia. rewrite Z.pow_0_r, Z.mul_1_r.
    destruct s; cbn [cond_Zopp negb] in *; [nia|].
    split; [apply Z.leb_le; lia|reflexivity].
  - cbn [inject_Z Qnum Qden]. rewrite !Z.mul_1_r, pow2_to_pos by lia.
    intros [H0 H1]%andb_prop. apply Z.leb_le in H0, H1.
    rewrite Z.max_r, Z.max_l by lia. rewrite Z.pow_0_r, Z.mul_1_r.
    destruct s; cbn [cond_Zopp negb] in *; [lia|].
    split; [apply Z.leb_le; lia|reflexivity].
Qed.

Lemma magnitude_within (hi : Z) (x : float) :
  magnitude_le hi x = true -> nonneg x = true -> 0 <= hi ->
  within 0 hi x = true.
Proof.
  destruct x as [s|s| |s m e]; try discriminate.
  - intros _ _ Hhi. unfold within. cbn [F64.to_Q]. unfold Qle_bool.
    cbn [inject_Z Qnum Qden]. apply andb_true_intro.
    split; apply Z.leb_le; lia.
  - cbn [magnitude_le nonneg]. intros H Hs _. destruct s; [discriminate|].
    unfold within. rewrite to_Q_finite. unfold le_scaled, Qle_bool in *.
    apply Z.leb_le in H.
    destruct (Z.leb_spec 0 e) as [He|He].
    + cbn [inject_Z Qnum Qden cond_Zopp]. rewrite !Z.mul_1_r.
      pose proof (pow2_pos e He) as Hp.
      rewrite Z.max_l, Z.max_r in H by lia. rewrite Z.pow_0_r, Z.mul_1_r in H.
      apply andb_true_intro. split; apply Z.leb_le; nia.
    + cbn [inject_Z Qnum Qden cond_Zopp]. rewrite !Z.mul_1_r, pow2_to_pos by lia.
      rewrite Z.max_r, Z.max_l in H by lia. rewrite Z.pow_0_r, Z.mul_1_r in H.
      apply andb_true_intro. split; apply Z.leb_le; lia.
Qed.

(** The quotient and the remainder that [SFdiv] rounds. *)
Lemma div_core_unfold (mx my : positive) (ex ey : Z) :
  let e' := Z.min (F64.fexp (Zdigits2 (Zpos mx) + ex
                             - (Zdigits2 (Zpos my) + ey))) (ex - ey) in
  SFdiv_core_binary F64.prec F64.emax (Zpos mx) ex (Zpos my) ey
  = (Zpos mx * 2 ^ (ex - ey - e') / Zpos my, e',
     new_location (Zpos my) ((Zpos mx * 2 ^ (ex - ey - e')) mod Zpos my)).
Proof.
  intros e'. unfold SFdiv_core_binary.
  fold (F64.fexp (Zdigits2 (Zpos mx) + ex - (Zdigits2 (Zpos my) + ey))).
  fold e'.
  assert (Hs : 0 <= ex - ey - e') by (unfold e'; lia).
  assert (Em : match ex - ey - e' with
               | 0 => Zpos mx
               | Zpos _ => Z.shiftl (Zpos mx) (ex - ey - e')
               | Zneg _ => 0
               end = Zpos mx * 2 ^ (ex - ey - e')).
  { destruct (ex - ey - e') as [|p|p] eqn:E; try lia.
    rewrite Z.shiftl_mul_pow2 by lia. reflexivity. }
  rewrite Em. unfold Z.div, Z.modulo.
  destruct (Z.div_eucl _ _) as [q r]. reflexivity.
Qed.

Lemma quotient_le (N D U : Z) :
  0 <= N -> 0 < D -> N <= U * D ->
  N / D <= U /\ (N mod D <> 0 -> N / D + 1 <= U).
Proof.
  intros HN HD HU.
  pose proof (Z.div_mod N D ltac:(lia)) as E.
  pose proof (Z.mod_pos_bound N D HD) as Hr.
  assert (Hq : N / D <= U) by (apply Z.div_le_upper_bound; lia).
  split; [exact Hq|]. intros Hne.
  destruct (Z.eq_dec (N / D) U) as [Eq|]; [|lia].
  rewrite Eq in E. nia.
Qed.

Lemma new_location_inexact (d r : Z) : new_location d r <> loc_Exact -> r <> 0.
Proof. intros H ->. apply H, new_location_zero. Qed.

(** A percentage between 0 and 100 is a rate between 0 and 1. *)
Lemma rate_unit (pct : float) :
  within 0 100 pct = true ->
  magnitude_le 1 (F64.div pct f100) = true
  /\ nonneg (F64.div pct f100) = true.
Proof.
  intros H. apply within_magnitude in H as [Hm Hn].
  change f100 with (S754_finite false 7036874417766400 (-46)).
  destruct pct as [s|s| |s m e]; try discriminate Hm.
  - split; reflexivity.
  - cbn [nonneg] in Hn. destruct s; [discriminate|].
    cbn [magnitude_le] in Hm. unfold F64.div, SFdiv.
    rewrite div_core_unfold. cbv zeta. cbn [xorb].
    set (e' := Z.min (F64.fexp (Zdigits2 (Zpos m) + e
                                - (Zdigits2 7036874417766400 + -46)))
                 (e - -46)).
    change (Zdigits2 7036874417766400) with 53 in e'.
    (* the magnitude of the percentage has at most seven digits *)
    assert (Hd : Zdigits2 (Zpos m) + e <= 7).
    { set (t := Z.max (- e) 0).
      apply (le_scaled_at _ _ _ t) in Hm; [|lia|lia].
      pose proof (pow2_pos t ltac:(lia)) as Hp.
      pose proof (pow2_pos (e + t) ltac:(lia)) as Hq.
      assert (Hlt : Zpos m * 2 ^ (e + t) < 2 ^ (7 + t)).
      { rewrite (Z.pow_add_r 2 7 t) by lia. change (2 ^ 7) with 128. lia. }
      pose proof (Zdigits2_le (Zpos m * 2 ^ (e + t)) (7 + t) ltac:(lia)
                    ltac:(lia)) as Hle.
      rewrite Zdigits2_shift in Hle by lia. lia. }
    assert (He' : e' <= -53) by (unfold e'; rewrite fexp_eq; lia).
    assert (Hs : 0 <= e - -46 - e') by (unfold e'; lia).
    set (N := Zpos m * 2 ^ (e - -46 - e')).
    assert (HN : 0 <= N) by (apply Z.mul_nonneg_nonneg; [lia|apply Z.pow_nonneg; lia]).
    assert (HNU : N <= 2 ^ (- e') * 7036874417766400).
    { apply (le_scaled_at _ _ _ (46 - e')) in Hm; [|lia|lia].
      unfold N. replace (e - -46 - e') with (e + (46 - e')) by lia.
      replace (46 - e') with (- e' + 46) in Hm at 2 by lia.
      rewrite (Z.pow_add_r 2 (- e') 46) in Hm by lia.
      change (2 ^ 46) with 70368744177664 in Hm. lia. }
    destruct (quotient_le N 7036874417766400 (2 ^ (- e')) HN ltac:(lia) HNU)
      as [Hq Hq1].
    destruct (round_low_le false (N / 7036874417766400) e' 1 0
                (new_location 7036874417766400 (N mod 7036874417766400)))
      as [Hr Hsign]; try (simpl; lia).
    + apply Z.div_pos; lia.
    + intros Hl. apply new_location_inexact in Hl.
      change (1 * 2 ^ 0) with 1. specialize (Hq1 Hl). lia.
    + change (1 * 2 ^ 0) with 1 in Hr. split; [exact Hr|].
      destruct (binary_round_aux _ _ _ _ _ _) as [s'|s'| |s' Mf Ef];
        try discriminate Hr; [reflexivity|].
      subst s'. reflexivity.
Qed.

(** The float of a fraction stays below a representable bound of the
    fraction. *)
Lemma of_ratio_magnitude_le (s : bool) (n d : positive) (a j : Z) :
  0 < a -> Zdigits2 a <= 53 -> 0 <= j -> Zdigits2 a + j <= 1024 ->
  Zpos n <= a * 2 ^ j * Zpos d ->
  magnitude_le (a * 2 ^ j) (F64.of_ratio s n d) = true.
Proof.
  intros Ha Hda Hj Hd Hn. rewrite of_ratio_unfold.
  pose proof (ratio_exp_range n d) as Hr.
  set (re := F64.ratio_exp n d) in *.
  pose proof (pow2_pos (- re) ltac:(lia)) as Hp.
  set (N := Zpos n * 2 ^ (- re)).
  assert (HN : 0 <= N) by (unfold N; lia).
  assert (HNU : N <= a * 2 ^ j * 2 ^ (- re) * Zpos d).
  { unfold N.
    replace (a * 2 ^ j * 2 ^ (- re) * Zpos d)
      with (a * 2 ^ j * Zpos d * 2 ^ (- re)) by ring.
    apply Z.mul_le_mono_nonneg_r; lia. }
  destruct (quotient_le N (Zpos d) (a * 2 ^ j * 2 ^ (- re)) HN ltac:(lia) HNU)
    as [Hq Hq1].
  apply round_low_le; try assumption; try lia.
  - apply Z.div_pos; lia.
  - intros Hl. apply new_location_inexact in Hl. exact (Hq1 Hl).
Qed.

Lemma div_half_even_le (n d K : Z) :
  0 <= n -> 0 < d -> n <= K * d -> F64.div_half_even n d <= K.
Proof.
  intros Hn Hd HK. unfold F64.div_half_even.
  pose proof (Z.div_mod n d ltac:(lia)) as E.
  pose proof (Z.mod_pos_bound n d Hd) as Hr.
  assert (Hq : n / d <= K) by (apply Z.div_le_upper_bound; lia).
  destruct (Z.eq_dec (n / d) K) as [Eq|Hne].
  - assert (Hr0 : n mod d = 0) by (rewrite Eq in E; nia).
    rewrite Hr0. replace (2 * 0 ?= d) with Lt
      by (symmetry; apply Z.compare_lt_iff; lia).
    lia.
  - destruct (_ ?= _); [destruct (Z.even _)| |]; lia.
Qed.

(** Rounding to two places keeps a representable bound. *)
Lemma round2_magnitude_le (x y : float) (a j : Z) :
  0 < a -> Zdigits2 a <= 53 -> 0 <= j -> Zdigits2 a + j <= 1024 ->
  magnitude_le (a * 2 ^ j) x = true -> nonneg x = true ->
  Py.round2 x = Ok y ->
  magnitude_le (a * 2 ^ j) y = true /\ nonneg y = true.
Proof.
  intros Ha Hda Hj Hd Hx Hn.
  destruct x as [s|s| |s m e]; try discriminate Hx.
  - intros [= <-]. split; reflexivity.
  - cbn [nonneg] in Hn. destruct s; [discriminate|].
    cbn [magnitude_le] in Hx. cbn [Py.round2].
    set (B := a * 2 ^ j) in *.
    assert (HB : 0 < B) by (apply Z.mul_pos_pos; [lia|apply pow2_pos; lia]).
    assert (Hc : 0 <= F64.cents (S754_finite false m e) <= B * 100).
    { cbn [F64.cents]. destruct (Z.leb_spec 0 e) as [He|He].
      - apply (le_scaled_at _ _ _ 0) in Hx; [|lia|lia].
        rewrite Z.add_0_r in Hx. change (2 ^ 0) with 1 in Hx.
        pose proof (pow2_pos e He). nia.
      - apply (le_scaled_at _ _ _ (- e)) in Hx; [|lia|lia].
        replace (e + - e) with 0 in Hx by lia. change (2 ^ 0) with 1 in Hx.
        pose proof (pow2_pos (- e) ltac:(lia)) as Hp. split.
        + unfold F64.div_half_even.
          assert (0 <= Zpos m * 100 / 2 ^ (- e)) by (apply Z.div_pos; lia).
          destruct (_ ?= _); [destruct (Z.even _)| |]; lia.
        + apply div_half_even_le; lia. }
    destruct (F64.cents (S754_finite false m e)) as [|c|c] eqn:Ec; try lia.
    + cbn [F64.of_decimal]. intros [= <-]. split; reflexivity.
    + cbn [F64.of_decimal]. change (0 <=? -2) with false. cbv iota.
      change (Z.to_pos (10 ^ (- -2))) with 100%positive.
      pose proof (of_ratio_magnitude_le false c 100 a j Ha Hda Hj Hd
                    ltac:(fold B; lia)) as Hr.
      pose proof (of_ratio_shaped false c 100) as Hsh.
      destruct (F64.of_ratio false c 100) as [s'|s'| |s' Mf Ef];
        try discriminate Hr; intros [= <-]; cbn [F64.shaped] in Hsh.
      * split; reflexivity.
      * destruct Hsh as [-> _]. split; [exact Hr|reflexivity].
Qed.

End Rates.



Section Narrowing.

Import Bound.

Variables inv cpl pa pc pv tk : float.

Lemma div_sign (x y : float) :
  match F64.div x y with
  | S754_finite s _ _ => s = xorb (F64.sign x) (F64.sign y)
  | _ => True
  end.
Proof.
  destruct x as [sx|sx| |sx mx ex], y as [sy|sy| |sy my ey];
    try exact I.
  unfold F64.div, SFdiv.
  destruct (SFdiv_core_binary _ _ _ _ _ _) as [[q e] l] eqn:E.
  pose proof (binary_round_aux_shaped (xorb sx sy) q e l
                (div_core_nonneg _ _ _ _ _ _ _ E)) as Hsh.
  destruct (binary_round_aux _ _ _ _ _ _); try exact I.
  cbn [F64.shaped F64.sign] in *. tauto.
Qed.

(** The first stage is not negative when the investment is not. *)
Lemma leads_nonneg (l : Z) :
  F64.ltb inv f0 = false ->
  (if Py.float_gt_0 cpl
   then (let* q := Py.float_truediv inv cpl in Py.int_of_float q)
   else Ok 0) = Ok l ->
  0 <= l.
Proof.
  intros Hinv. destruct (Py.float_gt_0 cpl) eqn:Hc; [|intros [= <-]; lia].
  rewrite (float_truediv_positive _ _ Hc). cbn [bind].
  destruct inv as [si|si| |si mi ei], cpl as [sc|sc| |sc mc ec];
    try discriminate Hc; try discriminate Hinv;
    try (intros [= <-]; lia); try discriminate.
  destruct si; [discriminate Hinv|]. destruct sc; [discriminate Hc|].
  pose proof (div_sign (S754_finite false mi ei) (S754_finite false mc ec))
    as Hs.
  destruct (F64.div _ _) as [s|s| |s m e]; cbn [Py.int_of_float];
    try discriminate; intros [= <-]; [lia|].
  cbn [F64.sign xorb] in Hs. subst s.
  cbn [cond_Zopp]. apply Z.shiftl_nonneg. lia.
Qed.

Hypothesis Hpa : within 0 100 pa = true.
Hypothesis Hpc : within 0 100 pc = true.
Hypothesis Hpv : within 0 100 pv = true.

Lemma counts_narrow (l a c v : Z) :
  funnel_counts inv cpl pa pc pv = Ok (l, a, c, v) ->
  toward_zero a l /\ toward_zero c a /\ toward_zero v c
  /\ (F64.ltb inv f0 = false -> 0 <= l).
Proof.
  intros H.
  destruct (funnel_counts_representable _ _ _ _ _ _ _ _ _ H)
    as (Rl & Ra & Rc & _).
  unfold funnel_counts in H. rewrite !percent_rate in H. cbn [bind] in H.
  unfold Rounded.rate in H.
  destruct (if Py.float_gt_0 cpl then _ else _) as [l'|] eqn:El;
    cbn [bind] in H; [|discriminate].
  destruct (stage l' _) as [a'|] eqn:Ea; cbn [bind] in H; [|discriminate].
  destruct (stage a' _) as [c'|] eqn:Ec; cbn [bind] in H; [|discriminate].
  destruct (stage c' _) as [v'|] eqn:Ev; cbn [bind] in H; [|discriminate].
  injection H as -> -> -> ->.
  destruct (rate_unit pa Hpa) as [Ma Na].
  destruct (rate_unit pc Hpc) as [Mc Nc].
  destruct (rate_unit pv Hpv) as [Mv Nv].
  split; [exact (stage_toward_zero _ _ _ Rl Ma Na Ea)|].
  split; [exact (stage_toward_zero _ _ _ Ra Mc Nc Ec)|].
  split; [exact (stage_toward_zero _ _ _ Rc Mv Nv Ev)|].
  intros Hinv. exact (leads_nonneg l Hinv El).
Qed.

(** X11. With the three rates between 0 and 100 the funnel narrows:
    whenever the projection returns, each count lies between 0 and the
    count of the stage before it, and the leads are not negative when
    the investment is not. *)
Theorem funnel_narrows (r : resultados) :
  project_funnel inv cpl pa pc pv tk = Ok r ->
  toward_zero (agendamentos r) (leads r)
  /\ toward_zero (comparecimentos r) (agendamentos r)
  /\ toward_zero (vendas r) (comparecimentos r)
  /\ (F64.ltb inv f0 = false -> 0 <= leads r).
Proof.
  intros H.
  destruct (project_funnel_steps _ _ _ _ _ _ r H)
    as (rec & cac0 & roas0 & cpc0 & rpl0 & Hcounts & _).
  exact (counts_narrow _ _ _ _ Hcounts).
Qed.

Lemma f100_magnitude : magnitude_le (25 * 2 ^ 2) f100 = true.
Proof. vm_compute. reflexivity. Qed.

(** X12. With the three rates between 0 and 100 the overall funnel rate
    is a percentage: whenever the projection returns, it lies between 0
    and 100. *)
Theorem funnel_rate_is_percentage (r : resultados) :
  project_funnel inv cpl pa pc pv tk = Ok r ->
  within 0 100 (taxa_total_funil r) = true.
Proof.
  intros H.
  destruct (project_funnel_steps _ _ _ _ _ _ r H)
    as (rec & cac0 & roas0 & cpc0 & rpl0 & Hcounts & _ & _ & _ & _ & _ & _
        & Httf & _).
  destruct (counts_narrow _ _ _ _ Hcounts) as (Ha & Hc & Hv & _).
  destruct (Z.ltb_spec 0 (leads r)) as [Hl|Hl];
    [|injection Httf as <-; reflexivity].
  assert (Hvl : 0 <= vendas r <= leads r) by (unfold toward_zero in *; lia).
  unfold Py.int_truediv in Httf.
  destruct (leads r) as [|pl|pl] eqn:El; try lia.
  change (Zpos pl <? 0) with false in Httf. rewrite xorb_false_r in Httf.
  assert (Hq : exists q, (match vendas r with
                          | 0 => Ok (S754_zero (vendas r <? 0))
                          | _ => match F64.of_ratio (vendas r <? 0)
                                         (Z.to_pos (Z.abs (vendas r)))
                                         (Z.to_pos (Z.abs (Zpos pl))) with
                                 | S754_infinity _ => Raise OverflowError
                                 | x => Ok x
                                 end
                          end) = Ok q
                         /\ magnitude_le 1 q = true /\ nonneg q = true).
  { destruct (vendas r) as [|p|p] eqn:Ev; try lia.
    - exists (S754_zero false). auto.
    - change (Zpos p <? 0) with false. change (Z.to_pos (Z.abs (Zpos p))) with p.
      change (Z.to_pos (Z.abs (Zpos pl))) with pl.
      pose proof (of_ratio_magnitude_le false p pl 1 0 ltac:(lia)
                    ltac:(simpl; lia) ltac:(lia) ltac:(simpl; lia)
                    ltac:(change (1 * 2 ^ 0) with 1; lia)) as Hm.
      change (1 * 2 ^ 0) with 1 in Hm.
      pose proof (of_ratio_shaped false p pl) as Hsh.
      destruct (F64.of_ratio false p pl) as [s|s| |s m e];
        try discriminate Hm; cbn [F64.shaped] in Hsh.
      + eexists. split; [reflexivity|]. auto.
      + destruct Hsh as [-> _]. eexists. split; [reflexivity|]. auto. }
  destruct Hq as (q & Eq & Mq & Nq). rewrite Eq in Httf. cbn [bind] in Httf.
  rewrite float_mul_int_100 in Httf. cbn [bind] in Httf.
  rewrite mul_comm in Httf.
  destruct (mul_magnitude_le f100 q 25 2 eq_refl ltac:(lia) ltac:(simpl; lia)
              ltac:(lia) ltac:(simpl; lia) f100_magnitude Mq) as [Mp Sp].
  assert (Np : nonneg (F64.mul f100 q) = true).
  { destruct q as [sq|sq| |sq mq eq]; try discriminate Mq; [reflexivity|].
    cbn [nonneg] in Nq. destruct sq; [discriminate Nq|].
    destruct (F64.mul f100 _) as [s|s| |s m e]; try discriminate Mp;
      [reflexivity|].
    subst s. reflexivity. }
  destruct (round2_magnitude_le _ _ 25 2 ltac:(lia) ltac:(simpl; lia)
              ltac:(lia) ltac:(simpl; lia) Mp Np Httf) as [Mt Nt].
  apply magnitude_within; [exact Mt|exact Nt|lia].
Qed.

End Narrowing.

(** ** No NaN among the amounts *)

Section NoNaN.

Lemma shaped_not_nan (s : bool) (x : float) : F64.shaped s x -> is_nan x = false.
Proof. destruct x; cbn [F64.shaped is_nan]; tauto. Qed.

Lemma mul_not_nan (x y : float) :
  F64.is_finite x = true -> F64.is_finite y = true ->
  is_nan (F64.mul x y) = false.
Proof.
  destruct x as [sx|sx| |sx mx ex], y as [sy|sy| |sy my ey];
    try discriminate; try reflexivity.
  intros _ _. unfold F64.mul, SFmul.
  apply (shaped_not_nan (xorb sx sy)), binary_round_aux_shaped. lia.
Qed.

(** Dividing by a finite number other than zero makes no NaN. *)
Lemma div_not_nan (x y : float) :
  is_nan x = false -> F64.is_finite y = true -> F64.is_zero y = false ->
  is_nan (F64.div x y) = false.
Proof.
  destruct x as [sx|sx| |sx mx ex], y as [sy|sy| |sy my ey];
    try discriminate; try reflexivity.
  intros _ _ _. unfold F64.div, SFdiv.
  destruct (SFdiv_core_binary _ _ _ _ _ _) as [[q e] l] eqn:E.
  apply (shaped_not_nan (xorb sx sy)), binary_round_aux_shaped.
  exact (div_core_nonneg _ _ _ _ _ _ _ E).
Qed.

Lemma binary_normalize_not_nan (m e : Z) (sz : bool) :
  is_nan (binary_normalize F64.prec F64.emax m e sz) = false.
Proof.
  destruct m as [|p|p]; cbn [binary_normalize]; [reflexivity| |].
  - exact (shaped_not_nan _ _ (binary_round_shaped false p e)).
  - exact (shaped_not_nan _ _ (binary_round_shaped true p e)).
Qed.

Lemma sub_not_nan (x y : float) :
  is_nan x = false -> F64.is_finite y = true -> is_nan (F64.sub x y) = false.
Proof.
  destruct x as [sx|sx| |sx mx ex], y as [sy|sy| |sy my ey];
    try discriminate; try reflexivity; intros _ _; cbn [F64.sub SFsub].
  - destruct sx, sy; reflexivity.
  - apply binary_normalize_not_nan.
Qed.

Lemma round2_not_nan (x y : float) :
  is_nan x = false -> Py.round2 x = Ok y -> is_nan y = false.
Proof.
  destruct x as [s|s| |s m e]; try discriminate;
    try (intros _ [= <-]; reflexivity).
  intros _. cbn [Py.round2].
  pose proof (of_decimal_shaped s (F64.cents (S754_finite s m e)) (-2)) as Hsh.
  destruct (F64.of_decimal _ _ _); try discriminate; try contradiction;
    intros [= <-]; reflexivity.
Qed.

(** The float of an int is finite, where there is one. *)
Lemma float_of_int_finite (n : Z) (y : float) :
  Py.float_of_int n = Ok y -> F64.is_finite y = true.
Proof.
  unfold Py.float_of_int.
  assert (Hn : is_nan (F64.of_Z n) = false)
    by apply binary_normalize_not_nan.
  destruct (F64.of_Z n); try discriminate; intros [= <-]; reflexivity.
Qed.

Lemma float_truediv_int_not_nan (x q : float) (n : Z) :
  is_nan x = false -> Py.float_truediv_int x n = Ok q -> is_nan q = false.
Proof.
  intros Hx. unfold Py.float_truediv_int, Py.float_truediv.
  destruct (Py.float_of_int n) as [y|] eqn:Ey; cbn [bind]; [|discriminate].
  pose proof (float_of_int_finite n y Ey) as Hy.
  destruct (F64.is_zero y) eqn:Hz; [discriminate|].
  intros [= <-]. exact (div_not_nan x y Hx Hy Hz).
Qed.

Lemma int_truediv_finite (a b : Z) (q : float) :
  Py.int_truediv a b = Ok q -> F64.is_finite q = true.
Proof.
  unfold Py.int_truediv. destruct b; [discriminate| |];
    (destruct a; [intros [= <-]; reflexivity| |]);
    match goal with
    | |- context [F64.of_ratio ?s ?n ?d] =>
        pose proof (of_ratio_shaped s n d) as Hsh;
        destruct (F64.of_ratio s n d); try discriminate;
        try contradiction; intros [= <-]; reflexivity
    end.
Qed.

Variables inv cpl pa pc pv tk : float.

(** X16. With a finite investment and a finite ticket no amount of the
    projection is a NaN, whatever the other fields hold. *)
Theorem projection_has_no_nan (r : resultados) :
  F64.is_finite inv = true -> F64.is_finite tk = true ->
  project_funnel inv cpl pa pc pv tk = Ok r ->
  forallb (fun x => negb (is_nan x)) (amounts r) = true.
Proof.
  intros Hinv Htk H.
  destruct (project_funnel_steps _ _ _ _ _ _ r H)
    as (rec & cac0 & roas0 & cpc0 & rpl0 & _ & Hrec & Hcac & Hroas & Hcpc
        & _ & _ & Httf & Hrpl & Rrec & Rroas & Rcac & Rcpc & Rrpl & Rluc).
  assert (Ninv : is_nan inv = false) by (destruct inv; try discriminate; reflexivity).
  assert (Nrec : is_nan rec = false).
  { unfold Py.int_mul_float in Hrec.
    destruct (Py.float_of_int (vendas r)) as [y|] eqn:Ey; cbn [bind] in Hrec;
      [|discriminate].
    injection Hrec as <-.
    exact (mul_not_nan _ _ (float_of_int_finite _ _ Ey) Htk). }
  assert (Ncac : is_nan cac0 = false).
  { destruct (0 <? vendas r); [|injection Hcac as <-; reflexivity].
    exact (float_truediv_int_not_nan _ _ _ Ninv Hcac). }
  assert (Nroas : is_nan roas0 = false).
  { destruct (Py.float_gt_0 inv) eqn:Hg; [|injection Hroas as <-; reflexivity].
    rewrite (float_truediv_positive _ _ Hg) in Hroas. injection Hroas as <-.
    apply div_not_nan; [exact Nrec|exact Hinv|].
    destruct inv; try discriminate; reflexivity. }
  assert (Ncpc : is_nan cpc0 = false).
  { destruct (0 <? comparecimentos r); [|injection Hcpc as <-; reflexivity].
    exact (float_truediv_int_not_nan _ _ _ Ninv Hcpc). }
  assert (Nttf : is_nan (taxa_total_funil r) = false).
  { destruct (0 <? leads r); [|injection Httf as <-; reflexivity].
    destruct (Py.int_truediv (vendas r) (leads r)) as [q|] eqn:Eq;
      cbn [bind] in Httf; [|discriminate].
    rewrite float_mul_int_100 in Httf. cbn [bind] in Httf.
    apply (round2_not_nan _ _ (mul_not_nan q f100 (int_truediv_finite _ _ _ Eq)
                                 eq_refl) Httf). }
  assert (Nrpl : is_nan rpl0 = false).
  { destruct (0 <? leads r); [|injection Hrpl as <-; reflexivity].
    destruct (Py.float_truediv_int rec (leads r)) as [q|] eqn:Eq;
      cbn [bind] in Hrpl; [|discriminate].
    exact (round2_not_nan _ _ (float_truediv_int_not_nan _ _ _ Nrec Eq) Hrpl). }
  cbn [amounts forallb].
  rewrite (round2_not_nan _ _ Nrec Rrec), (round2_not_nan _ _ Nroas Rroas),
    (round2_not_nan _ _ Ncac Rcac), (round2_not_nan _ _ Ncpc Rcpc), Nttf,
    (round2_not_nan _ _ Nrpl Rrpl),
    (round2_not_nan _ _ (sub_not_nan _ _ Nrec Hinv) Rluc).
  reflexivity.
Qed.

End NoNaN.

(** ** The store across captures *)

Section Commit.

Variable now : Z.

Local Abbreviation flush := (foldl (flush_one now)).

Lemma next_id_pos (table : gmap Z Lead.t) : 1 <= next_id table.
Proof.
  unfold next_id.
  enough (0 <= map_fold (fun k (_ : Lead.t) acc => Z.max k acc) 0 table) by lia.
  apply (map_fold_weak_ind (fun r (_ : gmap Z Lead.t) => 0 <= r)); intros; lia.
Qed.

Lemma flush_one_keeps (acc : gmap Z Lead.t * list (transient * option Z))
    (o : transient * option Z) (k : Z) (l : Lead.t) :
  acc.1 !! k = Some l -> (flush_one now acc o).1 !! k = Some l.
Proof.
  intros H. unfold flush_one. destruct (o.2); [exact H|].
  cbn [fst]. rewrite lookup_insert_ne; [exact H|].
  intros E. rewrite <- E, next_id_fresh in H. discriminate.
Qed.

Lemma flush_keeps (s : list (transient * option Z))
    (acc : gmap Z Lead.t * list (transient * option Z)) (k : Z) (l : Lead.t) :
  acc.1 !! k = Some l -> (flush acc s).1 !! k = Some l.
Proof.
  revert acc. induction s as [|o s IH]; intros acc H; [exact H|].
  cbn [foldl]. apply IH, flush_one_keeps, H.
Qed.

Lemma flush_length (s : list (transient * option Z))
    (acc : gmap Z Lead.t * list (transient * option Z)) :
  length (flush acc s).2 = (length acc.2 + length s)%nat.
Proof.
  revert acc. induction s as [|o s IH]; intros acc; cbn [foldl length]; [lia|].
  rewrite IH. unfold flush_one. destruct (o.2); cbn [snd];
    rewrite length_app; cbn [length]; lia.
Qed.

Lemma flush_flushed (s : list (transient * option Z))
    (acc : gmap Z Lead.t * list (transient * option Z)) :
  Forall (fun o => flushed o = true) acc.2 ->
  Forall (fun o => flushed o = true) (flush acc s).2.
Proof.
  revert acc. induction s as [|o s IH]; intros acc H; [exact H|].
  cbn [foldl]. apply IH. unfold flush_one.
  destruct o as [t [i|]]; cbn [fst snd]; apply Forall_app; split; auto.
Qed.

(** Objects that have their key already are left alone. *)
Lemma flush_idle (s : list (transient * option Z))
    (acc : gmap Z Lead.t * list (transient * option Z)) :
  Forall (fun o => flushed o = true) s ->
  flush acc s = (acc.1, acc.2 ++ s).
Proof.
  revert acc. induction s as [|o s IH]; intros acc H.
  - cbn [foldl]. rewrite app_nil_r. destruct acc; reflexivity.
  - apply Forall_cons in H as [Ho Hs]. cbn [foldl]. rewrite (IH _ Hs).
    unfold flush_one, flushed in *. destruct (o.2); [|discriminate].
    cbn [fst snd]. rewrite <- app_assoc. reflexivity.
Qed.

End Commit.

Lemma form_field_stripped (rq : request) (key : string) :
  stripped (form_field rq key) = true.
Proof. unfold stripped, form_field. rewrite strip_strip. apply String.eqb_refl. Qed.

Section Capture.

Variables (e : env) (rq : request) (w : world).

(** What a [POST] with the three fields filled in does when the commit
    goes through. *)
Lemma capture_commits :
  method rq = POST -> required_blank rq = false -> commit_succeeds e = true ->
  let r := foldl (flush_one (utcnow e)) (db_leads w, []) (db_session w) in
  let i := next_id r.1 in
  capture e rq w
  = (Ok (Redirect (url_dashboard (Some i)) 302),
     {| db_leads := <[ i := new_row e rq i ]> r.1;
        db_session := r.2 ++ [(lead_of_form rq, Some i)];
        flashes := flashes w ++ [("success"%string, msg_received)] |}).
Proof.
  intros Hm Hb Hc r i. unfold required_blank in Hb.
  apply orb_false_elim in Hb as [Hb He]. apply orb_false_elim in Hb as [Hn Hp].
  unfold capture. rewrite Hm, Hn, Hp, He. cbn [app].
  unfold try_m, bindM, session_add, session_commit, flash, lead_id_of, retM.
  cbn [db_leads db_session flashes]. rewrite Hc, foldl_app. cbn [foldl].
  fold r. unfold flush_one.
  cbn [fst snd db_leads db_session flashes t_name t_phone t_email t_company].
  fold i.
  pose proof (flush_length (utcnow e) (db_session w) (db_leads w, [])) as HL.
  fold r in HL. cbn [snd length Nat.add] in HL.
  rewrite lookup_app_r by lia. rewrite HL, Nat.sub_diag. reflexivity.
Qed.

Lemma capture_fails :
  method rq = POST -> required_blank rq = false -> commit_succeeds e = false ->
  capture e rq w
  = (Ok (Render "lead_capture.html" no_context),
     {| db_leads := db_leads w;
        db_session := filter (fun o => is_Some o.2) (db_session w ++ [(lead_of_form rq, None)]);
        flashes := flashes w ++ [("danger"%string, msg_not_saved)] |}).
Proof.
  intros Hm Hb Hc. unfold required_blank in Hb.
  apply orb_false_elim in Hb as [Hb He]. apply orb_false_elim in Hb as [Hn Hp].
  unfold capture. rewrite Hm, Hn, Hp, He. cbn [app].
  unfold try_m, bindM, session_add, session_commit, session_rollback, flash, lead_id_of, retM.
  cbn [db_leads db_session flashes]. rewrite Hc. reflexivity.
Qed.

Lemma capture_blank :
  method rq = POST -> required_blank rq = true ->
  capture e rq w
  = (Ok (Render "lead_capture.html" no_context),
     {| db_leads := db_leads w; db_session := db_session w;
        flashes := flashes w ++ field_errors rq |}).
Proof.
  intros Hm Hb. unfold capture, field_errors, required_blank in *. rewrite Hm.
  destruct (is_empty (form_field rq "name")),
    (is_empty (form_field rq "phone")), (is_empty (form_field rq "email"));
    try discriminate Hb; cbn; rewrite <- ?app_assoc; reflexivity.
Qed.

Lemma capture_get :
  method rq = GET -> capture e rq w = (Ok (Render "lead_capture.html" no_context), w).
Proof. intros Hm. unfold capture. rewrite Hm. reflexivity. Qed.

End Capture.

(** The three ways a capture request can go. *)
Lemma capture_cases (e : env) (rq : request) (w : world) :
  (method rq = GET)
  \/ (method rq = POST /\ required_blank rq = true)
  \/ (method rq = POST /\ required_blank rq = false /\ commit_succeeds e = false)
  \/ (method rq = POST /\ required_blank rq = false /\ commit_succeeds e = true).
Proof.
  destruct (method rq), (required_blank rq), (commit_succeeds e); auto 10.
Qed.

Lemma field_errors_danger (rq : request) :
  Forall (fun f => f.1 = "danger"%string) (field_errors rq).
Proof.
  unfold field_errors.
  destruct (is_empty (form_field rq "name")),
    (is_empty (form_field rq "phone")), (is_empty (form_field rq "email"));
    cbn [app]; repeat constructor.
Qed.

Lemma field_errors_blank (rq : request) :
  required_blank rq = true -> has_category "danger" (field_errors rq) = true.
Proof.
  unfold field_errors, required_blank.
  destruct (is_empty (form_field rq "name")),
    (is_empty (form_field rq "phone")), (is_empty (form_field rq "email"));
    try discriminate; reflexivity.
Qed.

Lemma field_errors_no_success (rq : request) :
  has_category "success" (field_errors rq) = false.
Proof.
  unfold field_errors.
  destruct (is_empty (form_field rq "name")),
    (is_empty (form_field rq "phone")), (is_empty (form_field rq "email"));
    reflexivity.
Qed.

Lemma flush_next_id_free (now : Z) (s : list (transient * option Z))
    (t : gmap Z Lead.t) :
  t !! next_id (foldl (flush_one now) (t, []) s).1 = None.
Proof.
  destruct (t !! _) as [l|] eqn:E; [|reflexivity].
  apply (flush_keeps now s (t, [])) in E. rewrite next_id_fresh in E.
  discriminate.
Qed.

(** A rollback drops the object that was added and keeps the others. *)
Lemma rollback_flushed (s : list (transient * option Z)) (l : transient) :
  Forall (fun o => flushed o = true) s ->
  filter (fun o => is_Some o.2) (s ++ [(l, None)]) = s.
Proof.
  induction s as [|o s IH]; intros H.
  - cbn [app]. rewrite filter_cons_False; [reflexivity|].
    cbn [snd]. intros [x Hx]. discriminate.
  - apply Forall_cons in H as [Ho Hs]. cbn [app].
    rewrite filter_cons_True, (IH Hs); [reflexivity|].
    unfold flushed in Ho. destruct (o.2); [eauto|discriminate].
Qed.

(** C8, as amended. A capture submission with name, phone and e-mail
    filled in, on a session that holds no object without a key (as every
    request leaves it), adds exactly one row under a key that was free and
    redirects to the dashboard with that key when the commit succeeds, and
    leaves the session without a pending object again; when the commit
    fails it rolls back, leaves the table and the session as they were and
    renders the capture form again. *)
Theorem capture_persists_one (e : env) (rq : request) (w : world) :
  method rq = POST ->
  required_blank rq = false ->
  Forall (fun o => flushed o = true) (db_session w) ->
  let i := next_id (db_leads w) in
  db_leads w !! i = None
  /\ exists w',
      if commit_succeeds e
      then capture e rq w = (Ok (Redirect (url_dashboard (Some i)) 302), w')
           /\ db_leads w' = <[ i := new_row e rq i ]> (db_leads w)
           /\ size (db_leads w') = S (size (db_leads w))
           /\ Forall (fun o => flushed o = true) (db_session w')
      else capture e rq w = (Ok (Render "lead_capture.html" no_context), w')
           /\ db_leads w' = db_leads w
           /\ db_session w' = db_session w.
Proof.
  intros Hm Hb Hs i. split; [apply next_id_fresh|].
  destruct (commit_succeeds e) eqn:Hc.
  - pose proof (capture_commits e rq w Hm Hb Hc) as H. cbv zeta in H.
    rewrite (flush_idle (utcnow e) (db_session w) (db_leads w, []) Hs) in H.
    cbn [fst snd app] in H. fold i in H.
    eexists. split; [exact H|]. cbn [db_leads db_session].
    split; [reflexivity|].
    split; [apply map_size_insert_None, next_id_fresh|].
    apply Forall_app. split; [exact Hs|]. repeat constructor.
  - rewrite capture_fails by assumption.
    eexists. split; [reflexivity|]. cbn [db_leads db_session].
    split; [reflexivity|]. exact (rollback_flushed _ _ Hs).
Qed.

(** A second submission, after one lead was stored. *)
Lemma capture_persists_one_witness :
  exists w',
    capture env_up filled_request one_lead_world
    = (Ok (Redirect (url_dashboard (Some 2)) 302), w')
    /\ size (db_leads w') = 2%nat.
Proof.
  destruct (capture_persists_one env_up filled_request one_lead_world)
    as (_ & w' & Hc & _ & Hsz & _);
    [reflexivity | vm_compute; reflexivity | vm_compute; repeat constructor |].
  exists w'. split; [exact Hc|exact Hsz].
Defined.

(** X1. Following the redirect of a capture shows the lead that was just
    stored, with the fields as they were submitted, trimmed. *)
Theorem capture_then_dashboard (e e2 : env) (rq rq2 : request) (w : world)
    (to : route) (code : Z) :
  (capture e rq w).1 = Ok (Redirect to code) ->
  method rq2 = GET ->
  url_dashboard (arg_lead_id rq2) = to ->
  exists i,
    arg_lead_id rq2 = Some i
    /\ db_leads w !! i = None
    /\ dashboard e2 rq2 (capture e rq w).2
       = (Ok (lead_page e2 (Some (new_row e rq i))), (capture e rq w).2).
Proof.
  intros Hr Hm2 Hto.
  destruct (capture_cases e rq w) as [Hm|[[Hm Hb]|[(Hm & Hb & Hc)|(Hm & Hb & Hc)]]].
  - rewrite capture_get in Hr by exact Hm. discriminate.
  - rewrite capture_blank in Hr by assumption. discriminate.
  - rewrite capture_fails in Hr by assumption. discriminate.
  - rewrite (capture_commits e rq w Hm Hb Hc) in Hr |- *. cbn [fst snd] in *.
    injection Hr as <- <-. injection Hto as Hi.
    eexists. split; [exact Hi|]. split; [apply flush_next_id_free|].
    unfold dashboard, bindM, retM, query_get, lead_page. rewrite Hi, Hm2.
    pose proof (next_id_pos (foldl (flush_one (utcnow e)) (db_leads w, [])
                               (db_session w)).1) as Hp.
    destruct (Z.eqb_spec (next_id (foldl (flush_one (utcnow e)) (db_leads w, [])
                                     (db_session w)).1) 0) as [E|_]; [lia|].
    cbn [db_leads fst snd]. rewrite lookup_insert_eq. reflexivity.
Qed.

(** X2. A capture never deletes or overwrites a row, and the key it hands
    out is above every key the table had. *)
Theorem capture_keeps_rows (e : env) (rq : request) (w : world) (k : Z)
    (l : Lead.t) :
  db_leads w !! k = Some l ->
  db_leads (capture e rq w).2 !! k = Some l
  /\ (forall i code,
         (capture e rq w).1 = Ok (Redirect (url_dashboard (Some i)) code) ->
         k < i).
Proof.
  intros Hk.
  destruct (capture_cases e rq w) as [Hm|[[Hm Hb]|[(Hm & Hb & Hc)|(Hm & Hb & Hc)]]].
  - rewrite capture_get by exact Hm. split; [exact Hk|discriminate].
  - rewrite capture_blank by assumption. split; [exact Hk|discriminate].
  - rewrite capture_fails by assumption. split; [exact Hk|discriminate].
  - rewrite (capture_commits e rq w Hm Hb Hc). cbn [fst snd db_leads].
    pose proof (flush_keeps (utcnow e) (db_session w) (db_leads w, []) k l Hk)
      as Hr.
    assert (Hlt : k < next_id (foldl (flush_one (utcnow e)) (db_leads w, [])
                                 (db_session w)).1)
      by (apply keys_below_next_id; eauto).
    split.
    + rewrite lookup_insert_ne by lia. exact Hr.
    + intros i code [= <- _]. exact Hlt.
Qed.

(** X3. A capture changes the table exactly when it is a [POST] with the
    three fields filled in and the commit goes through, and that is
    exactly when it flashes a message of the category success; every other
    [POST] flashes one of the category danger. *)
Theorem capture_reports_outcome (e : env) (rq : request) (w : world) :
  exists new,
    flashes (capture e rq w).2 = flashes w ++ new
    /\ (db_leads (capture e rq w).2 <> db_leads w
        <-> method rq = POST /\ required_blank rq = false
            /\ commit_succeeds e = true)
    /\ (has_category "success" new = true
        <-> db_leads (capture e rq w).2 <> db_leads w)
    /\ (method rq = POST -> db_leads (capture e rq w).2 = db_leads w ->
        has_category "danger" new = true).
Proof.
  destruct (capture_cases e rq w) as [Hm|[[Hm Hb]|[(Hm & Hb & Hc)|(Hm & Hb & Hc)]]].
  - rewrite capture_get by exact Hm. exists []. cbn [snd].
    rewrite app_nil_r. repeat split; try congruence.
    + intros (H & _). congruence.
    + discriminate.
  - rewrite capture_blank by assumption. exists (field_errors rq).
    cbn [snd db_leads flashes]. repeat split; try congruence.
    + intros (_ & H & _). congruence.
    + rewrite field_errors_no_success. discriminate.
    + intros _ _. exact (field_errors_blank rq Hb).
  - rewrite capture_fails by assumption. eexists.
    cbn [snd db_leads flashes]. split; [reflexivity|].
    repeat split; try congruence.
    + intros (_ & _ & H). congruence.
    + discriminate.
  - rewrite (capture_commits e rq w Hm Hb Hc). eexists.
    cbn [snd db_leads flashes]. split; [reflexivity|].
    assert (Hne : <[ next_id (foldl (flush_one (utcnow e)) (db_leads w, [])
                               (db_session w)).1
                     := new_row e rq
                          (next_id (foldl (flush_one (utcnow e)) (db_leads w, [])
                                      (db_session w)).1) ]>
                    (foldl (flush_one (utcnow e)) (db_leads w, [])
                       (db_session w)).1
                  <> db_leads w).
    { intros E.
      pose proof (flush_next_id_free (utcnow e) (db_session w) (db_leads w)) as F.
      apply (f_equal (fun t => t !! next_id (foldl (flush_one (utcnow e))
                                              (db_leads w, []) (db_session w)).1))
        in E.
      rewrite lookup_insert_eq, F in E. discriminate. }
    repeat split; auto.
Qed.

Lemma new_row_ok (e : env) (rq : request) (i : Z) :
  required_blank rq = false -> 1 <= i -> row_ok i (new_row e rq i) = true.
Proof.
  intros Hb Hi. unfold required_blank in Hb.
  apply orb_false_elim in Hb as [Hb He]. apply orb_false_elim in Hb as [Hn Hp].
  unfold row_ok, new_row.
  cbn [Lead.id Lead.name Lead.phone Lead.email Lead.company].
  rewrite Hn, Hp, He, !form_field_stripped, Z.eqb_refl.
  destruct (Z.ltb_spec 0 i); [reflexivity|lia].
Qed.

(** X4. A capture keeps the store well formed: every row filed under its
    own positive key with name, phone and e-mail neither empty nor padded,
    and no object left in the session without a key, also after a commit
    that failed. *)
Theorem capture_keeps_world_ok (e : env) (rq : request) (w : world) :
  world_ok w -> world_ok (capture e rq w).2.
Proof.
  intros [Ht Hs].
  destruct (capture_cases e rq w) as [Hm|[[Hm Hb]|[(Hm & Hb & Hc)|(Hm & Hb & Hc)]]].
  - rewrite capture_get by exact Hm. split; assumption.
  - rewrite capture_blank by assumption. split; assumption.
  - rewrite capture_fails by assumption. split; [exact Ht|].
    cbn [snd db_session]. apply Forall_forall. intros o Ho.
    apply list_elem_of_filter in Ho as [[i Hi] _].
    unfold flushed. rewrite Hi. reflexivity.
  - rewrite (capture_commits e rq w Hm Hb Hc).
    rewrite (flush_idle (utcnow e) (db_session w) (db_leads w, []) Hs).
    cbn [fst snd db_leads db_session app]. split.
    + apply map_Forall_insert_2; [|exact Ht].
      apply new_row_ok; [exact Hb|apply next_id_pos].
    + apply Forall_app. split; [exact Hs|]. repeat constructor.
Qed.

(** ** Instances *)

Lemma capture_then_dashboard_witness :
  exists i,
    arg_lead_id (lead_request 1) = Some i
    /\ db_leads empty_world !! i = None
    /\ dashboard env_down (lead_request 1) one_lead_world
       = (Ok (lead_page env_down (Some (new_row env_up filled_request i))),
          one_lead_world).
Proof.
  apply (capture_then_dashboard env_up env_down filled_request (lead_request 1)
           empty_world (url_dashboard (Some 1)) 302); vm_compute; reflexivity.
Defined.

Lemma capture_keeps_rows_witness :
  db_leads (capture env_up filled_request one_lead_world).2 !! 1
  = Some (new_row env_up filled_request 1).
Proof.
  refine (proj1 (capture_keeps_rows env_up filled_request one_lead_world 1 _ _)).
  vm_compute. reflexivity.
Defined.

Lemma capture_keeps_world_ok_witness : world_ok one_lead_world.
Proof.
  apply (capture_keeps_world_ok env_up filled_request empty_world).
  split; [apply map_Forall_empty|constructor].
Defined.

Lemma dashboard_fails_at_counts_witness :
  parsed_counts (funnel_request "1e308" "1e-308" "500") = Raise OverflowError.
Proof.
  refine (proj2 (proj1 (proj1 (dashboard_fails_at_counts env_up
                                 (funnel_request "1e308" "1e-308" "500")
                                 empty_world OverflowError eq_refl)) _)).
  vm_compute. reflexivity.
Defined.

Lemma parse_num_reads_numeral_witness :
  parse_num (Some "1.234,56") = Ok (F64.of_decimal false 123456 (-2)).
Proof.
  refine (proj1 (parse_num_reads_numeral false "1.234" "56" eq_refl eq_refl _)).
  vm_compute. discriminate.
Defined.

Lemma parse_num_inverts_br_money_witness :
  parse_num (Some "1.234,50") = Py.round2 (F64.of_decimal false 12345 (-1)).
Proof. apply parse_num_inverts_br_money; vm_compute; reflexivity. Defined.

Lemma empty_returns :
  project_funnel f0 f0 (F64.of_Z 20) (F64.of_Z 80) (F64.of_Z 25) (F64.of_Z 500)
  = Ok empty_result.
Proof. vm_compute. reflexivity. Qed.

Lemma ratios_default_to_zero_witness :
  cac empty_result = f0 /\ closers empty_result = 1.
Proof.
  refine (proj1 (ratios_default_to_zero _ _ _ _ _ _ empty_result empty_returns) _).
  vm_compute. discriminate.
Defined.

Lemma staffing_covers_demand_witness :
  comparecimentos example_result <= 180 * sdrs example_result
  /\ (1 < sdrs example_result ->
      180 * (sdrs example_result - 1) < comparecimentos example_result).
Proof.
  refine (proj1 (staffing_covers_demand _ _ _ _ _ _ example_result
                   example_returns) _).
  vm_compute. reflexivity.
Defined.

Lemma funnel_narrows_witness :
  Bound.toward_zero (agendamentos example_result) (leads example_result)
  /\ Bound.toward_zero (comparecimentos example_result)
       (agendamentos example_result)
  /\ Bound.toward_zero (vendas example_result) (comparecimentos example_result)
  /\ (F64.ltb (F64.of_Z 10000) f0 = false -> 0 <= leads example_result).
Proof.
  apply (funnel_narrows (F64.of_Z 10000) (F64.of_Z 50) (F64.of_Z 20)
           (F64.of_Z 80) (F64.of_Z 25) (F64.of_Z 500));
    [vm_compute; reflexivity..|exact example_returns].
Defined.

Lemma funnel_rate_is_percentage_witness :
  Bound.within 0 100 (taxa_total_funil example_result) = true.
Proof.
  apply (funnel_rate_is_percentage (F64.of_Z 10000) (F64.of_Z 50) (F64.of_Z 20)
           (F64.of_Z 80) (F64.of_Z 25) (F64.of_Z 500));
    [vm_compute; reflexivity..|exact example_returns].
Defined.

Lemma lead_repr_injective_witness :
  Some 1 = Some 1 /\ "Ana"%string = "Ana"%string.
Proof. exact (lead_repr_injective (Some 1) (Some 1) "Ana" "Ana" eq_refl). Defined.

Lemma parse_num_ignores_padding_witness :
  parse_num (Some "  7 ") = parse_num (Some "7").
Proof. exact (parse_num_ignores_padding "  " "7" " " eq_refl eq_refl). Defined.

Lemma projection_has_no_nan_witness :
  forallb (fun x => negb (is_nan x)) (amounts example_result) = true.
Proof.
  apply (projection_has_no_nan (F64.of_Z 10000) (F64.of_Z 50) (F64.of_Z 20)
           (F64.of_Z 80) (F64.of_Z 25) (F64.of_Z 500));
    [vm_compute; reflexivity..|exact example_returns].
Defined.

Section RoundTwice.

(** The integer within less than half of [n / d] is what
    [div_half_even] returns. *)
Lemma div_half_even_unique (n d c : Z) :
  0 < d -> 2 * Z.abs (n - c * d) < d -> F64.div_half_even n d = c.
Proof.
  intros Hd Hc. unfold F64.div_half_even.
  pose proof (Z.div_mod n d ltac:(lia)) as E.
  pose proof (Z.mod_pos_bound n d Hd) as Hr.
  remember (n / d) as q eqn:Eq. remember (n mod d) as r eqn:Er.
  clear Eq Er. subst n.
  assert (Hcq : c = q \/ c = q + 1) by nia.
  destruct Hcq as [->| ->].
  - replace (d * q + r - q * d) with r in Hc by ring.
    replace (2 * r ?= d) with Lt by (symmetry; apply Z.compare_lt_iff; lia).
    reflexivity.
  - replace (d * q + r - (q + 1) * d) with (r - d) in Hc by ring.
    replace (2 * r ?= d) with Gt by (symmetry; apply Z.compare_gt_iff; lia).
    reflexivity.
Qed.

Lemma digits_of_hundred : Zdigits2 100 = 7.
Proof. reflexivity. Qed.

(** Below [2 ^ 51] hundredths, the float nearest to [c / 100] has [c] for
    its hundredths. *)
Lemma cents_of_hundredths (s : bool) (c : positive) :
  Zpos c < 2 ^ 51 ->
  exists Mf Ef,
    F64.of_ratio s c 100 = S754_finite s Mf Ef
    /\ F64.cents (S754_finite s Mf Ef) = Zpos c.
Proof.
  intros Hc.
  pose proof (Zdigits2_pos (Zpos c) ltac:(lia)) as Hd1.
  pose proof (Zdigits2_le (Zpos c) 51 ltac:(lia) ltac:(lia)) as Hd2.
  assert (Ere : F64.ratio_exp c 100 = Zdigits2 (Zpos c) - 60).
  { unfold F64.ratio_exp. rewrite digits_of_hundred, fexp_eq. lia. }
  rewrite of_ratio_unfold, Ere.
  set (dc := Zdigits2 (Zpos c)) in *.
  set (N := Zpos c * 2 ^ (- (dc - 60))).
  assert (HdN : Zdigits2 N = 60).
  { unfold N. rewrite Zdigits2_shift by lia. fold dc. lia. }
  assert (HN0 : 0 < N)
    by (unfold N; apply Z.mul_pos_pos; [lia|apply Z.pow_pos_nonneg; lia]).
  pose proof (Zdigits2_bounds N HN0) as HNb. rewrite HdN in HNb.
  change (2 ^ (60 - 1)) with 576460752303423488 in HNb.
  change (2 ^ 60) with 1152921504606846976 in HNb.
  set (m := N / 100).
  pose proof (Z.div_mod N 100 ltac:(lia)) as EN. fold m in EN.
  pose proof (Z.mod_pos_bound N 100 ltac:(lia)) as HrN.
  assert (Hm : 2 ^ 52 <= m < 2 ^ 54).
  { change (2 ^ 52) with 4503599627370496.
    change (2 ^ 54) with 18014398509481984. lia. }
  assert (Hdm : 53 <= Zdigits2 m <= 54).
  { split.
    - change 53 with (Zdigits2 (2 ^ 52)). apply Zdigits2_mono.
      change (2 ^ 52) with 4503599627370496 in *. lia.
    - apply Zdigits2_le; lia. }
  destruct (binary_round_aux_normal s m (dc - 60)
              (new_location 100 (N mod 100)))
    as (M & Mf & Ef & HM & ER & HEf & EM); try lia.
  exists Mf, Ef. split; [exact ER|].
  set (k := Zdigits2 m - 53) in *.
  cbn [F64.cents].
  destruct (Z.leb_spec 0 Ef) as [Hle|Hlt]; [lia|].
  apply div_half_even_unique; [apply Z.pow_pos_nonneg; lia|].
  (* everything at the scale of [N] *)
  set (t := Ef - (dc - 60 + k)) in *.
  assert (Ht : 0 <= t <= 1) by (unfold t; lia).
  assert (Hk : 0 <= k <= 1) by (unfold k; lia).
  pose proof (Z.div_mod m (2 ^ k) ltac:(apply Z.pow_nonzero; lia)) as Em.
  pose proof (Z.mod_pos_bound m (2 ^ k) ltac:(apply Z.pow_pos_nonneg; lia))
    as Hrm.
  set (q := m / 2 ^ k) in *.
  assert (EEf : - Ef = - (dc - 60) - k - t) by (unfold t; lia).
  assert (Epow : 2 ^ (- (dc - 60)) = 2 ^ (- Ef) * 2 ^ (k + t)).
  { rewrite <- Z.pow_add_r by lia. f_equal. lia. }
  assert (Hbig : 512 <= 2 ^ (- (dc - 60))).
  { change 512 with (2 ^ 9). apply Z.pow_le_mono_r; lia. }
  assert (Hp : 0 < 2 ^ (- Ef)) by (apply Z.pow_pos_nonneg; lia).
  assert (Hkt : 2 ^ (k + t) = 2 ^ k * 2 ^ t) by (apply Z.pow_add_r; lia).
  assert (EN' : N = Zpos c * 2 ^ (- Ef) * 2 ^ (k + t)).
  { unfold N. rewrite Epow. ring. }
  assert (Hk2 : 2 ^ k = 1 \/ 2 ^ k = 2).
  { destruct (Z.eq_dec k 0) as [->|]; [left; reflexivity|].
    right. replace k with 1 by lia. reflexivity. }
  assert (Ht2 : 2 ^ t = 1 \/ 2 ^ t = 2).
  { destruct (Z.eq_dec t 0) as [->|]; [left; reflexivity|].
    right. replace t with 1 by lia. reflexivity. }
  rewrite Hkt in *.
  destruct Hk2 as [Ek|Ek], Ht2 as [Et|Et]; rewrite Ek, Et in *; nia.
Qed.

(** Rounding to two places a second time changes nothing, below
    [2 ^ 51] hundredths. *)
Lemma round2_twice (x y : float) :
  F64.cents x < 2 ^ 51 -> Py.round2 x = Ok y -> Py.round2 y = Ok y.
Proof.
  destruct x as [s|s| |s m e]; try (intros _ [= <-]; reflexivity).
  intros Hc. cbn [Py.round2].
  destruct (F64.cents (S754_finite s m e)) as [|c|c] eqn:Ec.
  - cbn [F64.of_decimal]. intros [= <-]. reflexivity.
  - cbn [F64.of_decimal]. change (0 <=? -2) with false. cbv iota.
    change (Z.to_pos (10 ^ (- -2))) with 100%positive.
    destruct (cents_of_hundredths s c Hc) as (Mf & Ef & ER & Ecents).
    rewrite ER. intros [= <-].
    cbn [Py.round2]. rewrite Ecents.
    cbn [F64.of_decimal]. change (0 <=? -2) with false. cbv iota.
    change (Z.to_pos (10 ^ (- -2))) with 100%positive.
    rewrite ER. reflexivity.
  - cbn [F64.of_decimal]. intros [= <-]. reflexivity.
Qed.

Variables inv cpl pa pc pv tk : float.

(** X17. The second rounding of the return per lead (line 185) changes
    nothing: whenever the projection returns with leads, the field is the
    quotient of the revenue by the leads (line 169) rounded once, as long
    as that quotient is below [2 ^ 51] hundredths. *)
Theorem retorno_por_lead_rounded_once (r : resultados) :
  project_funnel inv cpl pa pc pv tk = Ok r ->
  exists receita0,
    Py.int_mul_float (vendas r) tk = Ok receita0
    /\ forall q,
         0 < leads r ->
         Py.float_truediv_int receita0 (leads r) = Ok q ->
         F64.cents q < 2 ^ 51 ->
         Py.round2 q = Ok (retorno_por_lead r).
Proof.
  intros H.
  destruct (project_funnel_steps _ _ _ _ _ _ r H)
    as (rec & cac0 & roas0 & cpc0 & rpl0 & _ & Hrec & _ & _ & _ & _ & _ & _
        & Hrpl & _ & _ & _ & _ & Rrpl & _).
  exists rec. split; [exact Hrec|].
  intros q Hl Hq Hc.
  rewrite (proj2 (Z.ltb_lt 0 (leads r)) Hl), Hq in Hrpl. cbn [bind] in Hrpl.
  rewrite Hrpl, <- Rrpl. symmetry. exact (round2_twice q rpl0 Hc Hrpl).
Qed.

End RoundTwice.

Lemma retorno_por_lead_rounded_once_witness :
  exists r,
    project_funnel (F64.of_Z 10000) (F64.of_Z 50) (F64.of_Z 20) (F64.of_Z 80)
      (F64.of_Z 25) (F64.of_decimal false 33333 (-2)) = Ok r
    /\ Py.round2 (F64.div (F64.mul (F64.of_Z 8)
                             (F64.of_decimal false 33333 (-2)))
                    (F64.of_Z 200))
       = Ok (retorno_por_lead r).
Proof.
  let v := eval vm_compute in
    (project_funnel (F64.of_Z 10000) (F64.of_Z 50) (F64.of_Z 20)
       (F64.of_Z 80) (F64.of_Z 25) (F64.of_decimal false 33333 (-2))) in
  match v with
  | Ok ?r =>
      exists r;
      assert (H : project_funnel (F64.of_Z 10000) (F64.of_Z 50) (F64.of_Z 20)
                    (F64.of_Z 80) (F64.of_Z 25)
                    (F64.of_decimal false 33333 (-2)) = Ok r)
        by (vm_compute; reflexivity)
  end.
  split; [exact H|].
  destruct (retorno_por_lead_rounded_once _ _ _ _ _ _ _ H)
    as (rec & Hrec & Hq).
  apply Hq; [vm_compute; reflexivity| |vm_compute; reflexivity].
  vm_compute in Hrec. injection Hrec as <-. vm_compute. reflexivity.
Defined.

(** * The count stages against the exact chain

    Every float operation is a rounding: its result and the exact result
    lie in one cell of the binary64 grid.  Below [2 ^ 50] the cells are
    narrow enough for the truncated counts to be within 1 of the exact
    ones. *)

Section Cells.

(** The second shift of a rounding loses nothing: a mantissa below
    [2 ^ 53] is kept, and [2 ^ 53] itself is halved. *)
Lemma shr_fexp_carry (m1 E : Z) :
  0 <= m1 <= 2 ^ 53 -> -1074 <= E ->
  let r2 := shr_fexp F64.prec F64.emax m1 E loc_Exact in
  E <= snd r2 /\ shr_m (fst r2) * 2 ^ (snd r2 - E) = m1.
Proof.
  intros Hm HE r2.
  assert (Hk : F64.shift_of m1 E <= 0 \/ (m1 = 2 ^ 53 /\ F64.shift_of m1 E = 1)).
  { destruct (Z.eq_dec m1 (2 ^ 53)) as [->|Hne].
    - right. split; [reflexivity|]. unfold F64.shift_of. rewrite fexp_eq.
      change (Zdigits2 (2 ^ 53)) with 54. lia.
    - left. unfold F64.shift_of. rewrite fexp_eq.
      pose proof (Zdigits2_le m1 53 ltac:(lia) ltac:(lia)). lia. }
  destruct Hk as [Hk|[-> Hk]].
  - unfold r2. rewrite (shr_fexp_idle m1 E loc_Exact Hk). cbn [fst snd].
    rewrite shr_m_record, Z.sub_diag. lia.
  - unfold r2. rewrite (surjective_pairing (shr_fexp _ _ _ _ _)).
    rewrite (shr_fexp_exact (2 ^ 53) E (2 ^ 52)), shr_fexp_e, Hk; try lia.
    + cbn [fst snd shr_m]. change (0 <? 1) with true. cbv iota.
      replace (E + 1 - E) with 1 by lia. split; [lia|reflexivity].
    + intros _. rewrite Hk. reflexivity.
Qed.

(** A rounding, whatever the location: the result is the quotient of the
    mantissa by the power of two that is shifted out, or one more, at the
    exponent raised by as much. *)
Lemma binary_round_aux_cell (s : bool) (m e : Z) (l : location) :
  0 <= m ->
  let k0 := Z.max (F64.shift_of m e) 0 in
  exists m1,
    m / 2 ^ k0 <= m1 <= m / 2 ^ k0 + 1
    /\ (l = loc_Exact -> k0 = 0 -> m1 = m)
    /\ (0 < k0 -> e + k0 = -1074 \/ 2 ^ 52 <= m / 2 ^ k0)
    /\ match binary_round_aux F64.prec F64.emax s m e l with
       | S754_zero s' => s' = s /\ m1 = 0
       | S754_finite s' Mf Ef =>
           s' = s /\ e + k0 <= Ef /\ Zpos Mf * 2 ^ (Ef - (e + k0)) = m1
       | S754_infinity _ => True
       | S754_nan => False
       end.
Proof.
  intros Hm k0. rewrite binary_round_aux_unfold. cbv zeta.
  set (r1 := shr_fexp F64.prec F64.emax m e l).
  set (m1 := round_nearest_even (shr_m (fst r1)) (loc_of_shr_record (fst r1))).
  assert (Hk0 : 0 <= k0) by (unfold k0; lia).
  pose proof (pow2_pos k0 Hk0) as Hp0.
  assert (H1 : shr_m (fst r1) = m / 2 ^ k0 /\ snd r1 = e + k0).
  { unfold r1. rewrite shr_fexp_m, shr_fexp_e by exact Hm.
    destruct (Z.ltb_spec 0 (F64.shift_of m e)) as [Hk|Hk].
    - replace k0 with (F64.shift_of m e) by (unfold k0; lia). auto.
    - replace k0 with 0 by (unfold k0; lia).
      rewrite Z.div_1_r, Z.add_0_r. auto. }
  destruct H1 as [H1 He1].
  pose proof (round_nearest_even_bounds (shr_m (fst r1))
                (loc_of_shr_record (fst r1))) as Hb.
  fold m1 in Hb. rewrite H1 in Hb.
  pose proof (div_pow2_nonneg m k0 Hm) as Hq.
  (* the quotient has at most 53 digits, at an exponent of -1074 at least *)
  assert (HqE : m / 2 ^ k0 < 2 ^ 53 /\ -1074 <= e + k0).
  { assert (Hs : F64.shift_of m e = Z.max (Zdigits2 m + e - 53) (-1074) - e)
      by (unfold F64.shift_of; rewrite fexp_eq; reflexivity).
    pose proof (Zdigits2_nonneg m) as Hd0.
    split; [|unfold k0; lia].
    destruct (Z.eq_dec (m / 2 ^ k0) 0) as [->|Hne]; [reflexivity|].
    pose proof (Zdigits2_bounds (m / 2 ^ k0) ltac:(lia)) as [_ Hu].
    rewrite Zdigits2_div_le in Hu by lia.
    eapply Z.lt_le_trans; [exact Hu|]. apply Z.pow_le_mono_r; [lia|].
    unfold k0. lia. }
  destruct HqE as [Hq53 HE].
  exists m1. split; [exact Hb|]. split.
  { intros -> E0.
    assert (Hk : F64.shift_of m e <= 0) by (unfold k0 in E0; lia).
    unfold m1, r1. rewrite (shr_fexp_idle m e loc_Exact Hk). cbn [fst].
    rewrite shr_m_record, loc_of_record_of_loc. reflexivity. }
  split.
  { intros Hpos.
    assert (Ek : k0 = F64.shift_of m e) by (unfold k0; lia).
    rewrite Ek in *. unfold F64.shift_of in *. rewrite fexp_eq in *.
    destruct (Z.le_gt_cases (Zdigits2 m + e - 53) (-1074)) as [Hs|Hn];
      [left; lia|right].
    replace (Z.max (Zdigits2 m + e - 53) (-1074) - e) with (Zdigits2 m - 53)
      in * by lia.
    assert (Hm0 : 0 < m).
    { destruct (Z.eq_dec m 0) as [->|]; [cbn [Zdigits2] in Hpos; lia|lia]. }
    assert (HD : Zdigits2 (m / 2 ^ (Zdigits2 m - 53)) = 53)
      by (rewrite Zdigits2_div by lia; lia).
    assert (Hq0 : 0 < m / 2 ^ (Zdigits2 m - 53)).
    { destruct (Z.eq_dec (m / 2 ^ (Zdigits2 m - 53)) 0) as [E0|];
        [rewrite E0 in HD; discriminate|lia]. }
    pose proof (Zdigits2_bounds _ Hq0) as [Hl _]. rewrite HD in Hl.
    exact Hl. }
  rewrite He1.
  destruct (shr_fexp_carry m1 (e + k0) ltac:(lia) HE) as [HE2 HM2].
  set (r2 := shr_fexp F64.prec F64.emax m1 (e + k0) loc_Exact) in *.
  pose proof (pow2_pos (snd r2 - (e + k0)) ltac:(lia)) as Hp2.
  destruct (shr_m (fst r2)) as [|p|p] eqn:Ep.
  - split; [reflexivity|]. lia.
  - destruct (snd r2 <=? 971); [|exact I]. auto.
  - nia.
Qed.

End Cells.

Section Values.

Import Exact.

Local Open Scope Q_scope.

Lemma pow2Q_pos (e : Z) : 0 < 2 ^ e.
Proof. apply Qpower_0_lt. reflexivity. Qed.

Lemma pow2Q_add (a b : Z) : 2 ^ (a + b) == 2 ^ a * 2 ^ b.
Proof. apply Qpower_plus. discriminate. Qed.

Lemma pow2Q_Z (k : Z) : (0 <= k)%Z -> inject_Z (2 ^ k) == 2 ^ k.
Proof. intros Hk. rewrite Zpower_Qpower by exact Hk. reflexivity. Qed.

Lemma pow2Q_le (a b : Z) : (a <= b)%Z -> 2 ^ a <= 2 ^ b.
Proof. intros H. apply Qpower_le_compat_l; [exact H|discriminate]. Qed.

Lemma value_opp (s : bool) (m e : Z) :
  value s m e == (if s then - value false m e else value false m e).
Proof.
  unfold value. destruct s; cbn [cond_Zopp]; [|reflexivity].
  rewrite inject_Z_opp. ring.
Qed.

Lemma value_nonneg (m e : Z) : (0 <= m)%Z -> 0 <= value false m e.
Proof.
  intros Hm. unfold value. cbn [cond_Zopp].
  apply Qmult_le_0_compat; [|apply Qlt_le_weak, pow2Q_pos].
  rewrite Zle_Qle in Hm. exact Hm.
Qed.

Lemma value_le (a b e : Z) :
  (a <= b)%Z -> value false a e <= value false b e.
Proof.
  intros H. unfold value. cbn [cond_Zopp].
  apply Qmult_le_compat_r; [|apply Qlt_le_weak, pow2Q_pos].
  rewrite Zle_Qle in H. exact H.
Qed.

(** Moving a power of two from the mantissa to the exponent. *)
Lemma value_shift (s : bool) (m k e : Z) :
  (0 <= k)%Z -> value s (m * 2 ^ k) e == value s m (e + k).
Proof.
  intros Hk. unfold value.
  rewrite <- cond_Zopp_mul, inject_Z_mult, pow2Q_Z, pow2Q_add by exact Hk.
  ring.
Qed.

(** The exact value of a finite float. *)
Lemma to_Q_value (s : bool) (m : positive) (e : Z) :
  exists q, F64.to_Q (S754_finite s m e) = Some q
            /\ q == value s (Zpos m) e.
Proof.
  rewrite to_Q_finite. eexists. split; [reflexivity|].
  destruct (Z.leb_spec 0 e) as [He|He].
  - unfold value. rewrite inject_Z_mult, pow2Q_Z by exact He. reflexivity.
  - unfold value. rewrite Qmake_Qdiv.
    replace e with (- - e)%Z at 2 by lia.
    rewrite Qpower_opp, <- pow2Q_Z by lia.
    assert (Hp : (0 < 2 ^ (- e))%Z) by (apply Z.pow_pos_nonneg; lia).
    rewrite Z2Pos.id by exact Hp. reflexivity.
Qed.

Lemma to_Q_zero (s : bool) : F64.to_Q (S754_zero s) = Some 0.
Proof. reflexivity. Qed.

End Values.

Section RoundCell.

Import Exact.

Local Open Scope Q_scope.

Lemma value_succ (m e : Z) : value false (m + 1) e == value false m e + 2 ^ e.
Proof. unfold value. cbn [cond_Zopp]. rewrite inject_Z_plus. ring. Qed.

(** The rounding of a number known between two neighbours of the grid at
    the exponent [e]. *)
Lemma round_cell (s : bool) (m e : Z) (l : location) (T V : Q) :
  (0 <= m)%Z ->
  value false m e <= T <= value false (m + 1) e ->
  (l = loc_Exact -> T == value false m e) ->
  (l <> loc_Exact -> (F64.shift_of m e <= 0)%Z ->
   e = (-1074)%Z \/ (2 ^ 52 <= m)%Z) ->
  F64.to_Q (binary_round_aux F64.prec F64.emax s m e l) = Some V ->
  cell V (if s then - T else T).
Proof.
  intros Hm HT Hexact Hdiv HV.
  destruct (binary_round_aux_cell s m e l Hm) as (m1 & Hb & Hex & Hfine & Hres).
  set (k0 := Z.max (F64.shift_of m e) 0) in *.
  set (q := (m / 2 ^ k0)%Z) in *.
  set (E := (e + k0)%Z) in *.
  assert (Hk0 : (0 <= k0)%Z) by (unfold k0; lia).
  assert (Hq : (0 <= q)%Z) by (apply div_pow2_nonneg; exact Hm).
  pose proof (pow2_pos k0 Hk0) as Hp0.
  (* the value of the result *)
  assert (EV : V == value s m1 E).
  { destruct (binary_round_aux _ _ _ _ _ _) as [s'|s'| |s' Mf Ef];
      try discriminate HV.
    - destruct Hres as [_ ->]. injection HV as <-.
      unfold value. destruct s; cbn [cond_Zopp Z.opp];
        symmetry; apply Qmult_0_l.
    - destruct Hres as (-> & HE & <-).
      destruct (to_Q_value s Mf Ef) as (v & Ev & Hv).
      rewrite Ev in HV. injection HV as <-. rewrite Hv.
      rewrite value_shift by lia. replace (E + (Ef - E))%Z with Ef by lia.
      reflexivity. }
  (* the cell of the grid at the exponent [E] *)
  assert (Hlo : value false q E <= value false m1 E <= value false q E + 2 ^ E).
  { rewrite <- value_succ. split; apply value_le; lia. }
  assert (HTc : value false q E <= T <= value false q E + 2 ^ E).
  { rewrite <- value_succ.
    pose proof (Z.div_mod m (2 ^ k0) ltac:(lia)) as Em.
    pose proof (Z.mod_pos_bound m (2 ^ k0) Hp0) as Hr. fold q in Em.
    unfold E. rewrite <- !value_shift by exact Hk0.
    split.
    - eapply Qle_trans; [|exact (proj1 HT)]. apply value_le. nia.
    - eapply Qle_trans; [exact (proj2 HT)|]. apply value_le. nia. }
  assert (Hfine' : (l = loc_Exact /\ k0 = 0%Z)
                   \/ E = (-1074)%Z \/ (2 ^ 52 <= q)%Z).
  { destruct (Z.eq_dec k0 0%Z) as [E0|Hne].
    - destruct l as [|c] eqn:El; [left; auto|right].
      assert (Hs : (F64.shift_of m e <= 0)%Z) by (unfold k0 in E0; lia).
      destruct (Hdiv ltac:(discriminate) Hs) as [He|H52].
      + left. unfold E. lia.
      + right. unfold q. rewrite E0, Z.div_1_r. exact H52.
    - right. apply Hfine. lia. }
  pose proof (value_nonneg q E Hq) as Hlo0.
  pose proof (pow2Q_pos E) as Hw.
  pose proof (value_opp s m1 E) as Hs.
  destruct Hfine' as [[El E0]|Hgrid].
  - (* nothing is lost *)
    specialize (Hex El E0). specialize (Hexact El).
    assert (EE : E = e) by (unfold E; lia).
    rewrite Hex, EE in *.
    pose proof (value_nonneg m e Hm) as Hm0.
    exists (value false m e), 0.
    split; [exact Hm0|]. split; [lra|].
    split; [left; apply Qlt_le_weak, pow2Q_pos|].
    destruct s; [right|left]; lra.
  - exists (value false q E), (2 ^ E).
    split; [exact Hlo0|]. split; [lra|]. split.
    + destruct Hgrid as [->|H52]; [left; lra|right].
      unfold value. cbn [cond_Zopp].
      apply Qmult_le_compat_r; [|lra].
      rewrite <- pow2Q_Z by lia. rewrite <- Zle_Qle. exact H52.
    + destruct s; [right|left]; lra.
Qed.

End RoundCell.

Section CellOperations.

Import Exact.

Local Open Scope Q_scope.

Lemma cell_compat (V V' T T' : Q) :
  V == V' -> T == T' -> cell V T -> cell V' T'.
Proof.
  intros EV ET (lo & w & Hlo & Hw & Hf & Hc).
  exists lo, w. repeat split; try assumption; lra.
Qed.

Lemma cell_zero : cell 0 0.
Proof.
  exists 0, 0. split; [lra|]. split; [lra|].
  split; [left; apply Qlt_le_weak, pow2Q_pos|]. left. lra.
Qed.

Lemma value_mul (sx sy : bool) (mx my ex ey : Z) :
  value sx mx ex * value sy my ey
  == value (xorb sx sy) (mx * my) (ex + ey).
Proof.
  unfold value. rewrite pow2Q_add.
  assert (E : inject_Z (cond_Zopp (xorb sx sy) (mx * my))
              == inject_Z (cond_Zopp sx mx) * inject_Z (cond_Zopp sy my)).
  { rewrite <- inject_Z_mult. destruct sx, sy; cbn [xorb cond_Zopp];
      apply inject_Z_injective; lia. }
  rewrite E. ring.
Qed.

(** A finite product is a rounding of the exact product. *)
Lemma mul_cell (x y : float) (X Y V : Q) :
  F64.to_Q x = Some X -> F64.to_Q y = Some Y ->
  F64.to_Q (F64.mul x y) = Some V ->
  cell V (X * Y).
Proof.
  destruct x as [sx|sx| |sx mx ex]; try discriminate;
    destruct y as [sy|sy| |sy my ey]; try discriminate;
    cbn [F64.mul SFmul].
  - intros [= <-] [= <-] [= <-]. apply (cell_compat 0 _ 0); try reflexivity.
    apply cell_zero.
  - intros [= <-] _ [= <-]. apply (cell_compat 0 _ 0); [reflexivity|ring|].
    apply cell_zero.
  - intros _ [= <-] [= <-]. apply (cell_compat 0 _ 0); [reflexivity|ring|].
    apply cell_zero.
  - intros HX HY HV.
    destruct (to_Q_value sx mx ex) as (x' & Ex & Hx).
    destruct (to_Q_value sy my ey) as (y' & Ey & Hy).
    rewrite Ex in HX. rewrite Ey in HY. injection HX as <-. injection HY as <-.
    unfold F64.mul, SFmul in HV.
    pose proof (round_cell (xorb sx sy) (Zpos (mx * my)) (ex + ey) loc_Exact
                  (value false (Zpos (mx * my)) (ex + ey)) V ltac:(lia)) as H.
    eapply cell_compat; [reflexivity| |apply H].
    + rewrite Hx, Hy, value_mul, Pos2Z.inj_mul.
      rewrite (value_opp (xorb sx sy)). destruct (xorb sx sy); reflexivity.
    + split; [apply Qle_refl|]. apply value_le. lia.
    + reflexivity.
    + congruence.
    + exact HV.
Qed.

Lemma new_location_exact (d r : Z) : new_location d r = loc_Exact -> r = 0%Z.
Proof.
  unfold new_location, new_location_even, new_location_odd.
  destruct (Z.even d); destruct (Z.eqb_spec r 0) as [->|Hne];
    try reflexivity; intros H; discriminate H.
Qed.

(** The mantissa of a quotient has 53 digits or more, unless the exponent
    is the least one. *)
Lemma div_core_fine (mx my : positive) (ex ey : Z) :
  let e' := Z.min (F64.fexp (Zdigits2 (Zpos mx) + ex
                             - (Zdigits2 (Zpos my) + ey))) (ex - ey) in
  let q := (Zpos mx * 2 ^ (ex - ey - e') / Zpos my)%Z in
  (F64.shift_of q e' <= 0)%Z -> e' = (-1074)%Z \/ (2 ^ 52 <= q)%Z.
Proof.
  intros e' q Hs.
  assert (Hs0 : (0 <= ex - ey - e')%Z) by (unfold e'; lia).
  assert (Hq : (0 <= q)%Z).
  { apply Z.div_pos; [|lia].
    apply Z.mul_nonneg_nonneg; [lia|apply Z.pow_nonneg; lia]. }
  pose proof (Zdigits2_nonneg q) as Hdq.
  unfold F64.shift_of in Hs. rewrite fexp_eq in Hs.
  destruct (Z.eq_dec e' (-1074)%Z) as [E|Hne]; [left; exact E|right].
  assert (He : (e' <= Zdigits2 (Zpos mx) + ex - (Zdigits2 (Zpos my) + ey) - 53)%Z).
  { unfold e' in *. rewrite fexp_eq in *. lia. }
  pose proof (Zdigits2_bounds (Zpos mx) ltac:(lia)) as [Hlx _].
  pose proof (Zdigits2_bounds (Zpos my) ltac:(lia)) as [_ Huy].
  pose proof (Zdigits2_pos (Zpos mx) ltac:(lia)) as Hdx.
  pose proof (Zdigits2_pos (Zpos my) ltac:(lia)) as Hdy.
  set (dx := Zdigits2 (Zpos mx)) in *. set (dy := Zdigits2 (Zpos my)) in *.
  unfold q. apply Z.div_le_lower_bound; [lia|].
  set (t := (ex - ey - e')%Z) in *.
  assert (Ht : (53 - dx + dy <= t)%Z) by (unfold t; lia).
  assert (H1 : (2 ^ (dx - 1) * 2 ^ t <= Zpos mx * 2 ^ t)%Z)
    by (apply Z.mul_le_mono_nonneg_r; [apply Z.pow_nonneg; lia|lia]).
  rewrite <- Z.pow_add_r in H1 by lia.
  assert (H2 : (2 ^ (52 + dy) <= 2 ^ (dx - 1 + t))%Z)
    by (apply Z.pow_le_mono_r; lia).
  rewrite Z.pow_add_r in H2 by lia.
  assert (H3 : (0 < 2 ^ 52)%Z) by reflexivity.
  nia.
Qed.

(** A finite quotient is a rounding of the exact quotient. *)
Lemma div_cell (x y : float) (X Y V : Q) :
  F64.to_Q x = Some X -> F64.to_Q y = Some Y -> F64.is_zero y = false ->
  F64.to_Q (F64.div x y) = Some V ->
  cell V (X / Y).
Proof.
  destruct x as [sx|sx| |sx mx ex]; try discriminate;
    destruct y as [sy|sy| |sy my ey]; try discriminate;
    cbn [F64.div SFdiv].
  - intros [= <-] _ _ [= <-].
    apply (cell_compat 0 _ 0); [reflexivity| |apply cell_zero].
    unfold Qdiv. ring.
  - intros HX HY _ HV.
    destruct (to_Q_value sx mx ex) as (x' & Ex & Hx).
    destruct (to_Q_value sy my ey) as (y' & Ey & Hy).
    rewrite Ex in HX. rewrite Ey in HY. injection HX as <-. injection HY as <-.
    unfold F64.div, SFdiv in HV.
    pose proof (div_core_unfold mx my ex ey) as Hcore. cbv zeta in Hcore.
    pose proof (div_core_fine mx my ex ey) as Hfine. cbv zeta in Hfine.
    set (e' := Z.min (F64.fexp (Zdigits2 (Zpos mx) + ex
                                - (Zdigits2 (Zpos my) + ey))) (ex - ey)) in *.
    assert (Hs0 : (0 <= ex - ey - e')%Z) by (unfold e'; lia).
    set (t := (ex - ey - e')%Z) in *.
    rewrite Hcore in HV.
    pose proof (Z.div_mod (Zpos mx * 2 ^ t) (Zpos my) ltac:(lia)) as Edm.
    pose proof (Z.mod_pos_bound (Zpos mx * 2 ^ t) (Zpos my) ltac:(lia)) as Hr.
    set (q := (Zpos mx * 2 ^ t / Zpos my)%Z) in *.
    set (r := ((Zpos mx * 2 ^ t) mod Zpos my)%Z) in *.
    assert (Hq : (0 <= q)%Z).
    { apply Z.div_pos; [|lia].
      apply Z.mul_nonneg_nonneg; [lia|apply Z.pow_nonneg; lia]. }
    (* the exact quotient of the magnitudes *)
    set (T := value false (Zpos mx) ex / value false (Zpos my) ey).
    assert (Hy0 : 0 < value false (Zpos my) ey).
    { unfold value. cbn [cond_Zopp].
      apply Qmult_lt_0_compat; [reflexivity|apply pow2Q_pos]. }
    assert (ET : T * inject_Z (Zpos my)
                 == (inject_Z q * inject_Z (Zpos my) + inject_Z r) * 2 ^ e').
    { rewrite <- inject_Z_mult, <- inject_Z_plus.
      replace (q * Zpos my + r)%Z with (Zpos mx * 2 ^ t)%Z by lia.
      rewrite inject_Z_mult, pow2Q_Z by exact Hs0.
      unfold T, value. cbn [cond_Zopp].
      replace ex with (t + e' + ey)%Z at 1 by (unfold t; lia).
      rewrite !pow2Q_add.
      pose proof (pow2Q_pos ey) as Hpe.
      field. split; [lra|discriminate]. }
    assert (Hmy : 0 < inject_Z (Zpos my)) by reflexivity.
    assert (Hr' : 0 <= inject_Z r < inject_Z (Zpos my)).
    { split; [change 0 with (inject_Z 0); rewrite <- Zle_Qle
             |rewrite <- Zlt_Qlt]; lia. }
    pose proof (pow2Q_pos e') as Hpe'.
    assert (HT : value false q e' <= T <= value false (q + 1) e').
    { rewrite value_succ. unfold value at 1 2. cbn [cond_Zopp].
      set (a := inject_Z (Zpos my)) in *. set (u := 2 ^ e') in *.
      set (iq := inject_Z q) in *. set (ir := inject_Z r) in *.
      split.
      - apply (Qmult_le_r _ _ a Hmy). rewrite ET. nra.
      - apply (Qmult_le_r _ _ a Hmy). rewrite ET. nra. }
    pose proof (round_cell (xorb sx sy) q e' (new_location (Zpos my) r) T V
                  Hq HT) as H.
    eapply cell_compat; [reflexivity| |apply H].
    + rewrite Hx, Hy, (value_opp sx), (value_opp sy). unfold T.
      assert (Hne : ~ value false (Zpos my) ey == 0) by lra.
      destruct sx, sy; cbn [xorb]; field; exact Hne.
    + intros El. apply new_location_exact in El.
      assert (Er : inject_Z r == 0) by (rewrite El; reflexivity).
      rewrite Er in ET. unfold value. cbn [cond_Zopp].
      apply (Qmult_inj_r _ _ (inject_Z (Zpos my))); [lra|].
      rewrite ET. ring.
    + intros _ Hs. exact (Hfine Hs).
    + exact HV.
Qed.

End CellOperations.

Section Integers.

Import Exact.

Local Open Scope Q_scope.

Lemma value_exp_0 (s : bool) (m : Z) : value s m 0 == inject_Z (cond_Zopp s m).
Proof. unfold value. change (2 ^ 0) with 1. ring. Qed.

(** The float of a representable integer has its value. *)
Lemma of_Z_value (n : Z) :
  F64.representable n ->
  exists N, F64.to_Q (F64.of_Z n) = Some N /\ N == inject_Z n.
Proof.
  intros [->|(a & j & E & Ha & Hda & Hj & Hd)].
  - exists 0. split; reflexivity.
  - assert (Hround : forall s p, Zpos p = (a * 2 ^ j)%Z ->
              exists N, F64.to_Q (binary_round F64.prec F64.emax s p 0) = Some N
                        /\ N == value s (Zpos p) 0).
    { intros s p Ep. unfold binary_round.
      fold (F64.fexp (Zpos (digits2_pos p) + 0)).
      pose proof (shl_align_spec p (F64.fexp (Zpos (digits2_pos p) + 0)))
        as [Hneg Hpos].
      assert (HD : Zpos (digits2_pos p) = (Zdigits2 a + j)%Z).
      { change (Zpos (digits2_pos p)) with (Zdigits2 (Zpos p)). rewrite Ep.
        apply Zdigits2_shift; lia. }
      pose proof (Zdigits2_pos a Ha) as Hda0.
      destruct (shl_align p 0 _) as [mz ez]. cbn [fst snd] in *.
      destruct (Z.lt_ge_cases (F64.fexp (Zpos (digits2_pos p) + 0)) 0) as [Ht|Ht].
      - destruct (Hneg Ht) as [Emz Eez].
        assert (Hez : (-1074 <= ez < 0)%Z)
          by (rewrite Eez, fexp_eq in *; lia).
        assert (Em : Zpos mz = (a * 2 ^ (j - ez))%Z).
        { rewrite Emz, Ep, Eez. rewrite <- Z.mul_assoc, <- Z.pow_add_r by lia.
          do 2 f_equal; lia. }
        rewrite Em.
        destruct (binary_round_aux_exact s a (j - ez) ez)
          as (m' & e' & R & Ee' & Ev); try lia.
        rewrite R. destruct (to_Q_value s m' e') as (v & Evq & Hv).
        exists v. split; [exact Evq|]. rewrite Hv.
        assert (E1 : value s (Zpos m') e'
                     == value s (Zpos m' * 2 ^ (e' - ez)) ez).
        { rewrite value_shift by lia. replace (ez + (e' - ez))%Z with e' by lia.
          reflexivity. }
        rewrite <- Eez in Emz. rewrite E1, <- Ev, <- Em, Emz.
        rewrite value_shift by lia.
        replace (ez + - ez)%Z with 0%Z by lia. reflexivity.
      - injection (Hpos Ht) as -> ->. rewrite Ep.
        destruct (binary_round_aux_exact s a j 0)
          as (m' & e' & R & Ee' & Ev); try lia.
        rewrite R. destruct (to_Q_value s m' e') as (v & Evq & Hv).
        exists v. split; [exact Evq|]. rewrite Hv.
        assert (E1 : value s (Zpos m') e'
                     == value s (Zpos m' * 2 ^ (e' - 0)) 0).
        { rewrite value_shift by lia. replace (0 + (e' - 0))%Z with e' by lia.
          reflexivity. }
        rewrite E1, <- Ev. reflexivity. }
    unfold F64.of_Z, binary_normalize.
    destruct n as [|p|p]; cbn [Z.abs] in E.
    + assert (0 < a * 2 ^ j)%Z
        by (apply Z.mul_pos_pos; [lia|apply Z.pow_pos_nonneg; lia]). lia.
    + destruct (Hround false p E) as (N & EN & HN).
      exists N. split; [exact EN|]. rewrite HN, value_exp_0. reflexivity.
    + destruct (Hround true p E) as (N & EN & HN).
      exists N. split; [exact EN|]. rewrite HN, value_exp_0. reflexivity.
Qed.

End Integers.

Section Truncation.

Local Open Scope Q_scope.

Lemma Qtrunc_comp (x y : Q) : x == y -> Spec.Qtrunc x = Spec.Qtrunc y.
Proof.
  intros E. unfold Spec.Qtrunc.
  assert (Hb : Qle_bool 0 x = Qle_bool 0 y).
  { destruct (Qle_bool 0 x) eqn:Hx, (Qle_bool 0 y) eqn:Hy; try reflexivity.
    - apply Qle_bool_iff in Hx. rewrite E in Hx. apply Qle_bool_iff in Hx.
      congruence.
    - apply Qle_bool_iff in Hy. rewrite <- E in Hy. apply Qle_bool_iff in Hy.
      congruence. }
  rewrite Hb. destruct (Qle_bool 0 y);
    [apply Qfloor_comp|apply Qceiling_comp]; exact E.
Qed.

Lemma inject_Z_succ (z : Z) : inject_Z (z + 1) == inject_Z z + 1.
Proof. rewrite inject_Z_plus. reflexivity. Qed.

Lemma inject_Z_pred (z : Z) : inject_Z (z - 1) == inject_Z z - 1.
Proof.
  replace (z - 1)%Z with (z + -1)%Z by lia. rewrite inject_Z_plus. reflexivity.
Qed.

(** A truncation is less than 1 away, on the side of zero. *)
Lemma Qtrunc_bounds (q : Q) :
  (0 <= q /\ inject_Z (Spec.Qtrunc q) <= q < inject_Z (Spec.Qtrunc q) + 1)
  \/ (q < 0 /\ inject_Z (Spec.Qtrunc q) - 1 < q <= inject_Z (Spec.Qtrunc q)).
Proof.
  destruct (Qtrunc_toward_zero q) as [Hp Hn].
  destruct (Qlt_le_dec q 0) as [H|H].
  - right. destruct (Hn H) as [H1 H2]. split; [exact H|].
    rewrite inject_Z_pred in H1. lra.
  - left. destruct (Hp H) as [H1 H2]. split; [exact H|].
    rewrite inject_Z_succ in H2. lra.
Qed.

Lemma Qtrunc_le_succ (x y : Q) :
  x <= y + 1 -> (Spec.Qtrunc x <= Spec.Qtrunc y + 1)%Z.
Proof.
  intros H.
  enough (Hlt : (Spec.Qtrunc x < Spec.Qtrunc y + 1 + 1)%Z) by lia.
  rewrite Zlt_Qlt, !inject_Z_succ.
  destruct (Qtrunc_bounds x) as [[Hx Bx]|[Hx Bx]],
    (Qtrunc_bounds y) as [[Hy By]|[Hy By]]; lra.
Qed.

(** Two numbers within 1 of each other are truncated to integers within
    1 of each other. *)
Lemma Qtrunc_near (x y : Q) :
  Qabs (x - y) <= 1 -> (Z.abs (Spec.Qtrunc x - Spec.Qtrunc y) <= 1)%Z.
Proof.
  intros H. apply Qabs_diff_Qle_condition in H.
  pose proof (Qtrunc_le_succ x y ltac:(lra)).
  pose proof (Qtrunc_le_succ y x ltac:(lra)). lia.
Qed.

(** A truncation below a bound comes from a number below the bound. *)
Lemma Qtrunc_abs_lt (q : Q) (b : Z) :
  (Z.abs (Spec.Qtrunc q) < b)%Z -> Qabs q <= inject_Z b.
Proof.
  intros H. apply Qabs_Qle_condition.
  assert (H1 : (Spec.Qtrunc q + 1 <= b)%Z) by lia.
  assert (H2 : (- b <= Spec.Qtrunc q - 1)%Z) by lia.
  rewrite Zle_Qle, inject_Z_succ in H1.
  rewrite Zle_Qle, inject_Z_pred, inject_Z_opp in H2.
  destruct (Qtrunc_bounds q) as [[Hq Bq]|[Hq Bq]]; lra.
Qed.

End Truncation.

Section Errors.

Import Exact.

Local Open Scope Q_scope.

Lemma pow2Q_52 : 2 ^ 52 == 4503599627370496.
Proof. reflexivity. Qed.

Lemma pow2Q_least : 2 ^ (-1074) <= 1 # 4503599627370496.
Proof.
  eapply Qle_trans; [apply (pow2Q_le (-1074) (-52)); lia|].
  apply Qle_lteq. right. reflexivity.
Qed.

(** What a cell says about the distance of its two numbers. *)
Lemma cell_width (V T : Q) :
  cell V T ->
  exists w, 0 <= w /\ Qabs (V - T) <= w
            /\ (w <= 2 ^ (-1074) \/ 2 ^ 52 * w <= Qabs V).
Proof.
  intros (lo & w & Hlo & Hw & Hf & Hc). exists w. split; [exact Hw|].
  rewrite pow2Q_52 in *.
  destruct Hc as [[HV HT]|[HV HT]].
  - split; [apply Qabs_Qle_condition; lra|].
    rewrite Qabs_pos by lra. destruct Hf; [left; assumption|right; lra].
  - split; [apply Qabs_Qle_condition; lra|].
    rewrite Qabs_neg by lra. destruct Hf; [left; assumption|right; lra].
Qed.

(** A quotient rounded to a float, below [2 ^ 50]: the float is within a
    quarter of the quotient. *)
Lemma cell_near (V T : Q) :
  cell V T -> Qabs V <= inject_Z (2 ^ 50) -> Qabs (V - T) <= 1 # 4.
Proof.
  intros Hc HV. destruct (cell_width V T Hc) as (w & Hw & Hd & Hf).
  change (inject_Z (2 ^ 50)) with 1125899906842624 in HV.
  rewrite pow2Q_52 in Hf. pose proof pow2Q_least as Ht.
  destruct Hf; lra.
Qed.

(** A count times a rate, both rounded: while the product and the count
    stay below [2 ^ 50] the float is within 1 of the exact product. *)
Lemma stage_near (N R rho V : Q) :
  cell R rho -> cell V (N * R) ->
  Qabs V <= inject_Z (2 ^ 50) -> Qabs N <= inject_Z (2 ^ 50) ->
  Qabs (V - N * rho) <= 1.
Proof.
  intros HR HVc HV HN.
  destruct (cell_width R rho HR) as (wr & Hwr & Hdr & Hfr).
  destruct (cell_width V (N * R) HVc) as (wf & Hwf & Hdf & Hff).
  change (inject_Z (2 ^ 50)) with 1125899906842624 in *.
  rewrite pow2Q_52 in *. pose proof pow2Q_least as Ht.
  pose proof (pow2Q_pos (-1074)) as Ht0.
  set (t := 2 ^ (-1074)) in *.
  (* the distance splits in two *)
  assert (Htri : Qabs (V - N * rho)
                 <= Qabs (V - N * R) + Qabs N * Qabs (R - rho)).
  { rewrite <- Qabs_Qmult.
    assert (E : V - N * rho == (V - N * R) + N * (R - rho)) by ring.
    rewrite E. apply Qabs_triangle. }
  (* the product is about as large as its float *)
  assert (Hp : Qabs N * Qabs R <= Qabs V + Qabs (V - N * R)).
  { rewrite <- Qabs_Qmult.
    assert (E : N * R == V + - (V - N * R)) by ring.
    rewrite E at 1.
    eapply Qle_trans; [apply Qabs_triangle|]. rewrite Qabs_opp. lra. }
  pose proof (Qabs_nonneg N) as Hn0. pose proof (Qabs_nonneg R) as Hr0.
  pose proof (Qabs_nonneg V) as Hv0.
  pose proof (Qabs_nonneg (R - rho)) as Hdr0.
  pose proof (Qabs_nonneg (V - N * R)) as Hdf0.
  set (n := Qabs N) in *. set (r := Qabs R) in *. set (v := Qabs V) in *.
  set (dr := Qabs (R - rho)) in *. set (df := Qabs (V - N * R)) in *.
  assert (H1 : 0 <= n * (wr - dr)) by (apply Qmult_le_0_compat; lra).
  assert (Hwf4 : wf <= 1 # 4) by (destruct Hff; lra).
  assert (Hnw : n * wr <= 1 # 2).
  { destruct Hfr as [Hfr|Hfr].
    - assert (H2 : 0 <= n * (t - wr)) by (apply Qmult_le_0_compat; lra).
      assert (H3 : 0 <= (1125899906842624 - n) * t)
        by (apply Qmult_le_0_compat; lra).
      lra.
    - assert (H2 : 0 <= n * (r - 4503599627370496 * wr))
        by (apply Qmult_le_0_compat; lra).
      lra. }
  lra.
Qed.

End Errors.

Section Within.

Import Exact.

Lemma to_Q_f100 : exists Y, F64.to_Q f100 = Some Y /\ (Y == inject_Z 100)%Q.
Proof. eexists. split; reflexivity. Qed.

Lemma Qabs_inject_lt (n b : Z) :
  Z.abs n < b -> (Qabs (inject_Z n) <= inject_Z b)%Q.
Proof.
  intros H. apply Qabs_Qle_condition. rewrite <- inject_Z_opp, <- !Zle_Qle. lia.
Qed.

(** The float that [int] truncates has a value, and [int] gives its
    integer part. *)
Lemma int_of_float_value (x : float) (k : Z) :
  Py.int_of_float x = Ok k ->
  exists V, F64.to_Q x = Some V /\ k = Spec.Qtrunc V.
Proof.
  intros H. pose proof (int_of_float_trunc x) as Ht. rewrite H in Ht.
  unfold Spec.trunc in Ht. destruct (F64.to_Q x) as [V|]; [|discriminate].
  exists V. split; [reflexivity|]. injection Ht as ->. reflexivity.
Qed.

(** A later stage is within 1 of the exact product of the previous count
    and the rate, while both counts stay below [2 ^ 50]. *)
Lemma stage_within (n a : Z) (pct : float) (P : Q) :
  F64.representable n -> F64.to_Q pct = Some P ->
  stage n (Rounded.rate pct) = Ok a ->
  Z.abs n < 2 ^ 50 -> Z.abs a < 2 ^ 50 ->
  Z.abs (a - Spec.next_stage n P) <= 1.
Proof.
  intros Hn HP Hs Hnb Hab. unfold stage, Py.int_mul_float in Hs.
  destruct (float_of_int_representable n Hn) as (y & Ey & _).
  rewrite Ey in Hs. cbn [bind] in Hs. apply float_of_int_ok in Ey. subst y.
  destruct (of_Z_value n Hn) as (N & EN & HN).
  destruct (int_of_float_value _ _ Hs) as (V & EV & ->).
  destruct to_Q_f100 as (Y & EY & HY).
  (* the rate is finite, as the product is *)
  assert (HR : exists R, F64.to_Q (Rounded.rate pct) = Some R).
  { destruct (Rounded.rate pct) as [s|s| |s m e]; cbn [F64.to_Q]; eauto;
      destruct (F64.of_Z n); discriminate EV. }
  destruct HR as (R & ER).
  pose proof (div_cell pct f100 P Y R HP EY f100_not_zero ER) as Hc1.
  pose proof (mul_cell _ _ N R V EN ER EV) as Hc2.
  pose proof (Qtrunc_abs_lt V (2 ^ 50) Hab) as HVb.
  assert (HNb : (Qabs N <= inject_Z (2 ^ 50))%Q).
  { rewrite HN. apply Qabs_inject_lt, Hnb. }
  pose proof (stage_near N R (P / Y) V Hc1 Hc2 HVb HNb) as Hnear.
  apply Qtrunc_near in Hnear.
  unfold Spec.next_stage.
  rewrite (Qtrunc_comp (inject_Z n * (P / inject_Z 100)) (N * (P / Y))).
  - exact Hnear.
  - rewrite HN, HY. reflexivity.
Qed.

(** The first stage is within 1 of the exact quotient, below [2 ^ 50]. *)
Lemma leads_within (inv cpl : float) (I C : Q) (l : Z) :
  F64.to_Q inv = Some I -> F64.to_Q cpl = Some C ->
  (if Py.float_gt_0 cpl
   then (let* q := Py.float_truediv inv cpl in Py.int_of_float q)
   else Ok 0) = Ok l ->
  Z.abs l < 2 ^ 50 ->
  Z.abs (l - Spec.leads I C) <= 1.
Proof.
  intros HI HC Hl Hlb. unfold Spec.leads.
  destruct (Py.float_gt_0 cpl) eqn:Hg.
  - rewrite (float_truediv_positive _ _ Hg) in Hl. cbn [bind] in Hl.
    destruct (int_of_float_value _ _ Hl) as (V & EV & ->).
    destruct cpl as [s|s| |s m e]; try discriminate Hg; try discriminate HC.
    destruct s; [discriminate Hg|].
    destruct (to_Q_value false m e) as (c & Ec & Hc).
    rewrite Ec in HC. injection HC as <-.
    assert (Hpos : (0 < c)%Q).
    { rewrite Hc. unfold value. cbn [cond_Zopp].
      apply Qmult_lt_0_compat; [reflexivity|apply pow2Q_pos]. }
    destruct (Qle_bool c 0) eqn:Hb.
    + apply Qle_bool_iff in Hb. lra.
    + pose proof (div_cell inv (S754_finite false m e) I c V HI Ec eq_refl EV)
        as Hcell.
      pose proof (cell_near V (I / c) Hcell (Qtrunc_abs_lt V (2 ^ 50) Hlb))
        as Hnear.
      apply Qtrunc_near. lra.
  - injection Hl as <-.
    assert (Hle : (C <= 0)%Q).
    { destruct cpl as [s|s| |s m e]; try discriminate HC.
      - injection HC as <-. lra.
      - destruct s; [|discriminate Hg].
        destruct (to_Q_value true m e) as (c & Ec & Hc).
        rewrite Ec in HC. injection HC as <-. rewrite Hc, value_opp.
        pose proof (value_nonneg (Zpos m) e ltac:(lia)). lra. }
    apply Qle_bool_iff in Hle. rewrite Hle. simpl. lia.
Qed.

Lemma counts_within (inv cpl pa pc pv : float) (I C Pa Pc Pv : Q)
    (l a c v : Z) :
  funnel_counts inv cpl pa pc pv = Ok (l, a, c, v) ->
  F64.to_Q inv = Some I -> F64.to_Q cpl = Some C ->
  F64.to_Q pa = Some Pa -> F64.to_Q pc = Some Pc -> F64.to_Q pv = Some Pv ->
  Z.abs l < 2 ^ 50 -> Z.abs a < 2 ^ 50 -> Z.abs c < 2 ^ 50 ->
  Z.abs v < 2 ^ 50 ->
  Z.abs (l - Spec.leads I C) <= 1
  /\ Z.abs (a - Spec.next_stage l Pa) <= 1
  /\ Z.abs (c - Spec.next_stage a Pc) <= 1
  /\ Z.abs (v - Spec.next_stage c Pv) <= 1.
Proof.
  intros H HI HC HPa HPc HPv Bl Ba Bc Bv.
  destruct (funnel_counts_representable _ _ _ _ _ _ _ _ _ H)
    as (Rl & Ra & Rc & _).
  unfold funnel_counts in H. rewrite !percent_rate in H. cbn [bind] in H.
  destruct (if Py.float_gt_0 cpl then _ else _) as [l'|] eqn:El;
    cbn [bind] in H; [|discriminate].
  destruct (stage l' _) as [a'|] eqn:Ea; cbn [bind] in H; [|discriminate].
  destruct (stage a' _) as [c'|] eqn:Ec; cbn [bind] in H; [|discriminate].
  destruct (stage c' _) as [v'|] eqn:Ev; cbn [bind] in H; [|discriminate].
  injection H as -> -> -> ->.
  split; [exact (leads_within inv cpl I C l HI HC El Bl)|].
  split; [exact (stage_within l a pa Pa Rl HPa Ea Bl Ba)|].
  split; [exact (stage_within a c pc Pc Ra HPc Ec Ba Bc)|].
  exact (stage_within c v pv Pv Rc HPv Ev Bc Bv).
Qed.

End Within.

Section Chain.

Variables investimento custo_lead pct_agendamento pct_comparecimento
  pct_conversao ticket_medio : float.

(** C1, as amended. For every six inputs the count stages are the
    derivation chain of the specification evaluated in binary64
    arithmetic: leads is the truncation toward zero of the float quotient
    investment / costPerLead when costPerLead > 0 and 0 otherwise, and each
    later stage is the truncation toward zero of the float product of the
    previous count and the rate, the float quotient of the percentage by
    100.  The projection returns these four counts wherever that chain has
    a value, and raises where a stage has no integer part.  Whenever it
    returns with the four counts below [2 ^ 50], each count is within 1 of
    what the formula of the specification gives in exact arithmetic, at
    the exact values of the inputs and the count of the stage before. *)
Theorem funnel_counts_follow_chain :
  to_option (funnel_counts investimento custo_lead pct_agendamento
               pct_comparecimento pct_conversao)
  = Rounded.stages investimento custo_lead pct_agendamento pct_comparecimento
      pct_conversao
  /\ (F64.bounded investimento = true ->
      match Rounded.stages investimento custo_lead pct_agendamento
              pct_comparecimento pct_conversao with
      | Some (l, a, c, v) =>
          exists r,
            project_funnel investimento custo_lead pct_agendamento
              pct_comparecimento pct_conversao ticket_medio = Ok r
            /\ leads r = l /\ agendamentos r = a /\ comparecimentos r = c
            /\ vendas r = v
      | None =>
          exists e,
            project_funnel investimento custo_lead pct_agendamento
              pct_comparecimento pct_conversao ticket_medio = Raise e
      end)
  /\ (forall (r : resultados) (i cl pa pc pv : Q),
        project_funnel investimento custo_lead pct_agendamento
          pct_comparecimento pct_conversao ticket_medio = Ok r ->
        F64.to_Q investimento = Some i ->
        F64.to_Q custo_lead = Some cl ->
        F64.to_Q pct_agendamento = Some pa ->
        F64.to_Q pct_comparecimento = Some pc ->
        F64.to_Q pct_conversao = Some pv ->
        Z.abs (leads r) < 2 ^ 50 -> Z.abs (agendamentos r) < 2 ^ 50 ->
        Z.abs (comparecimentos r) < 2 ^ 50 -> Z.abs (vendas r) < 2 ^ 50 ->
        Z.abs (leads r - Spec.leads i cl) <= 1
        /\ Z.abs (agendamentos r - Spec.next_stage (leads r) pa) <= 1
        /\ Z.abs (comparecimentos r - Spec.next_stage (agendamentos r) pc) <= 1
        /\ Z.abs (vendas r - Spec.next_stage (comparecimentos r) pv) <= 1).
Proof.
  split; [apply funnel_counts_chain|].
  split; [apply project_funnel_chain|].
  intros r i cl pa pc pv H.
  apply project_funnel_inv in H as (Hcounts & _).
  exact (counts_within _ _ _ _ _ _ _ _ _ _ _ _ _ _ Hcounts).
Qed.

End Chain.

Lemma funnel_counts_follow_chain_witness :
  (exists r,
     project_funnel (F64.of_Z 10000) (F64.of_Z 50) (F64.of_Z 20) (F64.of_Z 80)
       (F64.of_Z 25) (F64.of_Z 500) = Ok r
     /\ leads r = 200 /\ agendamentos r = 40 /\ comparecimentos r = 32
     /\ vendas r = 8)
  /\ Z.abs (28 - Spec.next_stage 100 (29 # 1)) <= 1.
Proof.
  split.
  - exact (proj1 (proj2 (funnel_counts_follow_chain (F64.of_Z 10000)
                           (F64.of_Z 50) (F64.of_Z 20) (F64.of_Z 80)
                           (F64.of_Z 25) (F64.of_Z 500)))
             eq_refl).
  - let v := eval vm_compute in
      (project_funnel (F64.of_Z 5000) (F64.of_Z 50) (F64.of_Z 29)
         (F64.of_Z 100) (F64.of_Z 100) (F64.of_Z 500)) in
    match v with
    | Ok ?r =>
        pose proof (proj2 (proj2 (funnel_counts_follow_chain (F64.of_Z 5000)
                                    (F64.of_Z 50) (F64.of_Z 29) (F64.of_Z 100)
                                    (F64.of_Z 100) (F64.of_Z 500)))
                      r _ _ _ _ _
                      ltac:(vm_compute; reflexivity) eq_refl eq_refl eq_refl
                      eq_refl eq_refl
                      ltac:(vm_compute; reflexivity)
                      ltac:(vm_compute; reflexivity)
                      ltac:(vm_compute; reflexivity)
                      ltac:(vm_compute; reflexivity))
          as (_ & H & _)
    end.
    vm_compute in H |- *. exact H.
Defined.
